(** * chessnaptracker: the two game-source adapters

    A shallow embedding of [src/chess-com.ts] and [src/lichess.ts] and the
    properties of their clock derivation, outcome classification, time-control
    formatting and error handling.

    Modelling conventions.
    - A JavaScript string is a [string] of 8-bit characters: the services'
      user names, PGN text and time controls are ASCII.
    - A JavaScript number is an exact integer [Int z] or [NaN].  Doubles are
      exact on integers below 2^53, which covers clock readings, ratings and
      epoch seconds.  Where the source leaves the integers (time stamps in
      fractional seconds, [Infinity]) the model says how it represents them.
    - [undefined] and [null] are [None].
    - An exception is a value of [thrown]; a computation that may throw
      returns a [completion]. *)

From Stdlib Require Import ZArith List Bool Ascii String Lia.
From Stdlib Require Decimal DecimalString DecimalZ.
From Stdlib Require Import Permutation Sorted.
Import ListNotations.

#[local] Open Scope string_scope.
#[local] Open Scope Z_scope.

(** ** The JavaScript built-ins the adapters call *)

Module JS.

Inductive number :=
| Int (z : Z)
| NaN.

Definition isNaN (n : number) : bool :=
  match n with NaN => true | Int _ => false end.

(** Arithmetic propagates [NaN]; a comparison with [NaN] is false. *)
Definition lift2 (f : Z -> Z -> Z) (a b : number) : number :=
  match a, b with
  | Int x, Int y => Int (f x y)
  | _, _ => NaN
  end.

Definition add := lift2 Z.add.
Definition sub := lift2 Z.sub.
Definition mul := lift2 Z.mul.

Definition gt (a b : number) : bool :=
  match a, b with Int x, Int y => y <? x | _, _ => false end.

Definition le (a b : number) : bool :=
  match a, b with Int x, Int y => x <=? y | _, _ => false end.

(** [Math.floor(a / d)] for a positive integer [d], and [a % d], whose
    sign follows the dividend. *)
Definition floor_div (a : number) (d : Z) : number :=
  match a with Int x => Int (x / d) | NaN => NaN end.

Definition rem (a : number) (d : Z) : number :=
  match a with Int x => Int (Z.rem x d) | NaN => NaN end.

(** The largest integer below which every integer is a double of its own,
    [Number.MAX_SAFE_INTEGER] = 2^53 - 1.  The statements that send a number
    through JavaScript's arithmetic keep it at or below this bound. *)
Definition MAX_SAFE_INTEGER : Z := 9007199254740991.

(** *** Characters *)

Definition is_digit (c : ascii) : bool :=
  let n := nat_of_ascii c in (48 <=? n)%nat && (n <=? 57)%nat.

(** [\s] restricted to ASCII: tab, line feed, vertical tab, form feed,
    carriage return, space. *)
Definition is_space (c : ascii) : bool :=
  let n := nat_of_ascii c in
  ((9 <=? n)%nat && (n <=? 13)%nat) || (n =? 32)%nat.

(** Line terminators, the characters [.] does not match. *)
Definition is_newline (c : ascii) : bool :=
  let n := nat_of_ascii c in (n =? 10)%nat || (n =? 13)%nat.

Definition lower (c : ascii) : ascii :=
  let n := nat_of_ascii c in
  if (65 <=? n)%nat && (n <=? 90)%nat then ascii_of_nat (n + 32) else c.

(** *** Strings *)

Fixpoint toLowerCase (s : string) : string :=
  match s with
  | EmptyString => EmptyString
  | String c s' => String (lower c) (toLowerCase s')
  end.

Fixpoint trimStart (s : string) : string :=
  match s with
  | EmptyString => EmptyString
  | String c s' => if is_space c then trimStart s' else s
  end.

Fixpoint trimEnd (s : string) : string :=
  match s with
  | EmptyString => EmptyString
  | String c s' =>
      match trimEnd s' with
      | EmptyString => if is_space c then EmptyString else String c EmptyString
      | t => String c t
      end
  end.

Definition trim (s : string) : string := trimEnd (trimStart s).

(** An empty string is falsy, any other string truthy. *)
Definition truthy (s : string) : bool :=
  match s with EmptyString => false | _ => true end.

(** [s.includes(t)] *)
Fixpoint includes (s t : string) : bool :=
  if prefix t s then true
  else match s with
       | EmptyString => false
       | String _ s' => includes s' t
       end.

(** [s.split(c)] for a one-character separator: never the empty list. *)
Fixpoint split (sep : ascii) (s : string) : list string :=
  match s with
  | EmptyString => [EmptyString]
  | String c s' =>
      if Ascii.eqb c sep then EmptyString :: split sep s'
      else match split sep s' with
           | [] => [String c EmptyString]
           | p :: ps => String c p :: ps
           end
  end.

(** [a.join(' ')] *)
Fixpoint join (sep : string) (l : list string) : string :=
  match l with
  | [] => EmptyString
  | [x] => x
  | x :: rest => x ++ sep ++ join sep rest
  end.

(** [s.padStart(2, '0')] *)
Definition padStart2 (s : string) : string :=
  match s with
  | String c EmptyString => String "0" s
  | EmptyString => "00"
  | _ => s
  end.

(** *** Numbers and strings *)

(** Number to string, for the integers of the model and [NaN]. *)
Definition Z_toString (z : Z) : string :=
  DecimalString.NilZero.string_of_int (Z.to_int z).

Definition toString (n : number) : string :=
  match n with Int z => Z_toString z | NaN => "NaN" end.

(** Every character of [s] satisfies [p]. *)
Fixpoint all (p : ascii -> bool) (s : string) : bool :=
  match s with
  | EmptyString => true
  | String c s' => p c && all p s'
  end.

Definition all_digits (s : string) : bool := all is_digit s.

(** The characters other than [sep]. *)
Definition is_not (sep : ascii) (c : ascii) : bool := negb (Ascii.eqb c sep).

(** The next character of [s], if any, is outside the class [p]. *)
Definition stops (p : ascii -> bool) (s : string) : bool :=
  match s with
  | EmptyString => true
  | String a _ => negb (p a)
  end.

(** A non-empty run of decimal digits, what [\d+] matches. *)
Definition is_digits (s : string) : bool := truthy s && all_digits s.

(** The value of a run of digits, leading zeros allowed. *)
Definition digits_value (s : string) : option Z :=
  if is_digits s
  then option_map Z.of_uint (DecimalString.NilEmpty.uint_of_string s)
  else None.

(** Nothing, or a dot and a run of digits: what [(?:\.\d+)?] matches. *)
Definition is_fraction (frac : string) : bool :=
  match frac with
  | EmptyString => true
  | String c f => Ascii.eqb c "." && is_digits f
  end.

(** The characters a numeric literal of JavaScript can hold: digits, white
    space, signs, the dot, the exponent and radix letters, the hexadecimal
    digits and the letters of [Infinity]. *)
Definition numeric_char (c : ascii) : bool :=
  is_digit c || is_space c
  || existsb (Ascii.eqb c)
       (list_ascii_of_string "+-.eExXoObBaAcCdDfFInity").

(** [Number(s)] on the literals the adapters meet: white space is
    trimmed, the empty string is 0, an optionally signed run of decimal
    digits is its value, anything else is [NaN].  The answer is the one of
    JavaScript on the empty string, on signed runs of digits up to
    [MAX_SAFE_INTEGER] and on every ASCII text that holds a character
    outside [numeric_char].  JavaScript also reads fractions, exponents,
    radix prefixes and [Infinity] as numbers; those literals are outside
    the integers of the model, and the statements below that give the
    value of a number read by [Number] keep its text to the three kinds on
    which the answer is JavaScript's. *)
Definition Number (s : string) : number :=
  match trim s with
  | EmptyString => Int 0
  | String c t as ds =>
      if Ascii.eqb c "-" then
        match digits_value t with Some v => Int (- v) | None => NaN end
      else if Ascii.eqb c "+" then
        match digits_value t with Some v => Int v | None => NaN end
      else
        match digits_value ds with Some v => Int v | None => NaN end
  end.

(** The longest prefix of decimal digits and what follows it. *)
Fixpoint span_digits (s : string) : string * string :=
  match s with
  | EmptyString => (EmptyString, EmptyString)
  | String c s' =>
      if is_digit c
      then let (d, r) := span_digits s' in (String c d, r)
      else (EmptyString, s)
  end.

(** [Math.floor(parseFloat(s))] for an unsigned decimal literal:
    [parseFloat] reads the longest prefix [digits[.digits]] and the floor
    keeps its integer part.  The answer is JavaScript's when the literal has
    at most fifteen digits in all, which a double tells apart from the next
    integer; a longer literal is rounded by [parseFloat] before the floor is
    taken, and the statements below that name the value keep to fifteen
    digits.  Signs, exponents and a literal starting with the dot are not
    needed by the caller, whose argument matched [\d+(?:\.\d+)?]. *)
Definition floor_parseFloat (s : string) : number :=
  match digits_value (fst (span_digits (trimStart s))) with
  | Some v => Int v
  | None => NaN
  end.

(** The digits of base 16 and their values. *)
Definition is_hex_digit (c : ascii) : bool :=
  let n := nat_of_ascii c in
  is_digit c || ((97 <=? n)%nat && (n <=? 102)%nat)
  || ((65 <=? n)%nat && (n <=? 70)%nat).

Definition hex_value (c : ascii) : Z :=
  let n := Z.of_nat (nat_of_ascii c) in
  if is_digit c then n - 48 else if 97 <=? n then n - 87 else n - 55.

(** The value of the longest prefix of base-16 digits, read after the value
    [acc] of the digits before it; [None] when no digit was read at all. *)
Fixpoint hex_run (acc : option Z) (s : string) : option Z :=
  match s with
  | String c s' =>
      if is_hex_digit c then
        hex_run
          (Some (16 * match acc with Some a => a | None => 0 end
                 + hex_value c))
          s'
      else acc
  | EmptyString => acc
  end.

(** What [parseInt] reads behind the sign: after [0x] or [0X] the longest
    prefix of base-16 digits, otherwise the longest prefix of decimal
    digits. *)
Definition unsigned_prefix (t : string) : option Z :=
  match t with
  | String z (String x t') =>
      if Ascii.eqb z "0" && (Ascii.eqb x "x" || Ascii.eqb x "X")
      then hex_run None t'
      else digits_value (fst (span_digits t))
  | _ => digits_value (fst (span_digits t))
  end.

(** [parseInt(s)] without a radix: white space and one sign are skipped,
    then the longest prefix of digits is read, in base 16 after [0x] or [0X]
    and in base 10 otherwise; [NaN] when there is no digit. *)
Definition parseInt (s : string) : number :=
  match trimStart s with
  | EmptyString => NaN
  | String c t as ds =>
      if Ascii.eqb c "-" then
        match unsigned_prefix t with Some v => Int (- v) | None => NaN end
      else if Ascii.eqb c "+" then
        match unsigned_prefix t with Some v => Int v | None => NaN end
      else
        match unsigned_prefix ds with Some v => Int v | None => NaN end
  end.

(** *** Exceptions *)

(** A thrown value is an [Error] object (of whatever subclass: [Error],
    [TypeError], [SyntaxError], ...) or something else. *)
Inductive thrown :=
| ErrorObject (name message : string)
| OtherValue (description : string).

Definition instanceof_Error (e : thrown) : bool :=
  match e with ErrorObject _ _ => true | OtherValue _ => false end.

Inductive completion (A : Type) :=
| Return (a : A)
| Throw (e : thrown).
Arguments Return {A} a.
Arguments Throw {A} e.

Definition bind {A B} (m : completion A) (f : A -> completion B)
  : completion B :=
  match m with Return a => f a | Throw e => Throw e end.

(** [try { body } catch (error) { handler }] *)
Definition try_catch {A} (body : completion A)
    (handler : thrown -> completion A) : completion A :=
  match body with Return a => Return a | Throw e => handler e end.

(** [new Error(msg)] *)
Definition new_Error (msg : string) : thrown := ErrorObject "Error" msg.

(** [l.map(f)] for a callback that may throw: the first exception ends
    the traversal. *)
Fixpoint traverse {A B} (f : A -> completion B) (l : list A)
  : completion (list B) :=
  match l with
  | [] => Return []
  | x :: rest =>
      match f x with
      | Throw e => Throw e
      | Return y =>
          match traverse f rest with
          | Throw e => Throw e
          | Return ys => Return (y :: ys)
          end
      end
  end.

(** [new Date(ms).toISOString()].  The model keeps the instant as its time
    value in milliseconds instead of the text; [new Date(text).getTime()]
    gives that value back.  Beyond 8.64e15 ms the date is invalid and the
    call throws. *)
Definition toISOString (ms : Z) : completion Z :=
  if Z.abs ms <=? 8640000000000000 then Return ms
  else Throw (ErrorObject "RangeError" "Invalid time value").

(** [l.sort((a, b) => key(b) - key(a))]: descending and stable. *)
Section Sort.
Context {A : Type} (key : A -> Z).

Fixpoint insert_desc (x : A) (l : list A) : list A :=
  match l with
  | [] => [x]
  | y :: rest =>
      if key y <=? key x then x :: l else y :: insert_desc x rest
  end.

Definition sort_desc (l : list A) : list A :=
  fold_right insert_desc [] l.
End Sort.

End JS.

Notation "x <- m ;; k" := (JS.bind m (fun x => k))
  (at level 61, m at next level, right associativity).

(** ** Regular expressions

    The patterns of [chess-com.ts] are kept as syntax trees and run by a
    backtracking matcher with the priorities of the JavaScript one: the
    leftmost start wins, then alternatives in order, a greedy star tries one
    more iteration before stopping, a lazy star stops before trying one more. *)

Module Regex.

Inductive regex :=
| Empty
| Class (p : ascii -> bool)
| Seq (r1 r2 : regex)
| Alt (r1 r2 : regex)
| Star (greedy : bool) (r : regex)
| Group (i : nat) (r : regex).

Definition Lit (c : ascii) : regex := Class (Ascii.eqb c).
Definition Not (c : ascii) : regex := Class (fun x => negb (Ascii.eqb c x)).
Definition Plus (r : regex) : regex := Seq r (Star true r).
Definition Opt (r : regex) : regex := Alt r Empty.

(** [\d], [\s], [\S] and [.] *)
Definition digit : regex := Class JS.is_digit.
Definition space : regex := Class JS.is_space.
Definition nonspace : regex := Class (fun c => negb (JS.is_space c)).
Definition dot : regex := Class (fun c => negb (JS.is_newline c)).

(** A literal word. *)
Fixpoint Word (w : string) : regex :=
  match w with
  | EmptyString => Empty
  | String c EmptyString => Lit c
  | String c w' => Seq (Lit c) (Word w')
  end.

(** A pattern that reads at least one character whenever it matches. *)
Fixpoint nonempty (r : regex) : bool :=
  match r with
  | Empty => false
  | Class _ => true
  | Seq r1 r2 => nonempty r1 || nonempty r2
  | Alt r1 r2 => nonempty r1 && nonempty r2
  | Star _ _ => false
  | Group _ r1 => nonempty r1
  end.

(** Captures: group number and captured text, the latest first. *)
Definition captures := list (nat * string).

Fixpoint capture (i : nat) (c : captures) : option string :=
  match c with
  | [] => None
  | (j, s) :: c' => if Nat.eqb i j then Some s else capture i c'
  end.

(** What was read between the input [s] and the remaining input [s']. *)
Definition consumed (s s' : string) : string :=
  substring 0 (length s - length s') s.

Section Matcher.
Context {A : Type}.

Definition cont := string -> captures -> option A.

(** The iterations of a star.  An iteration that reads nothing is
    refused, as in JavaScript, so [fuel] above the length of the input is
    never used up. *)
Fixpoint star_loop (body : string -> captures -> cont -> option A)
    (greedy : bool) (fuel : nat) (s : string) (c : captures) (k : cont)
    {struct fuel} : option A :=
  match fuel with
  | O => k s c
  | S fuel' =>
      if greedy then
        match body s c (fun s' c' =>
                 if (length s' <? length s)%nat
                 then star_loop body greedy fuel' s' c' k else None) with
        | Some x => Some x
        | None => k s c
        end
      else
        match k s c with
        | Some x => Some x
        | None =>
            body s c (fun s' c' =>
              if (length s' <? length s)%nat
              then star_loop body greedy fuel' s' c' k else None)
        end
  end.

(** [rmatch r s c k]: match [r] at the start of [s], then continue with
    [k] on the rest; backtrack into [r] when [k] fails. *)
Fixpoint rmatch (r : regex) (s : string) (c : captures) (k : cont)
    {struct r} : option A :=
  match r with
  | Empty => k s c
  | Class p =>
      match s with
      | String a s' => if p a then k s' c else None
      | EmptyString => None
      end
  | Seq r1 r2 => rmatch r1 s c (fun s' c' => rmatch r2 s' c' k)
  | Alt r1 r2 =>
      match rmatch r1 s c k with
      | Some x => Some x
      | None => rmatch r2 s c k
      end
  | Star g r1 => star_loop (rmatch r1) g (S (length s)) s c k
  | Group i r1 =>
      rmatch r1 s c (fun s' c' => k s' ((i, consumed s s') :: c'))
  end.
End Matcher.

(** The result of a successful match. *)
Record Match := {
  before : string;      (* the input up to the match *)
  matched : string;     (* match[0] *)
  groups : captures;
  after : string        (* the input from the end of the match on *)
}.

(** [match[i]] *)
Definition group (i : nat) (m : Match) : option string :=
  capture i (groups m).

(** A match starting at the first character, for a pattern anchored
    with [^] (no multiline flag). *)
Definition match_here (r : regex) (s : string) : option Match :=
  match rmatch r s [] (fun s' c => Some (s', c)) with
  | Some (s', c) =>
      Some {| before := EmptyString; matched := consumed s s';
              groups := c; after := s' |}
  | None => None
  end.

Definition shift (a : ascii) (m : Match) : Match :=
  {| before := String a (before m); matched := matched m;
     groups := groups m; after := after m |}.

(** [s.match(r)] and a first [r.exec(s)]: the leftmost match. *)
Fixpoint search (r : regex) (s : string) : option Match :=
  match match_here r s with
  | Some m => Some m
  | None =>
      match s with
      | EmptyString => None
      | String a s' => option_map (shift a) (search r s')
      end
  end.

(** [s.replace(r, repl)] without the [g] flag. *)
Definition replace (r : regex) (repl : string) (s : string) : string :=
  match search r s with
  | Some m => before m ++ repl ++ after m
  | None => s
  end.

(** [s.replace(r, repl)] for a pattern anchored with [^]. *)
Definition replace_here (r : regex) (repl : string) (s : string) : string :=
  match match_here r s with
  | Some m => repl ++ after m
  | None => s
  end.

(** [s.replace(r, repl)] with the [g] flag: every match, left to right,
    each search resuming where the last match ended (one character further
    after an empty match). *)
Fixpoint replace_all_fuel (fuel : nat) (r : regex) (repl : string)
    (s : string) : string :=
  match fuel with
  | O => s
  | S fuel' =>
      match search r s with
      | None => s
      | Some m =>
          match matched m, after m with
          | EmptyString, String a t =>
              before m ++ repl ++ String a (replace_all_fuel fuel' r repl t)
          | EmptyString, EmptyString => before m ++ repl
          | _, rest => before m ++ repl ++ replace_all_fuel fuel' r repl rest
          end
      end
  end.

Definition replace_all (r : regex) (repl : string) (s : string) : string :=
  replace_all_fuel (S (length s)) r repl s.

(** The successive results of [r.exec(s)] for a pattern with the [g] flag,
    until it answers [null]: each search resumes at [lastIndex], the end of
    the last match.  A pattern that matched the empty string would leave
    [lastIndex] in place and the source's [while] would not end; the list
    is cut at [fuel] matches, more than a pattern that reads at least one
    character can find. *)
Fixpoint exec_all_fuel (fuel : nat) (r : regex) (s : string) : list Match :=
  match fuel with
  | O => []
  | S fuel' =>
      match search r s with
      | None => []
      | Some m => m :: exec_all_fuel fuel' r (after m)
      end
  end.

Definition exec_all (r : regex) (s : string) : list Match :=
  exec_all_fuel (S (length s)) r s.

End Regex.

(** ** Service A: [src/chess-com.ts] *)

Module ChessCom.
Import JS Regex.

Record Player := {
  username : string;
  rating : Z;
  result : string
}.

Record ChessComGame := {
  url : string;
  pgn : string;
  end_time : Z;
  time_control : string;
  time_class : string;
  rated : bool;
  rules : string;
  white : Player;
  black : Player;
  initial_setup : option string
}.

Record ClockInfo := {
  time : string;
  moveText : string;
  moveNumber : Z;
  isWhite : bool;
  timeSpent : option string
}.

(** [match[i]] inside a template literal. *)
Definition group_text (i : nat) (m : Match) : string :=
  match group i m with Some s => s | None => "undefined" end.

(** [/\[%clk\s+(\d+):(\d+):(\d+(?:\.\d+)?)\]/] *)
Definition clk_pattern : regex :=
  Seq (Word "[%clk")
 (Seq (Plus space)
 (Seq (Group 1 (Plus digit))
 (Seq (Lit ":")
 (Seq (Group 2 (Plus digit))
 (Seq (Lit ":")
 (Seq (Group 3 (Seq (Plus digit) (Opt (Seq (Lit ".") (Plus digit)))))
      (Lit "]"))))))).

Definition parseClockComment (comment : string) : option string :=
  match search clk_pattern comment with
  | Some m =>
      let hours := group_text 1 m in
      let minutes := group_text 2 m in
      let seconds := group_text 3 m in
      Some (hours ++ ":" ++ minutes ++ ":"
            ++ toString (floor_parseFloat seconds))
  | None => None
  end.

(** [const [a, b, c] = s.split(':').map(Number)]: a missing element is
    [undefined], which the arithmetic below turns into [NaN]. *)
Definition numbers_of (sep : ascii) (s : string) : list number :=
  map Number (split sep s).

Definition element (i : nat) (l : list number) : number := nth i l NaN.

Definition calculateTimeSpent (currentTime previousTime : string)
  : option string :=
  let cur := numbers_of ":" currentTime in
  let prev := numbers_of ":" previousTime in
  let currentTotal :=
    add (add (mul (element 0 cur) (Int 3600)) (mul (element 1 cur) (Int 60)))
        (element 2 cur) in
  let previousTotal :=
    add (add (mul (element 0 prev) (Int 3600)) (mul (element 1 prev) (Int 60)))
        (element 2 prev) in
  let timeSpent := sub previousTotal currentTotal in
  if gt timeSpent (Int 0) then Some (toString timeSpent) else None.

(** [/\[.*?\]\s*\n/g] *)
Definition header_pattern : regex :=
  Seq (Lit "[")
 (Seq (Star false dot)
 (Seq (Lit "]")
 (Seq (Star true space) (Lit "010")))).

(** [/(\d+\.(?:\.\.)?\s*\S+(?:\s*\{[^}]*\})?)/g] *)
Definition movePattern : regex :=
  Group 1
   (Seq (Plus digit)
   (Seq (Lit ".")
   (Seq (Opt (Word ".."))
   (Seq (Star true space)
   (Seq (Plus nonspace)
        (Opt (Seq (Star true space)
             (Seq (Lit "{")
             (Seq (Star true (Not "}")) (Lit "}")))))))))).

(** The pattern [/\{( [^}]* )\}/] (written here with blanks around the
    group's content). *)
Definition clockPattern : regex :=
  Seq (Lit "{") (Seq (Group 1 (Star true (Not "}"))) (Lit "}")).

(** [/^\d+\.\.?\.?\s*/], tried at the first character only. *)
Definition number_prefix : regex :=
  Seq (Plus digit)
 (Seq (Lit ".")
 (Seq (Opt (Lit "."))
 (Seq (Opt (Lit ".")) (Star true space)))).

(** The variables of the loop of [formatPGN]. *)
Record State := {
  formattedMoves : list string;
  clocks : list ClockInfo;
  currentMoveNumber : Z;
  isWhiteMove : bool;
  previousWhiteTime : option string;
  previousBlackTime : option string
}.

Definition initial : State :=
  {| formattedMoves := []; clocks := []; currentMoveNumber := 1;
     isWhiteMove := true;
     previousWhiteTime := None; previousBlackTime := None |}.

(** A [string | null] variable used as a condition. *)
Definition is_set (x : option string) : bool :=
  match x with Some s => truthy s | None => false end.

Definition value (x : option string) : string :=
  match x with Some s => s | None => EmptyString end.

(** One turn of the [while] loop, for the ply token [moveText]. *)
Definition step (st : State) (moveText : string) : State :=
  match search clockPattern moveText with
  | Some clockMatch =>
      let clockComment := group_text 1 clockMatch in
      let clock := parseClockComment clockComment in
      if is_set clock then
        let clock := value clock in
        let cleanMove := trim (replace clockPattern "" moveText) in
        let timeSpent :=
          if isWhiteMove st && is_set (previousWhiteTime st) then
            calculateTimeSpent clock (value (previousWhiteTime st))
          else if negb (isWhiteMove st) && is_set (previousBlackTime st) then
            calculateTimeSpent clock (value (previousBlackTime st))
          else None in
        let info :=
          {| time := clock;
             moveText := replace_here number_prefix "" cleanMove;
             moveNumber := currentMoveNumber st;
             isWhite := isWhiteMove st;
             timeSpent := timeSpent |} in
        {| formattedMoves := formattedMoves st ++ [cleanMove];
           clocks := clocks st ++ [info];
           currentMoveNumber :=
             if isWhiteMove st then currentMoveNumber st
             else currentMoveNumber st + 1;
           isWhiteMove := negb (isWhiteMove st);
           previousWhiteTime :=
             if isWhiteMove st then Some clock else previousWhiteTime st;
           previousBlackTime :=
             if isWhiteMove st then previousBlackTime st else Some clock |}
      else st
  | None =>
      {| formattedMoves := formattedMoves st ++ [moveText];
         clocks := clocks st;
         currentMoveNumber :=
           if isWhiteMove st then currentMoveNumber st
           else currentMoveNumber st + 1;
         isWhiteMove := negb (isWhiteMove st);
         previousWhiteTime := previousWhiteTime st;
         previousBlackTime := previousBlackTime st |}
  end.

(** The header lines removed and the rest trimmed. *)
Definition move_section (pgn : string) : string :=
  trim (replace_all header_pattern "" pgn).

(** The ply tokens, [match[1]] of each result of [movePattern.exec]. *)
Definition ply_tokens (moves : string) : list string :=
  map (group_text 1) (exec_all movePattern moves).

Definition run (tokens : list string) : State :=
  fold_left step tokens initial.

Record Formatted := {
  text : string;
  clocks_of : list ClockInfo
}.

Definition finish (st : State) : Formatted :=
  {| text := join " " (formattedMoves st); clocks_of := clocks st |}.

Definition formatPGN (pgn : string) : Formatted :=
  finish (run (ply_tokens (move_section pgn))).

Definition parseTimeControl (timeControl : string) : string :=
  if String.eqb timeControl "1/86400" then "1 day"
  else if String.eqb timeControl "1/259200" then "3 days"
  else if String.eqb timeControl "1/432000" then "5 days"
  else if String.eqb timeControl "1/604800" then "7 days"
  else if String.eqb timeControl "1/1209600" then "14 days"
  else
    let parts := numbers_of "+" timeControl in
    let baseTime := element 0 parts in
    let increment := element 1 parts in
    if negb (isNaN baseTime) then
      let minutes := floor_div baseTime 60 in
      let seconds := rem baseTime 60 in
      let timeStr :=
        if gt minutes (Int 0) then
          toString minutes ++
          (if gt seconds (Int 0)
           then ":" ++ padStart2 (toString seconds) else "")
        else toString seconds ++ "s" in
      timeStr ++ "+" ++
        (if negb (isNaN increment) then toString increment else "0")
    else "-".

(** *** The adapter *)

Module Normalized.
Inductive Outcome := win | loss | draw.

Record NormalizedGame := {
  id : string;
  date : Z;
  whitePlayer : string;
  blackPlayer : string;
  result : Outcome;
  rating : Z;
  gameType : string;
  timeControl : string;
  pgn : string;
  clocks : list ClockInfo;
  expanded : bool
}.
End Normalized.
Import Normalized.

(** A decoded response body, with the two fields the adapter reads:
    [archives] when it is an array, [games] when it is set.  A [null] body
    has neither. *)
Record Body := {
  archives : option (list string);
  games : option (list ChessComGame)
}.

Record Response := {
  ok : bool;
  json : completion Body
}.

(** Time stamps in seconds may be fractional ([getTime() / 1000]) or
    [Infinity]; the model keeps every time stamp in milliseconds. *)
Inductive instant :=
| Millis (ms : Z)
| Forever
| Invalid.

(** [n / 1000] for a time value [n] *)
Definition of_time_value (n : number) : instant :=
  match n with Int ms => Millis ms | NaN => Invalid end.

(** [a <= b] *)
Definition leq (a b : instant) : bool :=
  match a, b with
  | Millis x, Millis y => x <=? y
  | Millis _, Forever => true
  | Forever, Forever => true
  | _, _ => false
  end.

Definition standard_position : string :=
  "rnbqkbnr/pppppppp/8/8/8/8/PPPPPPPP/RNBQKBNR w KQkq - 0 1".

(** [l.slice(-2)] *)
Definition last2 {A} (l : list A) : list A :=
  skipn (List.length l - 2) l.

Section Adapter.
(** The environment: the network, and the host's calendar. *)
Variable fetch : string -> completion Response.
(** [new Date(s).getTime()] *)
Variable Date_getTime : string -> number.
(** [new Date(year, monthIndex, day).getTime()], in the host's zone *)
Variable Date_local : number -> number -> number -> number.

Definition overlaps (startTimestamp endTimestamp : instant)
    (archiveUrl : string) : bool :=
  let parts := last2 (split "/" archiveUrl) in
  let year := nth_error parts 0 in
  let month := nth_error parts 1 in
  let parseInt' x :=
    match x with Some t => parseInt t | None => NaN end in
  let archiveStartDate :=
    Date_local (parseInt' year) (sub (parseInt' month) (Int 1)) (Int 1) in
  let archiveEndDate :=
    Date_local (parseInt' year) (parseInt' month) (Int 0) in
  let archiveStartTimestamp := of_time_value archiveStartDate in
  let archiveEndTimestamp := of_time_value archiveEndDate in
  (leq archiveStartTimestamp endTimestamp
     && leq startTimestamp archiveEndTimestamp)
  || (leq startTimestamp archiveStartTimestamp
     && leq archiveStartTimestamp endTimestamp)
  || (leq startTimestamp archiveEndTimestamp
     && leq archiveEndTimestamp endTimestamp).

(** The body of the [for] loop: a failure of any kind skips the archive. *)
Definition games_of_archive (archiveUrl : string) : list ChessComGame :=
  match fetch archiveUrl with
  | Throw _ => []
  | Return gamesResponse =>
      if negb (ok gamesResponse) then []
      else match json gamesResponse with
           | Throw _ => []
           | Return gamesData =>
               match games gamesData with
               | Some gs => gs
               | None => []
               end
           end
  end.

Definition in_window (startTimestamp endTimestamp : instant)
    (game : ChessComGame) : bool :=
  if end_time game =? 0 then false
  else
    let gameTimestamp := Millis (end_time game * 1000) in
    leq startTimestamp gameTimestamp && leq gameTimestamp endTimestamp.

Definition of_type (gameType : string) (game : ChessComGame) : bool :=
  if String.eqb gameType "all" then
    String.eqb (time_class game) "blitz"
    || String.eqb (time_class game) "rapid"
  else String.eqb (time_class game) gameType.

Definition standard_rules (game : ChessComGame) : bool :=
  negb (truthy (rules game)) || String.eqb (rules game) "chess".

Definition standard_start (game : ChessComGame) : bool :=
  negb (is_set (initial_setup game))
  || String.eqb (value (initial_setup game)) standard_position.

Definition human_opponent (username : string) (game : ChessComGame) : bool :=
  let opponent :=
    if String.eqb (toLowerCase (ChessCom.username (white game)))
                  (toLowerCase username)
    then toLowerCase (ChessCom.username (black game))
    else toLowerCase (ChessCom.username (white game)) in
  negb (includes opponent "bot") && negb (includes opponent "computer").

(** The callback of [.map]. *)
Definition normalize (username : string) (game : ChessComGame)
  : completion NormalizedGame :=
  let isWhite :=
    String.eqb (toLowerCase (ChessCom.username (white game)))
               (toLowerCase username) in
  let playerRating :=
    if isWhite then ChessCom.rating (white game)
    else ChessCom.rating (black game) in
  let result :=
    if String.eqb (ChessCom.result (white game)) "win" then
      if isWhite then win else loss
    else if String.eqb (ChessCom.result (black game)) "win" then
      if isWhite then loss else win
    else draw in
  let formatted := formatPGN (ChessCom.pgn game) in
  date <- toISOString (end_time game * 1000) ;;
  Return
    {| id := url game;
       date := date;
       whitePlayer := ChessCom.username (white game);
       blackPlayer := ChessCom.username (black game);
       Normalized.result := result;
       Normalized.rating := playerRating;
       gameType :=
         time_class game ++ (if rated game then " rated" else " casual");
       timeControl := parseTimeControl (time_control game);
       Normalized.pgn := text formatted;
       Normalized.clocks := clocks_of formatted;
       expanded := false |}.

(** The five filters, in the order of the source. *)
Definition qualifying (username gameType : string)
    (startTimestamp endTimestamp : instant)
    (allGames : list ChessComGame) : list ChessComGame :=
  filter (human_opponent username)
    (filter standard_start
      (filter standard_rules
        (filter (of_type gameType)
          (filter (in_window startTimestamp endTimestamp) allGames)))).

(** [startDate ? new Date(startDate).getTime() / 1000 : 0] *)
Definition startTimestamp_of (startDate : option string) : instant :=
  if is_set startDate then of_time_value (Date_getTime (value startDate))
  else Millis 0.

(** [endDate ? new Date(endDate).getTime() / 1000 : Infinity] *)
Definition endTimestamp_of (endDate : option string) : instant :=
  if is_set endDate then of_time_value (Date_getTime (value endDate))
  else Forever.

Definition archives_url (username : string) : string :=
  "https://api.chess.com/pub/player/" ++ username ++ "/games/archives".

(** The games of the archives that overlap the window, the latest
    archive first. *)
Definition allGames_of (startTimestamp endTimestamp : instant)
    (archive_urls : list string) : list ChessComGame :=
  let relevantArchives :=
    List.rev (filter (overlaps startTimestamp endTimestamp) archive_urls) in
  flat_map games_of_archive relevantArchives.

(** The statements of the [try] block. *)
Definition attempt (username : string) (startDate endDate : option string)
    (gameType : string) : completion (list NormalizedGame) :=
  let startTimestamp := startTimestamp_of startDate in
  let endTimestamp := endTimestamp_of endDate in
  response <- fetch (archives_url username) ;;
  if negb (ok response) then Throw (new_Error "No games found")
  else
    data <- json response ;;
    match archives data with
    | None => Throw (new_Error "No games found")
    | Some archive_urls =>
        let allGames :=
          allGames_of startTimestamp endTimestamp archive_urls in
        mapped <- traverse (normalize username)
                    (qualifying username gameType
                       startTimestamp endTimestamp allGames) ;;
        let filteredGames := sort_desc date mapped in
        if (List.length filteredGames =? 0)%nat
        then Throw (new_Error "No games found")
        else Return filteredGames
    end.

(** The [catch] block. *)
Definition handler (error : thrown) : completion (list NormalizedGame) :=
  if instanceof_Error error then Throw error
  else Throw (new_Error "No games found").

Definition fetchChessComGames (username : string)
    (startDate endDate : option string) (gameType : string)
  : completion (list NormalizedGame) :=
  try_catch (attempt username startDate endDate gameType) handler.
End Adapter.


End ChessCom.

(** ** Service B: [src/lichess.ts] *)

Module Lichess.
Import JS.

Record User := { name : string }.

Record Side := {
  user : User;
  rating : Z;
  aiLevel : option Z
}.

Record Players := {
  white : Side;
  black : Side
}.

Record Clock := {
  initial : Z;
  increment : Z
}.

Inductive Color := White | Black.

Record LichessGame := {
  id : string;
  createdAt : Z;
  moves : string;
  clocks : option (list Z);
  clock : option Clock;
  players : Players;
  winner : option Color;
  speed : string;
  rated : bool;
  initialFen : option string
}.

(** A move object has the keys [clockWhite] and [timeSpentWhite], or
    the keys [clockBlack] and [timeSpentBlack], by the parity of the ply. *)
Inductive LichessMove :=
| WhiteMove (move : string) (moveNumber : Z)
            (clockWhite timeSpentWhite : option string)
| BlackMove (move : string) (moveNumber : Z)
            (clockBlack timeSpentBlack : option string).

Definition move (m : LichessMove) : string :=
  match m with WhiteMove mv _ _ _ | BlackMove mv _ _ _ => mv end.

Definition moveNumber (m : LichessMove) : Z :=
  match m with WhiteMove _ n _ _ | BlackMove _ n _ _ => n end.

Definition clockWhite (m : LichessMove) : option string :=
  match m with WhiteMove _ _ c _ => c | BlackMove _ _ _ _ => None end.

Definition clockBlack (m : LichessMove) : option string :=
  match m with BlackMove _ _ c _ => c | WhiteMove _ _ _ _ => None end.

Definition timeSpentWhite (m : LichessMove) : option string :=
  match m with WhiteMove _ _ _ t => t | BlackMove _ _ _ _ => None end.

Definition timeSpentBlack (m : LichessMove) : option string :=
  match m with BlackMove _ _ _ t => t | WhiteMove _ _ _ _ => None end.

Definition formatClockTime (centiseconds : Z) : string :=
  let totalSeconds := centiseconds / 100 in
  let minutes := totalSeconds / 60 in
  let seconds := Z.rem totalSeconds 60 in
  Z_toString minutes ++ ":" ++ padStart2 (Z_toString seconds).

Definition is_set (x : option string) : bool :=
  match x with Some s => truthy s | None => false end.

Definition value (x : option string) : string :=
  match x with Some s => s | None => EmptyString end.

Definition element (i : nat) (l : list number) : number := nth i l NaN.

Definition calculateTimeSpent (currentClock previousClock : option string)
    (increment : Z) : option string :=
  if negb (is_set currentClock) || negb (is_set previousClock) then None
  else
    let cur := map Number (split ":" (value currentClock)) in
    let prev := map Number (split ":" (value previousClock)) in
    let currentTotal := add (mul (element 0 cur) (Int 60)) (element 1 cur) in
    let previousTotal :=
      add (mul (element 0 prev) (Int 60)) (element 1 prev) in
    let timeSpent := add (sub previousTotal currentTotal) (Int increment) in
    if le timeSpent (Int 0) then None
    else Some (toString timeSpent ++ "s").

(** [game.clock?.increment || 0] *)
Definition increment_of (game : LichessGame) : Z :=
  match clock game with Some c => increment c | None => 0 end.

(** [game.clocks && i < game.clocks.length
      ? formatClockTime(game.clocks[i]) : undefined] *)
Definition clock_at (game : LichessGame) (i : nat) : option string :=
  match clocks game with
  | Some cs =>
      if (i <? List.length cs)%nat
      then option_map formatClockTime (nth_error cs i)
      else None
  | None => None
  end.

(** The [for] loop from index [i] on, over the remaining elements of
    [movesArray]. *)
Fixpoint loop (game : LichessGame) (i : nat) (movesArray : list string)
    (previousWhiteClock previousBlackClock : option string)
    : list LichessMove :=
  match movesArray with
  | [] => []
  | mv :: rest =>
      if truthy (trim mv) then
        let isWhiteMove := (Z.of_nat i mod 2 =? 0) in
        let currentClock := clock_at game i in
        let moveNo := Z.of_nat i / 2 + 1 in
        let moveObj :=
          if isWhiteMove then
            WhiteMove mv moveNo currentClock
              (calculateTimeSpent currentClock previousWhiteClock
                 (increment_of game))
          else
            BlackMove mv moveNo currentClock
              (calculateTimeSpent currentClock previousBlackClock
                 (increment_of game)) in
        moveObj ::
          loop game (S i) rest
            (if isWhiteMove then currentClock else previousWhiteClock)
            (if isWhiteMove then previousBlackClock else currentClock)
      else
        loop game (S i) rest previousWhiteClock previousBlackClock
  end.

Definition moves_of (game : LichessGame) : list LichessMove :=
  loop game 0 (split " " (moves game)) None None.

(** *** The adapter *)

Module Normalized.
Inductive Outcome := win | loss | draw.

Record NormalizedGame := {
  id : string;
  date : Z;
  whitePlayer : string;
  blackPlayer : string;
  result : Outcome;
  rating : Z;
  gameType : string;
  timeControl : string;
  moves : list LichessMove;
  expanded : bool
}.
End Normalized.
Import Normalized.

Record Response := {
  ok : bool;
  text : completion string
}.

Definition standard_position : string :=
  "rnbqkbnr/pppppppp/8/8/8/8/PPPPPPPP/RNBQKBNR w KQkq - 0 1".

Section Adapter.
(** The environment: the network, the JSON decoder, the clock. *)
Variable fetch : string -> completion Response.
Variable JSON_parse : string -> completion LichessGame.
(** [new Date(s).getTime()] *)
Variable Date_getTime : string -> number.
(** [Date.now()] *)
Variable Date_now : Z.
(** The text of [initial / 60], a double. *)
Variable minutes_text : Z -> string.

Definition standard_start (game : LichessGame) : bool :=
  negb (is_set (initialFen game))
  || String.eqb (value (initialFen game)) standard_position.

Definition human_opponent (username : string) (game : LichessGame) : bool :=
  match aiLevel (white (players game)), aiLevel (black (players game)) with
  | None, None =>
      let opponent :=
        if String.eqb (toLowerCase (name (user (white (players game)))))
                      (toLowerCase username)
        then toLowerCase (name (user (black (players game))))
        else toLowerCase (name (user (white (players game)))) in
      if includes opponent "bot" || includes opponent "stockfish"
         || includes opponent "engine"
      then false else true
  | _, _ => false
  end.

(** The callback of [.map]. *)
Definition normalize (game : LichessGame) : completion NormalizedGame :=
  let moves := moves_of game in
  date <- toISOString (createdAt game) ;;
  Return
    {| Normalized.id := Lichess.id game;
       date := date;
       whitePlayer := name (user (white (players game)));
       blackPlayer := name (user (black (players game)));
       result :=
         match winner game with
         | Some w => match w with White => win | Black => loss end
         | None => draw
         end;
       Normalized.rating := Lichess.rating (white (players game));
       gameType := speed game ++ (if rated game then " rated" else " casual");
       timeControl :=
         match clock game with
         | Some c =>
             minutes_text (initial c) ++ "+" ++ Z_toString (increment c)
         | None => "-"
         end;
       Normalized.moves := moves;
       expanded := false |}.

Definition qualifying (username : string) (games : list LichessGame)
  : list LichessGame :=
  filter (human_opponent username) (filter standard_start games).

(** The address of the one request. *)
Definition games_url (username gameType : string)
    (startDate endDate : option string) : string :=
  let startTimestamp :=
    if is_set startDate then Date_getTime (value startDate) else Int 0 in
  let endTimestamp :=
    if is_set endDate then Date_getTime (value endDate)
    else Int Date_now in
  let perfTypes :=
    if String.eqb gameType "all" then "&perfType=blitz,rapid,classical"
    else if String.eqb gameType "blitz" then "&perfType=blitz"
    else if String.eqb gameType "rapid" then "&perfType=rapid"
    else if String.eqb gameType "classical" then "&perfType=classical"
    else "" in
  let dateParams :=
    "&since=" ++ toString startTimestamp
    ++ "&until=" ++ toString endTimestamp in
  "https://lichess.org/api/games/user/" ++ username
    ++ "?tags=true&clocks=true" ++ perfTypes ++ dateParams.

(** The statements of the [try] block. *)
Definition attempt (username gameType : string)
    (startDate endDate : option string)
  : completion (list NormalizedGame) :=
  response <- fetch (games_url username gameType startDate endDate) ;;
  if negb (ok response) then Throw (new_Error "No games found")
  else
    text <- text response ;;
    if negb (truthy (trim text)) then Throw (new_Error "No games found")
    else
      games <- traverse JSON_parse (split "010" (trim text)) ;;
      mapped <- traverse normalize (qualifying username games) ;;
      let filteredGames := sort_desc date mapped in
      if (List.length filteredGames =? 0)%nat
      then Throw (new_Error "No games found")
      else Return filteredGames.

(** The [catch] block. *)
Definition handler (error : thrown) : completion (list NormalizedGame) :=
  if instanceof_Error error then Throw error
  else Throw (new_Error "No games found").

Definition fetchLichessGames (username gameType : string)
    (startDate endDate : option string)
  : completion (list NormalizedGame) :=
  try_catch (attempt username gameType startDate endDate) handler.
End Adapter.


End Lichess.

(** ** Vocabulary of the statements *)

Module Vocabulary.
Import JS.

(** A time control [base] or [base+increment]. *)
Definition with_increment (base : string) (inc : option string) : string :=
  match inc with
  | None => base
  | Some i => base ++ "+" ++ i
  end.

(** The increment as it is shown: 0 when it is absent or not a number. *)
Definition increment_shown (inc : option string) : string :=
  match inc with
  | None => "0"
  | Some i =>
      match Number i with
      | Int k => Z_toString k
      | NaN => "0"
      end
  end.

Definition is_day_code (tc : string) : bool :=
  String.eqb tc "1/86400" || String.eqb tc "1/259200"
  || String.eqb tc "1/432000" || String.eqb tc "1/604800"
  || String.eqb tc "1/1209600".

(** The texts on which [Number] answers as JavaScript does.  A run of
    digits worth at most [MAX_SAFE_INTEGER] is that integer; an ASCII text
    with a character that no numeric literal holds is no number. *)
Definition safe_digits (s : string) : bool :=
  match digits_value s with
  | Some v => v <=? MAX_SAFE_INTEGER
  | None => false
  end.

Definition foreign_text (s : string) : bool :=
  negb (all (fun c => numeric_char c || (128 <=? nat_of_ascii c)%nat) s).

(** An increment as the formatter may meet it behind the [+]: nothing, a
    run of digits, or a text that is no number. *)
Definition plain_increment (i : string) : bool :=
  all (is_not "+") i
  && (negb (truthy i) || safe_digits i || foreign_text i).

(** What the [catch] block of either adapter hands to the caller. *)
Definition surfaced (e : thrown) : thrown :=
  if instanceof_Error e then e else new_Error "No games found".

(** The seconds a service-A clock [h:m:s] stands for. *)
Definition clock_seconds (clock : string) : number :=
  let parts := ChessCom.numbers_of ":" clock in
  add (add (mul (ChessCom.element 0 parts) (Int 3600))
           (mul (ChessCom.element 1 parts) (Int 60)))
      (ChessCom.element 2 parts).

(** The seconds the text of a service-B reading stands for: minutes
    times 60 plus the seconds field. *)
Definition reading_seconds (centiseconds : Z) : Z :=
  (centiseconds / 100 / 60) * 60 + Z.rem (centiseconds / 100) 60.

(** The tokens of [l] that are not blank. *)
Definition nonblank (l : list string) : list string :=
  filter (fun t => truthy (trim t)) l.

(** A ply token that the loop of [formatPGN] records: it has no brace
    annotation, or its annotation holds a clock. *)
Definition recorded (token : string) : bool :=
  match Regex.search ChessCom.clockPattern token with
  | None => true
  | Some m =>
      ChessCom.is_set (ChessCom.parseClockComment (ChessCom.group_text 1 m))
  end.

(** The think time of a service-A record is absent or the text of a positive
    integer. *)
Definition positive_time (c : ChessCom.ClockInfo) : Prop :=
  forall t, ChessCom.timeSpent c = Some t ->
            exists n, 0 < n /\ t = Z_toString n /\ Number t = Int n.

(** A service-B clock text is absent or the text of a reading. *)
Definition formatted (x : option string) : Prop :=
  x = None \/ exists c, x = Some (Lichess.formatClockTime c).

(** The think time of a service-B move is absent or the text of a positive
    integer followed by [s]. *)
Definition positive_move (m : Lichess.LichessMove) : Prop :=
  forall t, Lichess.timeSpentWhite m = Some t
            \/ Lichess.timeSpentBlack m = Some t ->
            exists n, 0 < n /\ t = Z_toString n ++ "s" /\ parseInt t = Int n.

(** The move object of service B for the ply [mv] at index [i]. *)
Definition move_object (i : nat) (mv : string) (clock spent : option string)
  : Lichess.LichessMove :=
  if Z.of_nat i mod 2 =? 0
  then Lichess.WhiteMove mv (Z.of_nat i / 2 + 1) clock spent
  else Lichess.BlackMove mv (Z.of_nat i / 2 + 1) clock spent.
End Vocabulary.

(** ** Sample games and environments *)

Module Samples.
Import JS.

(** *** Service B *)

Definition side (who : string) (elo : Z) : Lichess.Side :=
  {| Lichess.user := {| Lichess.name := who |};
     Lichess.rating := elo;
     Lichess.aiLevel := None |}.

(** alice (white, 1500) beats bob (black, 1400). *)
Definition alice_beats_bob : Lichess.LichessGame :=
  {| Lichess.id := "q7ZvsdUF";
     Lichess.createdAt := 1700000000000;
     Lichess.moves := "e4 e5 Nf3";
     Lichess.clocks := Some [18000; 18000; 17500];
     Lichess.clock := Some {| Lichess.initial := 180; Lichess.increment := 0 |};
     Lichess.players :=
       {| Lichess.white := side "alice" 1500;
          Lichess.black := side "bob" 1400 |};
     Lichess.winner := Some Lichess.White;
     Lichess.speed := "blitz";
     Lichess.rated := true;
     Lichess.initialFen := None |}.

(** The same game with one clock reading for three plies. *)
Definition short_clock_array : Lichess.LichessGame :=
  {| Lichess.id := "q7ZvsdUF";
     Lichess.createdAt := 1700000000000;
     Lichess.moves := "e4 e5 Nf3";
     Lichess.clocks := Some [18000];
     Lichess.clock := Some {| Lichess.initial := 180; Lichess.increment := 0 |};
     Lichess.players :=
       {| Lichess.white := side "alice" 1500;
          Lichess.black := side "bob" 1400 |};
     Lichess.winner := Some Lichess.White;
     Lichess.speed := "blitz";
     Lichess.rated := true;
     Lichess.initialFen := None |}.

(** A game against an account whose name holds [bot]. *)
Definition alice_against_bot : Lichess.LichessGame :=
  {| Lichess.id := "Xk3pLm9a";
     Lichess.createdAt := 1700000100000;
     Lichess.moves := "d4 d5";
     Lichess.clocks := None;
     Lichess.clock := None;
     Lichess.players :=
       {| Lichess.white := side "alice" 1500;
          Lichess.black := side "SuperBot2000" 2000 |};
     Lichess.winner := None;
     Lichess.speed := "blitz";
     Lichess.rated := false;
     Lichess.initialFen := None |}.

(** A successful response of one line. *)
Definition one_line (_ : string) : completion Lichess.Response :=
  Return {| Lichess.ok := true; Lichess.text := Return "{...}" |}.

Definition decodes_to (game : Lichess.LichessGame) (_ : string)
  : completion Lichess.LichessGame := Return game.

(** [JSON.parse] on a line that is no JSON. *)
Definition syntax_error : thrown :=
  ErrorObject "SyntaxError" "Unexpected token < in JSON at position 0".

Definition malformed (_ : string) : completion Lichess.LichessGame :=
  Throw syntax_error.

(** [fetch] when the network is down. *)
Definition network_error : thrown := ErrorObject "TypeError" "Failed to fetch".

Definition no_date (_ : string) : number := NaN.

Definition minutes_text (initial : Z) : string := Z_toString (initial / 60).

(** The adapter of service B in the sample environments. *)
Definition lichess_for (game : Lichess.LichessGame) (username : string)
  : completion (list Lichess.Normalized.NormalizedGame) :=
  Lichess.fetchLichessGames one_line (decodes_to game) no_date 1700000200000
    minutes_text username "all" None None.

Definition lichess_malformed (username : string)
  : completion (list Lichess.Normalized.NormalizedGame) :=
  Lichess.fetchLichessGames one_line malformed no_date 1700000200000
    minutes_text username "all" None None.

(** *** Service A *)

Definition player (who : string) (elo : Z) (res : string) : ChessCom.Player :=
  {| ChessCom.username := who; ChessCom.rating := elo;
     ChessCom.result := res |}.

(** A blitz game of chess960 between alice and bob. *)
Definition variant_game : ChessCom.ChessComGame :=
  {| ChessCom.url := "https://www.chess.com/game/live/1234567";
     ChessCom.pgn := "1. e4 {[%clk 0:03:00]} 1... e5 {[%clk 0:02:59.1]}";
     ChessCom.end_time := 1700000000;
     ChessCom.time_control := "180";
     ChessCom.time_class := "blitz";
     ChessCom.rated := true;
     ChessCom.rules := "chess960";
     ChessCom.white := player "alice" 1500 "win";
     ChessCom.black := player "bob" 1400 "checkmated";
     ChessCom.initial_setup := None |}.

Definition month_url : string :=
  "https://api.chess.com/pub/player/alice/games/2023/11".

(** The archive index lists one month, which holds [games]. *)
Definition serves (games : list ChessCom.ChessComGame) (address : string)
  : completion ChessCom.Response :=
  if String.eqb address month_url then
    Return {| ChessCom.ok := true;
              ChessCom.json :=
                Return {| ChessCom.archives := None;
                          ChessCom.games := Some games |} |}
  else
    Return {| ChessCom.ok := true;
              ChessCom.json :=
                Return {| ChessCom.archives := Some [month_url];
                          ChessCom.games := None |} |}.

Definition unreachable (_ : string) : completion ChessCom.Response :=
  Throw network_error.

(** Every month starts and ends on the first of November 2023. *)
Definition calendar (_ _ _ : number) : number := Int 1698796800000.

Definition chesscom_for (games : list ChessCom.ChessComGame)
    (username : string)
  : completion (list ChessCom.Normalized.NormalizedGame) :=
  ChessCom.fetchChessComGames (serves games) no_date calendar
    username None None "all".

Definition chesscom_unreachable (username : string)
  : completion (list ChessCom.Normalized.NormalizedGame) :=
  ChessCom.fetchChessComGames unreachable no_date calendar
    username None None "all".
End Samples.

(** ** The table of long thinks: [src/components/ChessNapTracker.tsx]

    The pure part of the component: the two formatting helpers and the
    expression that turns the fetched games into the rows of the table. *)

Module Tracker.
Import JS.

Inductive Platform := chess_com | lichess_org.

Inductive SortType := by_time | by_date.

(** A fetched game has the key [clocks] when it comes from service A and
    the key [moves] when it comes from service B. *)
Inductive Game :=
| FromChessCom (g : ChessCom.Normalized.NormalizedGame)
| FromLichess (g : Lichess.Normalized.NormalizedGame).

Definition formatTimeSpent (seconds : string) : string :=
  match parseInt seconds with
  | NaN => seconds
  | Int totalSeconds =>
      if totalSeconds <? 60 then Z_toString totalSeconds ++ "s"
      else
        let hours := totalSeconds / 3600 in
        let minutes := Z.rem totalSeconds 3600 / 60 in
        let remainingSeconds := Z.rem totalSeconds 60 in
        if 0 <? hours then
          Z_toString hours ++ ":" ++ padStart2 (Z_toString minutes) ++ ":"
          ++ padStart2 (Z_toString remainingSeconds)
        else
          Z_toString minutes ++ ":" ++ padStart2 (Z_toString remainingSeconds)
  end.

Definition formatMoveNotation (moveNumber : Z) (move : string)
    (isWhite : bool) : string :=
  if isWhite then Z_toString moveNumber ++ "." ++ move
  else Z_toString moveNumber ++ "..." ++ move.

(** A row of the table. *)
Record Highlight := {
  move : string;
  timeSpent : option string;
  moveNumber : Z;
  isWhite : bool;
  linkMoveNumber : Z;
  date : Z;
  players : string;
  timeControl : string;
  gameId : string
}.

Definition is_set (x : option string) : bool :=
  match x with Some s => truthy s | None => false end.

Definition value (x : option string) : string :=
  match x with Some s => s | None => EmptyString end.

(** [timeSpent && parseInt(timeSpent) >= minTimeFilter] *)
Definition long_enough (minTimeFilter : Z) (h : Highlight) : bool :=
  is_set (timeSpent h)
  && match parseInt (value (timeSpent h)) with
     | Int t => minTimeFilter <=? t
     | NaN => false
     end.

(** [l.filter((_, index) => p(index))], the first element having the
    index [i]. *)
Fixpoint filter_index {A} (p : nat -> bool) (i : nat) (l : list A) : list A :=
  match l with
  | [] => []
  | x :: rest =>
      if p i then x :: filter_index p (S i) rest
      else filter_index p (S i) rest
  end.

(** The rows of a game of service B. *)
Definition lichess_rows (username : string) (minTimeFilter : Z)
    (game : Lichess.Normalized.NormalizedGame) : list Highlight :=
  let isWhite :=
    String.eqb (toLowerCase (Lichess.Normalized.whitePlayer game))
               (toLowerCase username) in
  filter (long_enough minTimeFilter)
    (map (fun m =>
            {| move := Lichess.move m;
               timeSpent :=
                 if isWhite then Lichess.timeSpentWhite m
                 else Lichess.timeSpentBlack m;
               moveNumber := Lichess.moveNumber m;
               isWhite := isWhite;
               linkMoveNumber :=
                 if isWhite then Lichess.moveNumber m * 2 - 1
                 else Lichess.moveNumber m * 2;
               date := Lichess.Normalized.date game;
               players :=
                 Lichess.Normalized.whitePlayer game ++ " vs "
                 ++ Lichess.Normalized.blackPlayer game;
               timeControl := Lichess.Normalized.timeControl game;
               gameId := Lichess.Normalized.id game |})
       (filter_index
          (fun index =>
             if isWhite then (Z.of_nat index mod 2 =? 0)
             else (Z.of_nat index mod 2 =? 1))
          0 (Lichess.Normalized.moves game))).

(** The rows of a game of service A. *)
Definition chesscom_rows (username : string) (minTimeFilter : Z)
    (game : ChessCom.Normalized.NormalizedGame) : list Highlight :=
  let isWhite :=
    String.eqb (toLowerCase (ChessCom.Normalized.whitePlayer game))
               (toLowerCase username) in
  filter (long_enough minTimeFilter)
    (map (fun clock =>
            {| move := ChessCom.moveText clock;
               timeSpent := ChessCom.timeSpent clock;
               moveNumber := ChessCom.moveNumber clock;
               isWhite := isWhite;
               linkMoveNumber :=
                 if isWhite then ChessCom.moveNumber clock * 2 - 1
                 else ChessCom.moveNumber clock * 2;
               date := ChessCom.Normalized.date game;
               players :=
                 ChessCom.Normalized.whitePlayer game ++ " vs "
                 ++ ChessCom.Normalized.blackPlayer game;
               timeControl := ChessCom.Normalized.timeControl game;
               gameId := ChessCom.Normalized.id game |})
       (filter (fun clock => Bool.eqb (ChessCom.isWhite clock) isWhite)
          (ChessCom.Normalized.clocks game))).

(** The callback of [.flatMap]: the service-B branch needs both the
    selected platform and the key [moves]; the other branch only the key
    [clocks]. *)
Definition rows_of (platform : Platform) (username : string)
    (minTimeFilter : Z) (game : Game) : list Highlight :=
  match platform, game with
  | lichess_org, FromLichess g => lichess_rows username minTimeFilter g
  | _, FromChessCom g => chesscom_rows username minTimeFilter g
  | chess_com, FromLichess _ => []
  end.

(** The key the rows are sorted by, largest first.  After the filter every
    think time parses to a number, so the [NaN] case is never met. *)
Definition sort_key (sortBy : SortType) (h : Highlight) : Z :=
  match sortBy with
  | by_time =>
      match parseInt (value (timeSpent h)) with Int t => t | NaN => 0 end
  | by_date => date h
  end.

(** [games.filter(..).flatMap(..).sort(..)]: every game has one of the two
    keys, so the first filter keeps them all. *)
Definition highlights (platform : Platform) (username : string)
    (minTimeFilter : Z) (sortBy : SortType) (games : list Game)
  : list Highlight :=
  sort_desc (sort_key sortBy)
    (flat_map (rows_of platform username minTimeFilter) games).


End Tracker.

(** ** Further vocabulary and samples *)

Module Further.
Import JS.

(** The order of [sort_desc]: the larger key first. *)
Definition newer_first {A} (key : A -> Z) (a b : A) : Prop := key b <= key a.

(** The queried player's opponent in a returned game, in lower case, as
    both adapters compute it for their filter. *)
Definition opponent (username whitePlayer blackPlayer : string) : string :=
  if String.eqb (toLowerCase whitePlayer) (toLowerCase username)
  then toLowerCase blackPlayer
  else toLowerCase whitePlayer.

(** The five filters of service A. *)
Definition passes (Date_getTime : string -> number) (username gameType : string)
    (startDate endDate : option string) (game : ChessCom.ChessComGame) : bool :=
  ChessCom.in_window (ChessCom.startTimestamp_of Date_getTime startDate)
    (ChessCom.endTimestamp_of Date_getTime endDate) game
  && ChessCom.of_type gameType game
  && ChessCom.standard_rules game
  && ChessCom.standard_start game
  && ChessCom.human_opponent username game.

(** [fetch], except that the archive at [address] answers with an empty
    list of games. *)
Definition with_empty_archive (fetch : string -> completion ChessCom.Response)
    (address : string) (a : string) : completion ChessCom.Response :=
  if String.eqb a address then
    Return {| ChessCom.ok := true;
              ChessCom.json :=
                Return {| ChessCom.archives := None;
                          ChessCom.games := Some [] |} |}
  else fetch a.

(** A request for an archive that gives no games: it is rejected, or its
    status is not a success, or its body does not decode. *)
Definition archive_fails (fetch : string -> completion ChessCom.Response)
    (address : string) : Prop :=
  (exists e, fetch address = Throw e)
  \/ (exists r, fetch address = Return r
                /\ (ChessCom.ok r = false
                    \/ exists e, ChessCom.json r = Throw e)).

(** The first and the last day of the month of an archive address, as
    [overlaps] computes them. *)
Definition archive_start (Date_local : number -> number -> number -> number)
    (archiveUrl : string) : ChessCom.instant :=
  let parts := ChessCom.last2 (split "/" archiveUrl) in
  let field i :=
    match nth_error parts i with Some t => parseInt t | None => NaN end in
  ChessCom.of_time_value
    (Date_local (field 0%nat) (sub (field 1%nat) (Int 1)) (Int 1)).

Definition archive_end (Date_local : number -> number -> number -> number)
    (archiveUrl : string) : ChessCom.instant :=
  let parts := ChessCom.last2 (split "/" archiveUrl) in
  let field i :=
    match nth_error parts i with Some t => parseInt t | None => NaN end in
  ChessCom.of_time_value (Date_local (field 0%nat) (field 1%nat) (Int 0)).

(** The seconds a service-B clock text [m:ss] stands for, as
    [calculateTimeSpent] reads it. *)
Definition text_seconds (clock : string) : number :=
  let parts := map Number (split ":" clock) in
  add (mul (Lichess.element 0 parts) (Int 60)) (Lichess.element 1 parts).

(** The number of a ply counted from 1: [2n - 1] for the white ply of
    move [n], [2n] for the black one.  The table uses it as
    [linkMoveNumber]. *)
Definition ply_number (moveNumber : Z) (isWhite : bool) : Z :=
  if isWhite then moveNumber * 2 - 1 else moveNumber * 2.

Definition record_ply (c : ChessCom.ClockInfo) : Z :=
  ply_number (ChessCom.moveNumber c) (ChessCom.isWhite c).

Definition is_white_move (m : Lichess.LichessMove) : bool :=
  match m with
  | Lichess.WhiteMove _ _ _ _ => true
  | Lichess.BlackMove _ _ _ _ => false
  end.

Definition move_ply (m : Lichess.LichessMove) : Z :=
  ply_number (Lichess.moveNumber m) (is_white_move m).

(** The clock of the last record of a colour in [l]. *)
Fixpoint last_time (isWhite : bool) (l : list ChessCom.ClockInfo)
  : option string :=
  match l with
  | [] => None
  | c :: rest =>
      match last_time isWhite rest with
      | Some t => Some t
      | None =>
          if Bool.eqb (ChessCom.isWhite c) isWhite
          then Some (ChessCom.time c) else None
      end
  end.

(** The number of the next ply of the loop of [formatPGN], and what the
    loop keeps true: the records are in the order of play, below the next
    ply. *)
Definition next_ply (st : ChessCom.State) : Z :=
  ply_number (ChessCom.currentMoveNumber st) (ChessCom.isWhiteMove st).

Definition plies_in_order (st : ChessCom.State) : Prop :=
  1 <= ChessCom.currentMoveNumber st
  /\ StronglySorted (fun a b => record_ply a < record_ply b)
       (ChessCom.clocks st)
  /\ Forall (fun c => 1 <= ChessCom.moveNumber c
                      /\ 1 <= record_ply c < next_ply st)
       (ChessCom.clocks st).

Definition move_clock (m : Lichess.LichessMove) : option string :=
  match m with
  | Lichess.WhiteMove _ _ c _ | Lichess.BlackMove _ _ c _ => c
  end.

Definition move_spent (m : Lichess.LichessMove) : option string :=
  match m with
  | Lichess.WhiteMove _ _ _ t | Lichess.BlackMove _ _ _ t => t
  end.

(** The clock of the last move of a colour in [l]: absent when there is no
    such move, and when that move has no clock. *)
Definition last_clock (isWhite : bool) (l : list Lichess.LichessMove)
  : option string :=
  match find (fun m => Bool.eqb (is_white_move m) isWhite) (List.rev l) with
  | Some m => move_clock m
  | None => None
  end.

(** The same inside the loop, whose trackers hold [pw] and [pb] when the
    moves of [l] begin. *)
Definition clock_before (pw pb : option string) (isWhite : bool)
    (l : list Lichess.LichessMove) : option string :=
  match find (fun m => Bool.eqb (is_white_move m) isWhite) (List.rev l) with
  | Some m => move_clock m
  | None => if isWhite then pw else pb
  end.

(** The think time a record of service A should carry after the records
    [before]: against the last clock of its colour, if any. *)
Definition expected_time (before : list ChessCom.ClockInfo)
    (c : ChessCom.ClockInfo) : option string :=
  match last_time (ChessCom.isWhite c) before with
  | Some previous => ChessCom.calculateTimeSpent (ChessCom.time c) previous
  | None => None
  end.

(** What the loop of [formatPGN] keeps true of its two trackers: each holds
    the clock of the last record of its colour, and every record carries the
    think time against the tracker of its colour at its turn. *)
Definition chained (st : ChessCom.State) : Prop :=
  ChessCom.previousWhiteTime st = last_time true (ChessCom.clocks st)
  /\ ChessCom.previousBlackTime st = last_time false (ChessCom.clocks st)
  /\ Forall (fun c => truthy (ChessCom.time c) = true) (ChessCom.clocks st)
  /\ forall j c,
       nth_error (ChessCom.clocks st) j = Some c ->
       ChessCom.timeSpent c = expected_time (firstn j (ChessCom.clocks st)) c.

(** A clock annotation [[%clk h:m:sec]] or [[%clk h:m:sec.frac]]. *)
Definition annotation (ws h m sec frac : string) : string :=
  "[%clk" ++ ws ++ h ++ ":" ++ m ++ ":" ++ sec ++ frac ++ "]".

(** Its fields are runs of digits after some white space; the seconds have
    at most fifteen digits in all, those of the fraction included and the
    dot not counted, which a double tells apart from the next integer. *)
Definition clock_fields (ws h m sec frac : string) : bool :=
  truthy ws && all is_space ws && is_digits h && is_digits m
  && is_digits sec && is_fraction frac
  && (String.length sec + (String.length frac - 1) <=? 15)%nat.

(** The whole seconds it stands for. *)
Definition annotation_seconds (h m sec : string) : option Z :=
  match digits_value h, digits_value m, digits_value sec with
  | Some vh, Some vm, Some v => Some (vh * 3600 + vm * 60 + v)
  | _, _, _ => None
  end.

(** *** Move text as the service writes it *)

(** The note after a move: white space, then a brace comment that holds a
    clock annotation and nothing else.  A note is well formed when the white
    space is not empty and the annotation has the fields of [clock_fields],
    its seconds of at most fifteen digits in all. *)
Record Note := {
  before_brace : string;
  clk_space : string;
  clk_hours : string;
  clk_minutes : string;
  clk_seconds : string;
  clk_fraction : string
}.

Definition note_comment (n : Note) : string :=
  annotation (clk_space n) (clk_hours n) (clk_minutes n) (clk_seconds n)
    (clk_fraction n).

Definition note_text (n : Note) : string :=
  before_brace n ++ "{" ++ note_comment n ++ "}".

Definition note_ok (n : Note) : bool :=
  truthy (before_brace n) && all is_space (before_brace n)
  && clock_fields (clk_space n) (clk_hours n) (clk_minutes n) (clk_seconds n)
       (clk_fraction n).

(** The clock the note stands for: hours and minutes as written, the
    seconds as a whole number. *)
Definition note_clock (n : Note) : string :=
  clk_hours n ++ ":" ++ clk_minutes n ++ ":"
  ++ match digits_value (clk_seconds n) with
     | Some v => Z_toString v
     | None => "NaN"
     end.

(** A ply: its number, one dot or three, optional white space, the move and
    an optional note. *)
Record Ply := {
  number : string;
  black_dots : bool;
  gap : string;
  san : string;
  note : option Note
}.

(** The characters of a move: no white space, no opening brace, no dot. *)
Definition move_char (c : ascii) : bool :=
  negb (is_space c) && negb (Ascii.eqb "{" c) && negb (Ascii.eqb "." c).

Definition dots (p : Ply) : string := if black_dots p then ".." else "".

(** The ply without its note. *)
Definition bare (p : Ply) : string :=
  number p ++ "." ++ dots p ++ gap p ++ san p.

Definition note_part (p : Ply) : string :=
  match note p with Some n => note_text n | None => "" end.

Definition ply_text (p : Ply) : string := bare p ++ note_part p.

Definition ply_ok (p : Ply) : bool :=
  is_digits (number p) && all is_space (gap p)
  && truthy (san p) && all move_char (san p)
  && match note p with Some n => note_ok n | None => true end.

(** What may follow a ply: nothing, or white space and then something other
    than an opening brace. *)
Definition ends_ply (more : string) : bool :=
  stops (fun c => negb (is_space c)) more
  && stops (Ascii.eqb "{") (trimStart more).

(** The plies after the first, each behind its separator, and what follows
    the last one. *)
Fixpoint more_plies (rest : list (string * Ply)) (tail : string) : string :=
  match rest with
  | [] => tail
  | (sep, p) :: rest' => sep ++ ply_text p ++ more_plies rest' tail
  end.

Definition moves_text (first : Ply) (rest : list (string * Ply))
    (tail : string) : string :=
  ply_text first ++ more_plies rest tail.

Definition separated (item : string * Ply) : bool :=
  truthy (fst item) && all is_space (fst item) && ply_ok (snd item).

(** The end of the move text, a result such as [1-0] or nothing: it may
    follow a ply and holds no ply itself. *)
Definition tail_ok (tail : string) : bool :=
  ends_ply tail
  && match Regex.search ChessCom.movePattern tail with
     | None => true
     | Some _ => false
     end.

(** What the records of [formatPGN] should hold for the plies with a note,
    the first ply having the index [j]: clock, move, move number, colour. *)
Fixpoint noted (j : nat) (plies : list Ply)
  : list (string * string * Z * bool) :=
  match plies with
  | [] => []
  | p :: rest =>
      match note p with
      | Some n => [(note_clock n, san p, Z.of_nat j / 2 + 1, Nat.even j)]
      | None => []
      end ++ noted (S j) rest
  end.

Definition facts (c : ChessCom.ClockInfo) : string * string * Z * bool :=
  (ChessCom.time c, ChessCom.moveText c, ChessCom.moveNumber c,
   ChessCom.isWhite c).

(** *** Header lines *)

(** A header line [[content]], white space and a line feed. *)
Definition header_line (h : string * string) : string :=
  "[" ++ fst h ++ "]" ++ snd h ++ String "010" "".

(** The content holds neither a closing bracket nor a line terminator. *)
Definition header_char (c : ascii) : bool :=
  negb (is_newline c) && negb (Ascii.eqb "]" c).

Definition header_ok (h : string * string) : bool :=
  all header_char (fst h) && all is_space (snd h).

Fixpoint with_headers (hs : list (string * string)) (body : string)
  : string :=
  match hs with
  | [] => body
  | h :: hs' => header_line h ++ with_headers hs' body
  end.

(** [s] starts with white space up to a line feed. *)
Fixpoint line_ends (s : string) : bool :=
  match s with
  | EmptyString => false
  | String a s' => Ascii.eqb "010" a || (is_space a && line_ends s')
  end.

(** Somewhere in [s] a closing bracket ends a line. *)
Fixpoint has_header_end (s : string) : bool :=
  match s with
  | EmptyString => false
  | String a s' => (Ascii.eqb "]" a && line_ends s') || has_header_end s'
  end.

(** *** Samples *)

(** bob (white, 1480) loses on time to alice (black, 1510), later than
    [Samples.variant_game]. *)
Definition later_game : ChessCom.ChessComGame :=
  {| ChessCom.url := "https://www.chess.com/game/live/7654321?ref=home";
     ChessCom.pgn :=
       "1. d4 {[%clk 0:05:00]} 1... d5 {[%clk 0:04:58]} 2. c4 {[%clk 0:04:20.5]}";
     ChessCom.end_time := 1700003600;
     ChessCom.time_control := "300";
     ChessCom.time_class := "blitz";
     ChessCom.rated := false;
     ChessCom.rules := "chess";
     ChessCom.white := Samples.player "bob" 1480 "timeout";
     ChessCom.black := Samples.player "alice" 1510 "win";
     ChessCom.initial_setup := None |}.

Definition earlier_game : ChessCom.ChessComGame :=
  {| ChessCom.url := "https://www.chess.com/game/live/1111111";
     ChessCom.pgn := "1. e4 {[%clk 0:10:00]} 1... c5 {[%clk 0:09:55]}";
     ChessCom.end_time := 1700000000;
     ChessCom.time_control := "600";
     ChessCom.time_class := "rapid";
     ChessCom.rated := true;
     ChessCom.rules := "chess";
     ChessCom.white := Samples.player "alice" 1500 "win";
     ChessCom.black := Samples.player "carol" 1450 "resigned";
     ChessCom.initial_setup := None |}.

(** The same against an account whose name holds [Bot]. *)
Definition bot_game : ChessCom.ChessComGame :=
  {| ChessCom.url := "https://www.chess.com/game/live/2222222";
     ChessCom.pgn := "1. e4 {[%clk 0:10:00]}";
     ChessCom.end_time := 1700001000;
     ChessCom.time_control := "600";
     ChessCom.time_class := "rapid";
     ChessCom.rated := true;
     ChessCom.rules := "chess";
     ChessCom.white := Samples.player "alice" 1500 "win";
     ChessCom.black := Samples.player "SuperBot2000" 2000 "resigned";
     ChessCom.initial_setup := None |}.

Definition three_games : list ChessCom.ChessComGame :=
  [earlier_game; bot_game; later_game].

Definition no_response (_ : string) : completion ChessCom.Response :=
  Throw Samples.network_error.

(** The archive index lists a month that cannot be fetched and the month
    of [Samples.serves]. *)
Definition lost_month : string :=
  "https://api.chess.com/pub/player/alice/games/2023/10".

Definition one_month_lost (games : list ChessCom.ChessComGame)
    (address : string) : completion ChessCom.Response :=
  if String.eqb address lost_month then Throw Samples.network_error
  else if String.eqb address Samples.month_url then
    Return {| ChessCom.ok := true;
              ChessCom.json :=
                Return {| ChessCom.archives := None;
                          ChessCom.games := Some games |} |}
  else
    Return {| ChessCom.ok := true;
              ChessCom.json :=
                Return {| ChessCom.archives :=
                            Some [lost_month; Samples.month_url];
                          ChessCom.games := None |} |}.

(** Service B: two lines, the second of which is no JSON. *)
Definition two_lines (_ : string) : completion Lichess.Response :=
  Return {| Lichess.ok := true;
            Lichess.text :=
              Return ("{...}" ++ String "010" "<html>") |}.

Definition second_line_malformed (line : string)
  : completion Lichess.LichessGame :=
  if String.eqb line "<html>" then Throw Samples.syntax_error
  else Return Samples.alice_beats_bob.

(** A later game of service B, bob with white. *)
Definition bob_beats_alice : Lichess.LichessGame :=
  {| Lichess.id := "Zt5wQp1c";
     Lichess.createdAt := 1700000050000;
     Lichess.moves := "d4 d5 c4 e6";
     Lichess.clocks := Some [30000; 30000; 29000; 24000];
     Lichess.clock := Some {| Lichess.initial := 300; Lichess.increment := 3 |};
     Lichess.players :=
       {| Lichess.white := Samples.side "bob" 1400;
          Lichess.black := Samples.side "alice" 1500 |};
     Lichess.winner := Some Lichess.White;
     Lichess.speed := "blitz";
     Lichess.rated := true;
     Lichess.initialFen := None |}.

Definition both_lines (line : string) : completion Lichess.LichessGame :=
  if String.eqb line "<html>" then Return bob_beats_alice
  else Return Samples.alice_beats_bob.

(** A fetched game of service A in which alice, white, thinks 30 seconds
    on her second move. *)
Definition slow_pgn : string :=
  "1. e4 {[%clk 0:10:00]} 1... c5 {[%clk 0:09:55]} "
  ++ "2. Nf3 {[%clk 0:09:30]} 2... d6 {[%clk 0:09:50]}".

Definition slow_game : ChessCom.Normalized.NormalizedGame :=
  {| ChessCom.Normalized.id := "https://www.chess.com/game/live/1111111";
     ChessCom.Normalized.date := 1700000000000;
     ChessCom.Normalized.whitePlayer := "alice";
     ChessCom.Normalized.blackPlayer := "carol";
     ChessCom.Normalized.result := ChessCom.Normalized.win;
     ChessCom.Normalized.rating := 1500;
     ChessCom.Normalized.gameType := "rapid rated";
     ChessCom.Normalized.timeControl := "10";
     ChessCom.Normalized.pgn := ChessCom.text (ChessCom.formatPGN slow_pgn);
     ChessCom.Normalized.clocks :=
       ChessCom.clocks_of (ChessCom.formatPGN slow_pgn);
     ChessCom.Normalized.expanded := false |}.

(** A game as the service writes it: two header lines, a blank line, four
    plies (the third without a note) and the result. *)
Definition clock_note (h m sec frac : string) : Note :=
  {| before_brace := " "; clk_space := " "; clk_hours := h;
     clk_minutes := m; clk_seconds := sec; clk_fraction := frac |}.

Definition written_first : Ply :=
  {| number := "1"; black_dots := false; gap := " "; san := "e4";
     note := Some (clock_note "0" "10" "00" "") |}.

Definition written_rest : list (string * Ply) :=
  [(" ", {| number := "1"; black_dots := true; gap := " "; san := "c5";
            note := Some (clock_note "0" "09" "55" ".3") |});
   (" ", {| number := "2"; black_dots := false; gap := " "; san := "Nf3";
            note := None |});
   (" ", {| number := "2"; black_dots := true; gap := " "; san := "d6";
            note := Some (clock_note "0" "09" "50" "") |})].

Definition written_headers : list (string * string) :=
  [("Event Live Chess", ""); ("Site Chess.com", String "010" "")].

Definition written_pgn : string :=
  "[Event Live Chess]" ++ String "010" ("[Site Chess.com]"
  ++ String "010" (String "010"
       ("1. e4 {[%clk 0:10:00]} 1... c5 {[%clk 0:09:55.3]} 2. Nf3 "
        ++ "2... d6 {[%clk 0:09:50]} 1-0" ++ String "010" ""))).

(** [bob_beats_alice] as the adapter returns it. *)
Definition slow_lichess_game : Lichess.Normalized.NormalizedGame :=
  {| Lichess.Normalized.id := "Zt5wQp1c";
     Lichess.Normalized.date := 1700000050000;
     Lichess.Normalized.whitePlayer := "bob";
     Lichess.Normalized.blackPlayer := "alice";
     Lichess.Normalized.result := Lichess.Normalized.win;
     Lichess.Normalized.rating := 1400;
     Lichess.Normalized.gameType := "blitz rated";
     Lichess.Normalized.timeControl := "5+3";
     Lichess.Normalized.moves := Lichess.moves_of bob_beats_alice;
     Lichess.Normalized.expanded := false |}.

(** [earlier_game] and [Samples.alice_beats_bob] as the adapters return
    them to alice and to bob. *)
Definition earlier_returned : ChessCom.Normalized.NormalizedGame :=
  match ChessCom.normalize "alice" earlier_game with
  | Return g => g
  | Throw _ => slow_game
  end.

Definition alice_beats_bob_returned : Lichess.Normalized.NormalizedGame :=
  match Lichess.normalize Samples.minutes_text Samples.alice_beats_bob with
  | Return g => g
  | Throw _ => slow_lichess_game
  end.

Definition slow_row : Tracker.Highlight :=
  {| Tracker.move := "Nf3";
     Tracker.timeSpent := Some "30";
     Tracker.moveNumber := 2;
     Tracker.isWhite := true;
     Tracker.linkMoveNumber := 3;
     Tracker.date := 1700000000000;
     Tracker.players := "alice vs carol";
     Tracker.timeControl := "10";
     Tracker.gameId := "https://www.chess.com/game/live/1111111" |}.
End Further.

(** * Properties *)

(** ** Numbers and their text *)

Section JSFacts.
Import JS.

Lemma all_impl (p q : ascii -> bool) s :
  (forall c, p c = true -> q c = true) -> all p s = true -> all q s = true.
Proof.
  intros Hpq. induction s as [|c s IH]; simpl; auto.
  intros H. apply andb_true_iff in H as [Hc Hs].
  rewrite (Hpq c Hc), (IH Hs). reflexivity.
Qed.

Lemma all_app p a b : all p (a ++ b) = all p a && all p b.
Proof.
  induction a as [|c a IH]; simpl; auto.
  rewrite IH. apply andb_assoc.
Qed.

Lemma digit_not_space c : is_digit c = true -> is_space c = false.
Proof.
  unfold is_digit, is_space. intros H.
  apply andb_true_iff in H as [H1 H2].
  apply Nat.leb_le in H1. apply Nat.leb_le in H2.
  apply orb_false_iff. split.
  - apply andb_false_iff. right. apply Nat.leb_gt. lia.
  - apply Nat.eqb_neq. lia.
Qed.

Lemma digit_differs c d :
  is_digit d = false -> is_digit c = true -> Ascii.eqb c d = false.
Proof.
  intros Hd Hc. destruct (Ascii.eqb_spec c d); auto. congruence.
Qed.

Lemma trimEnd_id s :
  all (fun c => negb (is_space c)) s = true -> trimEnd s = s.
Proof.
  induction s as [|c s IH]; simpl; auto.
  intros H. apply andb_true_iff in H as [Hc Hs].
  rewrite (IH Hs). apply negb_true_iff in Hc. rewrite Hc.
  destruct s; reflexivity.
Qed.

Lemma trim_id s :
  all (fun c => negb (is_space c)) s = true -> trim s = s.
Proof.
  intros H. unfold trim.
  assert (trimStart s = s) as ->.
  { destruct s as [|c s]; simpl in *; auto.
    apply andb_true_iff in H as [Hc _]. apply negb_true_iff in Hc.
    now rewrite Hc. }
  now apply trimEnd_id.
Qed.

Lemma digits_no_space s :
  all_digits s = true -> all (fun c => negb (is_space c)) s = true.
Proof.
  apply all_impl. intros c Hc. now rewrite (digit_not_space c Hc).
Qed.

Lemma all_digits_of_uint d :
  all_digits (DecimalString.NilEmpty.string_of_uint d) = true.
Proof. induction d; simpl; auto. Qed.

Lemma of_uint_truthy d :
  d <> Decimal.Nil -> truthy (DecimalString.NilEmpty.string_of_uint d) = true.
Proof. destruct d; simpl; congruence. Qed.

Lemma NilZero_uint d :
  d <> Decimal.Nil ->
  DecimalString.NilZero.string_of_uint d
  = DecimalString.NilEmpty.string_of_uint d.
Proof. destruct d; simpl; congruence. Qed.

Lemma digits_value_of_pos p :
  digits_value (DecimalString.NilEmpty.string_of_uint (Pos.to_uint p))
  = Some (Z.pos p).
Proof.
  unfold digits_value, is_digits.
  rewrite of_uint_truthy by apply DecimalPos.Unsigned.to_uint_nonnil.
  rewrite all_digits_of_uint. simpl.
  rewrite DecimalString.NilEmpty.usu. simpl.
  unfold Z.of_uint. now rewrite DecimalPos.Unsigned.of_to.
Qed.

(** The text of a non-negative integer is a run of digits that reads back
    as the integer. *)
Lemma Z_toString_nonneg z :
  0 <= z ->
  is_digits (Z_toString z) = true /\ digits_value (Z_toString z) = Some z.
Proof.
  intros Hz. destruct z as [|p|p]; try lia.
  - split; reflexivity.
  - unfold Z_toString. simpl Z.to_int.
    unfold DecimalString.NilZero.string_of_int.
    rewrite NilZero_uint by apply DecimalPos.Unsigned.to_uint_nonnil.
    split.
    + unfold is_digits.
      rewrite of_uint_truthy by apply DecimalPos.Unsigned.to_uint_nonnil.
      now rewrite all_digits_of_uint.
    + apply digits_value_of_pos.
Qed.

Lemma Z_toString_neg p :
  Z_toString (Z.neg p)
  = String "-" (DecimalString.NilEmpty.string_of_uint (Pos.to_uint p)).
Proof.
  unfold Z_toString. simpl.
  now rewrite NilZero_uint by apply DecimalPos.Unsigned.to_uint_nonnil.
Qed.

Lemma is_digits_first s :
  is_digits s = true ->
  exists c t, s = String c t /\ is_digit c = true /\ all_digits t = true.
Proof.
  destruct s as [|c t]; [discriminate|].
  unfold is_digits. simpl. intros H. apply andb_true_iff in H as [Hc Ht].
  now exists c, t.
Qed.

Lemma is_digits_all s : is_digits s = true -> all_digits s = true.
Proof.
  unfold is_digits. intros H. now apply andb_true_iff in H as [_ H].
Qed.

(** [Number] reads a run of digits as its value. *)
Lemma Number_digits s v : digits_value s = Some v -> Number s = Int v.
Proof.
  intros Hv. unfold Number.
  assert (Hd : is_digits s = true).
  { unfold digits_value in Hv. destruct (is_digits s); [auto|discriminate]. }
  rewrite trim_id by (apply digits_no_space, is_digits_all, Hd).
  destruct (is_digits_first s Hd) as (c & t & -> & Hc & Ht).
  rewrite (digit_differs c "-") by (auto; reflexivity).
  rewrite (digit_differs c "+") by (auto; reflexivity).
  now rewrite Hv.
Qed.

(** Printing then reading an integer gives it back. *)
Lemma Number_toString z : Number (Z_toString z) = Int z.
Proof.
  destruct (Z_le_gt_dec 0 z) as [Hz|Hz].
  - apply Number_digits. now apply Z_toString_nonneg.
  - destruct z as [|p|p]; try lia.
    rewrite Z_toString_neg. unfold Number.
    rewrite trim_id.
    + simpl. now rewrite digits_value_of_pos.
    + simpl. apply digits_no_space, all_digits_of_uint.
Qed.
End JSFacts.

Section MoreJSFacts.
Import JS.

Lemma split_without sep s :
  all (is_not sep) s = true -> split sep s = [s].
Proof.
  induction s as [|c s IH]; simpl; auto.
  intros H. apply andb_true_iff in H as [Hc Hs].
  unfold is_not in Hc. apply negb_true_iff in Hc.
  now rewrite Hc, (IH Hs).
Qed.

Lemma split_at sep a b :
  all (is_not sep) a = true ->
  split sep (a ++ String sep b) = a :: split sep b.
Proof.
  induction a as [|c a IH]; simpl.
  - intros _. now rewrite Ascii.eqb_refl.
  - intros H. apply andb_true_iff in H as [Hc Ha].
    unfold is_not in Hc. apply negb_true_iff in Hc.
    now rewrite Hc, (IH Ha).
Qed.

Lemma digits_without sep s :
  is_digit sep = false -> all_digits s = true -> all (is_not sep) s = true.
Proof.
  intros Hsep. apply all_impl. intros c Hc. unfold is_not.
  now rewrite (digit_differs c sep).
Qed.

(** The text of an integer has digits and at most a leading minus. *)
Lemma Z_toString_without sep z :
  is_digit sep = false -> Ascii.eqb "-" sep = false ->
  all (is_not sep) (Z_toString z) = true.
Proof.
  intros Hsep Hminus.
  destruct (Z_le_gt_dec 0 z) as [Hz|Hz].
  - apply digits_without; auto.
    apply is_digits_all. now apply Z_toString_nonneg.
  - destruct z as [|p|p]; try lia.
    rewrite Z_toString_neg. simpl. unfold is_not at 1. rewrite Hminus. simpl.
    apply digits_without; auto. apply all_digits_of_uint.
Qed.

Lemma Z_toString_truthy z : truthy (Z_toString z) = true.
Proof.
  destruct (Z_le_gt_dec 0 z) as [Hz|Hz].
  - destruct (Z_toString_nonneg z Hz) as [H _].
    unfold is_digits in H. now apply andb_true_iff in H as [H _].
  - destruct z as [|p|p]; try lia. now rewrite Z_toString_neg.
Qed.

Lemma padStart2_cases s :
  truthy s = true ->
  padStart2 s = s \/ exists c, s = String c "" /\ padStart2 s = String "0" s.
Proof.
  destruct s as [|c [|d t]]; simpl; intros H; try discriminate.
  - right. now exists c.
  - now left.
Qed.

Lemma digits_value_zero_first s v :
  digits_value s = Some v -> digits_value (String "0" s) = Some v.
Proof.
  unfold digits_value. destruct (is_digits s) eqn:Hd; [|discriminate].
  assert (is_digits (String "0" s) = true) as ->.
  { unfold is_digits, all_digits in *. simpl.
    now apply andb_true_iff in Hd as [_ ->]. }
  simpl. destruct (DecimalString.NilEmpty.uint_of_string s); simpl.
  - intros [= <-]. reflexivity.
  - discriminate.
Qed.

Lemma Number_padStart2 z : Number (padStart2 (Z_toString z)) = Int z.
Proof.
  destruct (padStart2_cases (Z_toString z) (Z_toString_truthy z))
    as [->|(c & Hs & ->)].
  - apply Number_toString.
  - destruct (Z_le_gt_dec 0 z) as [Hz|Hz].
    + apply Number_digits, digits_value_zero_first.
      now apply Z_toString_nonneg.
    + destruct z as [|p|p]; try lia.
      rewrite Z_toString_neg in Hs. injection Hs as _ Hs.
      pose proof (of_uint_truthy (Pos.to_uint p)
                    (DecimalPos.Unsigned.to_uint_nonnil p)) as Ht.
      rewrite Hs in Ht. discriminate.
Qed.

Lemma padStart2_without sep z :
  is_digit sep = false -> Ascii.eqb "-" sep = false ->
  all (is_not sep) (padStart2 (Z_toString z)) = true.
Proof.
  intros Hsep Hminus.
  destruct (padStart2_cases (Z_toString z) (Z_toString_truthy z))
    as [->|(c & Hs & ->)].
  - now apply Z_toString_without.
  - simpl. rewrite Z_toString_without by auto.
    unfold is_not. rewrite (digit_differs "0" sep) by auto. reflexivity.
Qed.

Lemma truthy_app_char a c b : truthy (a ++ String c b) = true.
Proof. destruct a; reflexivity. Qed.

(** A character outside the numeric ones survives the trimming. *)
Lemma foreign_char_trimStart s :
  all numeric_char s = false -> all numeric_char (trimStart s) = false.
Proof.
  induction s as [|c s IH]; simpl; auto.
  destruct (is_space c) eqn:Hc; [|auto].
  unfold numeric_char at 1. rewrite Hc, orb_true_r. simpl. exact IH.
Qed.

Lemma foreign_char_trimEnd s :
  all numeric_char s = false -> all numeric_char (trimEnd s) = false.
Proof.
  induction s as [|c s IH]; simpl; auto.
  intros H. apply andb_false_iff in H as [Hc|Hs].
  - destruct (trimEnd s); simpl.
    + destruct (is_space c) eqn:Hsp.
      * unfold numeric_char in Hc. rewrite Hsp, orb_true_r in Hc.
        discriminate.
      * simpl. now rewrite Hc.
    + now rewrite Hc.
  - specialize (IH Hs). destruct (trimEnd s) as [|d t]; [discriminate|].
    cbn [all]. cbn [all] in IH. rewrite IH. apply andb_false_r.
Qed.

Lemma foreign_char_no_value s :
  all numeric_char s = false -> digits_value s = None.
Proof.
  intros H. unfold digits_value.
  destruct (is_digits s) eqn:Hd; [|reflexivity].
  apply is_digits_all in Hd.
  rewrite (all_impl is_digit numeric_char s) in H; [discriminate| |exact Hd].
  intros c Hc. unfold numeric_char. now rewrite Hc.
Qed.

(** [Number] is [NaN], as in JavaScript, on a text with a character that no
    numeric literal holds. *)
Lemma Number_foreign_char s : all numeric_char s = false -> Number s = NaN.
Proof.
  intros H. apply foreign_char_trimStart, foreign_char_trimEnd in H.
  unfold Number. fold (trim s) in H.
  destruct (trim s) as [|c t]; [discriminate|].
  destruct (Ascii.eqb_spec c "-") as [->|_].
  - rewrite foreign_char_no_value; auto.
  - destruct (Ascii.eqb_spec c "+") as [->|_].
    + rewrite foreign_char_no_value; auto.
    + now rewrite foreign_char_no_value.
Qed.
End MoreJSFacts.

(** ** The matcher *)

Section StringFacts.
Lemma append_length (a b : string) :
  String.length (a ++ b) = (String.length a + String.length b)%nat.
Proof. induction a as [|c a IH]; simpl; auto. Qed.

Lemma append_assoc (a b c : string) : (a ++ b) ++ c = a ++ (b ++ c).
Proof. induction a as [|x a IH]; simpl; auto. now rewrite IH. Qed.

Lemma substring_prefix (a b : string) :
  substring 0 (String.length a) (a ++ b) = a.
Proof.
  induction a as [|c a IH]; simpl.
  - destruct b; reflexivity.
  - now rewrite IH.
Qed.
End StringFacts.

Section RegexFacts.
Import JS Regex.
Context {A : Type}.
Implicit Types (k : @cont A) (c : captures).

Lemma consumed_app (a b : string) : consumed (a ++ b) b = a.
Proof.
  unfold consumed. rewrite append_length.
  replace (String.length a + String.length b - String.length b)%nat
    with (String.length a) by lia.
  apply substring_prefix.
Qed.

Lemma rmatch_Lit a s c k : rmatch (Lit a) (String a s) c k = k s c.
Proof. simpl. now rewrite Ascii.eqb_refl. Qed.

Lemma rmatch_Word w s c k : rmatch (Word w) (w ++ s) c k = k s c.
Proof.
  revert c k. induction w as [|a w IH]; intros c k; [reflexivity|].
  destruct w as [|b w].
  - apply rmatch_Lit.
  - change (Word (String a (String b w)))
      with (Seq (Lit a) (Word (String b w))).
    change (String a (String b w) ++ s) with (String a (String b w ++ s)).
    cbn [rmatch]. fold (Lit a).
    change (rmatch (Lit a) (String a (String b w ++ s)) c
              (fun s' c' => rmatch (Word (String b w)) s' c' k)
            = k s c).
    rewrite rmatch_Lit. apply IH.
Qed.

(** A greedy star over a character class reads a whole run of the class
    when the continuation accepts what follows the run. *)
Lemma star_class_run p run :
  forall rest c k x fuel,
    all p run = true -> stops p rest = true ->
    k rest c = Some x -> (String.length run < fuel)%nat ->
    star_loop (rmatch (Class p)) true fuel (run ++ rest) c k = Some x.
Proof.
  induction run as [|a run IH]; intros rest c k x fuel Hrun Hstop Hk Hfuel.
  - destruct fuel as [|fuel]; [simpl in Hfuel; lia|].
    simpl. destruct rest as [|b rest]; simpl.
    + exact Hk.
    + simpl in Hstop. apply negb_true_iff in Hstop. now rewrite Hstop.
  - destruct fuel as [|fuel]; [simpl in Hfuel; lia|].
    simpl in Hrun. apply andb_true_iff in Hrun as [Ha Hrun].
    cbn [star_loop rmatch append]. rewrite Ha.
    assert ((String.length (run ++ rest)
             <? String.length (String a (run ++ rest)))%nat = true) as ->
      by (apply Nat.ltb_lt; simpl; lia).
    assert (Hlt : (String.length run < fuel)%nat) by (simpl in Hfuel; lia).
    specialize (IH rest c k x fuel Hrun Hstop Hk Hlt).
    cbn [rmatch] in IH. now rewrite IH.
Qed.

Lemma rmatch_star_run p run rest c k x :
  all p run = true -> stops p rest = true -> k rest c = Some x ->
  rmatch (Star true (Class p)) (run ++ rest) c k = Some x.
Proof.
  intros. cbn [rmatch]. apply star_class_run; auto.
  rewrite append_length. lia.
Qed.

Lemma rmatch_plus_run p run rest c k x :
  truthy run = true -> all p run = true -> stops p rest = true ->
  k rest c = Some x ->
  rmatch (Plus (Class p)) (run ++ rest) c k = Some x.
Proof.
  intros Hne Hrun Hstop Hk. destruct run as [|a run]; [discriminate|].
  simpl in Hrun. apply andb_true_iff in Hrun as [Ha Hrun].
  unfold Plus. cbn [append rmatch]. rewrite Ha.
  pose proof (star_class_run p run rest c k x
                (S (String.length (run ++ rest))) Hrun Hstop Hk) as H.
  cbn [rmatch] in H. apply H. rewrite append_length. lia.
Qed.

(** *** The fuel of the matcher is never used up *)

(** The continuation is called on a rest of the input. *)
Lemma star_loop_rest (body : string -> captures -> @cont A -> option A) g :
  (forall s c k x,
      body s c k = Some x ->
      exists s' c', k s' c' = Some x
                    /\ (String.length s' <= String.length s)%nat) ->
  forall fuel s c k x,
    star_loop body g fuel s c k = Some x ->
    exists s' c', k s' c' = Some x
                  /\ (String.length s' <= String.length s)%nat.
Proof.
  intros Hbody. induction fuel as [|fuel IH]; intros s c k x; simpl.
  - intros Hk. exists s, c. auto.
  - assert (Hmore :
      body s c (fun s' c' =>
        if (String.length s' <? String.length s)%nat
        then star_loop body g fuel s' c' k else None) = Some x ->
      exists s' c', k s' c' = Some x
                    /\ (String.length s' <= String.length s)%nat).
    { intros H. apply Hbody in H as (s1 & c1 & H & Hlen).
      destruct (String.length s1 <? String.length s)%nat; [|discriminate].
      apply IH in H as (s' & c' & H & Hlen'). exists s', c'. split; auto.
      lia. }
    destruct g.
    + destruct (body s c _) as [y|] eqn:E.
      * intros [= <-]. apply (Hmore eq_refl).
      * intros Hk. exists s, c. auto.
    + destruct (k s c) as [y|] eqn:E.
      * intros [= <-]. exists s, c. auto.
      * exact Hmore.
Qed.

Lemma rmatch_rest r :
  forall s c k x,
    rmatch r s c k = Some x ->
    exists s' c', k s' c' = Some x
                  /\ (String.length s' <= String.length s)%nat.
Proof.
  induction r as [|p|r1 IH1 r2 IH2|r1 IH1 r2 IH2|g r1 IH1|i r1 IH1];
    intros s c k x; cbn [rmatch].
  - intros H. exists s, c. auto.
  - destruct s as [|a s]; [discriminate|].
    destruct (p a); [|discriminate].
    intros H. exists s, c. split; [exact H|simpl; lia].
  - intros H. apply IH1 in H as (s1 & c1 & H & Hlen1).
    apply IH2 in H as (s' & c' & H & Hlen2).
    exists s', c'. split; auto. lia.
  - destruct (rmatch r1 s c k) as [y|] eqn:E.
    + intros [= <-]. apply (IH1 _ _ _ _ E).
    + apply IH2.
  - now apply star_loop_rest.
  - intros H. apply IH1 in H as (s' & c' & H & Hlen). eauto.
Qed.

(** A pattern that cannot match the empty string leaves a shorter rest. *)
Lemma rmatch_rest_shorter r :
  nonempty r = true ->
  forall s c k x,
    rmatch r s c k = Some x ->
    exists s' c', k s' c' = Some x
                  /\ (String.length s' < String.length s)%nat.
Proof.
  induction r as [|p|r1 IH1 r2 IH2|r1 IH1 r2 IH2|g r1 IH1|i r1 IH1];
    cbn [nonempty]; intros Hr s c k x; try discriminate; cbn [rmatch].
  - destruct s as [|a s]; [discriminate|].
    destruct (p a); [|discriminate].
    intros H. exists s, c. split; [exact H|simpl; lia].
  - intros H. apply orb_true_iff in Hr as [Hr|Hr].
    + apply (IH1 Hr) in H as (s1 & c1 & H & Hlen1).
      apply rmatch_rest in H as (s' & c' & H & Hlen2).
      exists s', c'. split; auto. lia.
    + apply rmatch_rest in H as (s1 & c1 & H & Hlen1).
      apply (IH2 Hr) in H as (s' & c' & H & Hlen2).
      exists s', c'. split; auto. lia.
  - apply andb_true_iff in Hr as [Hr1 Hr2].
    destruct (rmatch r1 s c k) as [y|] eqn:E.
    + intros [= <-]. apply (IH1 Hr1 _ _ _ _ E).
    + apply (IH2 Hr2).
  - intros H. apply (IH1 Hr) in H as (s' & c' & H & Hlen). eauto.
Qed.

(** The matcher looks at its continuation only on rests of the input. *)
Lemma star_loop_ext (body : string -> captures -> @cont A -> option A) g :
  (forall s c k1 k2,
      (forall s' c', (String.length s' <= String.length s)%nat ->
                     k1 s' c' = k2 s' c') ->
      body s c k1 = body s c k2) ->
  forall fuel s c k1 k2,
    (forall s' c', (String.length s' <= String.length s)%nat ->
                   k1 s' c' = k2 s' c') ->
    star_loop body g fuel s c k1 = star_loop body g fuel s c k2.
Proof.
  intros Hbody. induction fuel as [|fuel IH]; intros s c k1 k2 Hk; simpl.
  - apply Hk. lia.
  - rewrite (Hk s c) by lia.
    rewrite (Hbody s c
               (fun s' c' =>
                  if (String.length s' <? String.length s)%nat
                  then star_loop body g fuel s' c' k1 else None)
               (fun s' c' =>
                  if (String.length s' <? String.length s)%nat
                  then star_loop body g fuel s' c' k2 else None)).
    + reflexivity.
    + intros s' c' Hlen.
      destruct (Nat.ltb_spec (String.length s') (String.length s));
        [|reflexivity].
      apply IH. intros s2 c2 Hlen2. apply Hk. lia.
Qed.

Lemma rmatch_ext r :
  forall s c k1 k2,
    (forall s' c', (String.length s' <= String.length s)%nat ->
                   k1 s' c' = k2 s' c') ->
    rmatch r s c k1 = rmatch r s c k2.
Proof.
  induction r as [|p|r1 IH1 r2 IH2|r1 IH1 r2 IH2|g r1 IH1|i r1 IH1];
    intros s c k1 k2 Hk; cbn [rmatch].
  - apply Hk. lia.
  - destruct s as [|a s]; [reflexivity|].
    destruct (p a); [|reflexivity]. apply Hk. simpl. lia.
  - apply IH1. intros s1 c1 Hlen1. apply IH2.
    intros s' c' Hlen2. apply Hk. lia.
  - rewrite (IH1 s c k1 k2 Hk), (IH2 s c k1 k2 Hk). reflexivity.
  - now apply star_loop_ext.
  - apply IH1. intros s' c' Hlen. now apply Hk.
Qed.

(** Any fuel above the length of the input gives the same iterations. *)
Lemma star_loop_fuel r g :
  forall fuel1 fuel2 s c k,
    (String.length s < fuel1)%nat -> (String.length s < fuel2)%nat ->
    star_loop (rmatch r) g fuel1 s c k = star_loop (rmatch r) g fuel2 s c k.
Proof.
  induction fuel1 as [|fuel1 IH]; intros fuel2 s c k H1 H2; [lia|].
  destruct fuel2 as [|fuel2]; [lia|]. simpl.
  rewrite (rmatch_ext r s c
             (fun s' c' =>
                if (String.length s' <? String.length s)%nat
                then star_loop (rmatch r) g fuel1 s' c' k else None)
             (fun s' c' =>
                if (String.length s' <? String.length s)%nat
                then star_loop (rmatch r) g fuel2 s' c' k else None)).
  - reflexivity.
  - intros s' c' _.
    destruct (Nat.ltb_spec (String.length s') (String.length s));
      [|reflexivity].
    apply IH; lia.
Qed.

Lemma rmatch_Seq r1 r2 s c k :
  rmatch (Seq r1 r2) s c k = rmatch r1 s c (fun s' c' => rmatch r2 s' c' k).
Proof. reflexivity. Qed.

Lemma rmatch_Alt r1 r2 s c k :
  rmatch (Alt r1 r2) s c k
  = match rmatch r1 s c k with
    | Some x => Some x
    | None => rmatch r2 s c k
    end.
Proof. reflexivity. Qed.

Lemma rmatch_Group i r s c k :
  rmatch (Group i r) s c k
  = rmatch r s c (fun s' c' => k s' ((i, consumed s s') :: c')).
Proof. reflexivity. Qed.
End RegexFacts.

Section SearchFacts.
Import JS Regex.

Lemma search_here r s s' c :
  rmatch r s [] (fun s' c => Some (s', c)) = Some (s', c) ->
  search r s
  = Some {| before := ""; matched := consumed s s'; groups := c;
            after := s' |}.
Proof.
  intros H. destruct s; simpl; unfold match_here; now rewrite H.
Qed.

(** A star may be given any fuel above the length of its input. *)
Lemma rmatch_Star_fuel {A} g r fuel s c (k : @cont A) :
  (String.length s < fuel)%nat ->
  rmatch (Star g r) s c k = star_loop (rmatch r) g fuel s c k.
Proof. intros H. cbn [rmatch]. apply star_loop_fuel; lia. Qed.

Lemma consumed_truthy s s' :
  (String.length s' < String.length s)%nat -> truthy (consumed s s') = true.
Proof.
  unfold consumed. intros H.
  destruct (String.length s - String.length s')%nat as [|n] eqn:E; [lia|].
  destruct s as [|a s]; [simpl in H; lia|]. reflexivity.
Qed.

(** A match of a pattern that cannot match the empty string is not empty
    and leaves a shorter input. *)
Lemma match_here_shorter r s m :
  nonempty r = true -> match_here r s = Some m ->
  (String.length (after m) < String.length s)%nat
  /\ truthy (matched m) = true.
Proof.
  intros Hr. unfold match_here.
  destruct (rmatch r s [] _) as [[s' c]|] eqn:E; [|discriminate].
  intros [= <-]. cbn [after matched].
  apply (rmatch_rest_shorter r Hr) in E as (s1 & c1 & [= -> ->] & Hlen).
  auto using consumed_truthy.
Qed.

Lemma search_shorter r s :
  nonempty r = true ->
  forall m, search r s = Some m ->
            (String.length (after m) < String.length s)%nat
            /\ truthy (matched m) = true.
Proof.
  intros Hr. induction s as [|a s IH]; intros m; simpl.
  - destruct (match_here r "") as [m0|] eqn:E; [|discriminate].
    intros [= <-]. now apply match_here_shorter in E.
  - destruct (match_here r (String a s)) as [m0|] eqn:E.
    + intros [= <-]. now apply match_here_shorter in E.
    + destruct (search r s) as [m1|]; [|discriminate].
      intros [= <-]. destruct (IH m1 eq_refl) as [Hlen Hm].
      cbn [shift after matched]. split; [simpl; lia|exact Hm].
Qed.

(** The list of matches does not depend on the fuel, once above the length
    of the input. *)
Lemma exec_all_fuel_enough r :
  nonempty r = true ->
  forall fuel1 fuel2 s,
    (String.length s < fuel1)%nat -> (String.length s < fuel2)%nat ->
    exec_all_fuel fuel1 r s = exec_all_fuel fuel2 r s.
Proof.
  intros Hr. induction fuel1 as [|fuel1 IH]; intros fuel2 s H1 H2; [lia|].
  destruct fuel2 as [|fuel2]; [lia|]. simpl.
  destruct (search r s) as [m|] eqn:E; [|reflexivity].
  destruct (search_shorter r s Hr m E) as [Hlen _].
  f_equal. apply IH; lia.
Qed.

(** The loop [while ((match = r.exec(s)) !== null)]: a first match, then
    the matches of what follows it. *)
Lemma exec_all_unfold r s :
  nonempty r = true ->
  exec_all r s
  = match search r s with
    | None => []
    | Some m => m :: exec_all r (after m)
    end.
Proof.
  intros Hr. unfold exec_all at 1. cbn [exec_all_fuel].
  destruct (search r s) as [m|] eqn:E; [|reflexivity].
  destruct (search_shorter r s Hr m E) as [Hlen _].
  f_equal. unfold exec_all. apply exec_all_fuel_enough; auto; lia.
Qed.

Lemma replace_all_fuel_enough r repl :
  nonempty r = true ->
  forall fuel1 fuel2 s,
    (String.length s < fuel1)%nat -> (String.length s < fuel2)%nat ->
    replace_all_fuel fuel1 r repl s = replace_all_fuel fuel2 r repl s.
Proof.
  intros Hr. induction fuel1 as [|fuel1 IH]; intros fuel2 s H1 H2; [lia|].
  destruct fuel2 as [|fuel2]; [lia|]. simpl.
  destruct (search r s) as [m|] eqn:E; [|reflexivity].
  destruct (search_shorter r s Hr m E) as [Hlen Hm].
  destruct (matched m); [discriminate|].
  do 2 f_equal. apply IH; lia.
Qed.

(** The replacement of every match: of a first match, then of the matches
    in what follows it. *)
Lemma replace_all_unfold r repl s :
  nonempty r = true ->
  replace_all r repl s
  = match search r s with
    | None => s
    | Some m => before m ++ repl ++ replace_all r repl (after m)
    end.
Proof.
  intros Hr. unfold replace_all at 1. cbn [replace_all_fuel].
  destruct (search r s) as [m|] eqn:E; [|reflexivity].
  destruct (search_shorter r s Hr m E) as [Hlen Hm].
  destruct (matched m); [discriminate|].
  do 2 f_equal. unfold replace_all. apply replace_all_fuel_enough; auto; lia.
Qed.

(** The two global patterns of [formatPGN] read at least one character, so
    the token list and the header removal are the ones of the source's
    loops. *)
Lemma ply_tokens_unfold moves :
  ChessCom.ply_tokens moves
  = match search ChessCom.movePattern moves with
    | None => []
    | Some m => ChessCom.group_text 1 m :: ChessCom.ply_tokens (after m)
    end.
Proof.
  unfold ChessCom.ply_tokens.
  rewrite exec_all_unfold at 1 by reflexivity.
  now destruct (search ChessCom.movePattern moves).
Qed.

Lemma header_removal_unfold pgn :
  replace_all ChessCom.header_pattern "" pgn
  = match search ChessCom.header_pattern pgn with
    | None => pgn
    | Some m => before m ++ replace_all ChessCom.header_pattern "" (after m)
    end.
Proof.
  rewrite replace_all_unfold at 1 by reflexivity.
  now destruct (search ChessCom.header_pattern pgn).
Qed.
End SearchFacts.

Section ClockFacts.
Import JS Regex ChessCom.

Lemma stops_digits p s rest :
  is_digits s = true -> (forall c, is_digit c = true -> p c = false) ->
  stops p (s ++ rest) = true.
Proof.
  destruct s as [|c s]; [discriminate|]. unfold is_digits. simpl.
  intros H Hp. apply andb_true_iff in H as [H _].
  now rewrite (Hp c H).
Qed.

Lemma is_digits_truthy s : is_digits s = true -> truthy s = true.
Proof. unfold is_digits. intros H. now apply andb_true_iff in H as [H _]. Qed.

Lemma is_digits_class s : is_digits s = true -> all is_digit s = true.
Proof. unfold is_digits. intros H. now apply andb_true_iff in H as [_ H]. Qed.

Lemma clk_pattern_matches ws h m sec frac rest :
  truthy ws = true -> all is_space ws = true ->
  is_digits h = true -> is_digits m = true -> is_digits sec = true ->
  is_fraction frac = true ->
  rmatch clk_pattern
    ("[%clk" ++ ws ++ h ++ ":" ++ m ++ ":" ++ sec ++ frac ++ "]" ++ rest)
    [] (fun s' c => Some (s', c))
  = Some (rest, [(3, sec ++ frac); (2, m); (1, h)]%nat).
Proof.
  intros Hws1 Hws2 Hh Hm Hsec Hfrac.
  unfold clk_pattern.
  rewrite rmatch_Seq, rmatch_Word, rmatch_Seq.
  apply rmatch_plus_run; auto.
  { apply stops_digits; auto. apply digit_not_space. }
  cbv beta. rewrite rmatch_Seq, rmatch_Group.
  apply rmatch_plus_run; auto using is_digits_truthy, is_digits_class.
  cbv beta. rewrite consumed_app.
  rewrite rmatch_Seq. change (":" ++ m ++ ":" ++ sec ++ frac ++ "]" ++ rest)
    with (String ":" (m ++ ":" ++ sec ++ frac ++ "]" ++ rest)).
  rewrite rmatch_Lit, rmatch_Seq, rmatch_Group.
  apply rmatch_plus_run; auto using is_digits_truthy, is_digits_class.
  cbv beta. rewrite consumed_app.
  rewrite rmatch_Seq. change (":" ++ sec ++ frac ++ "]" ++ rest)
    with (String ":" (sec ++ frac ++ "]" ++ rest)).
  rewrite rmatch_Lit, rmatch_Seq, rmatch_Group, rmatch_Seq.
  destruct frac as [|d f].
  - (* no fraction *)
    apply rmatch_plus_run; auto using is_digits_truthy, is_digits_class.
    cbv beta. unfold Opt. simpl.
    replace (sec ++ "") with sec by (clear; induction sec; simpl; congruence).
    now rewrite consumed_app.
  - simpl in Hfrac. apply andb_true_iff in Hfrac as [Hd Hf].
    apply Ascii.eqb_eq in Hd. subst d.
    apply rmatch_plus_run; auto using is_digits_truthy, is_digits_class.
    cbv beta. unfold Opt. rewrite rmatch_Alt, rmatch_Seq.
    change (String "." f ++ "]" ++ rest) with (String "." (f ++ "]" ++ rest)).
    rewrite rmatch_Lit. unfold digit.
    erewrite rmatch_plus_run; eauto using is_digits_truthy, is_digits_class.
    cbv beta. simpl.
    replace (sec ++ String "." (f ++ String "]" rest))
      with ((sec ++ String "." f) ++ String "]" rest).
    + now rewrite consumed_app.
    + rewrite append_assoc. reflexivity.
Qed.
End ClockFacts.

(** ** Service A: clock annotations *)

Section ClockParsing.
Import JS Regex ChessCom.

Lemma span_digits_run a b :
  all_digits a = true -> stops is_digit b = true ->
  span_digits (a ++ b) = (a, b).
Proof.
  unfold all_digits. induction a as [|c a IH]; simpl; intros Ha Hb.
  - destruct b as [|d b]; simpl in *; auto.
    apply negb_true_iff in Hb. now rewrite Hb.
  - apply andb_true_iff in Ha as [Hc Ha]. now rewrite Hc, (IH Ha Hb).
Qed.

Lemma fraction_stops frac :
  is_fraction frac = true -> stops is_digit frac = true.
Proof.
  destruct frac as [|c f]; simpl; auto. intros H.
  apply andb_true_iff in H as [H _]. apply Ascii.eqb_eq in H. now subst c.
Qed.

Lemma digits_value_is_digits s v :
  digits_value s = Some v -> is_digits s = true.
Proof.
  unfold digits_value. destruct (is_digits s); [auto|discriminate].
Qed.

(** The floor of the seconds is the value of their integer part. *)
Lemma floor_parseFloat_fraction sec frac v :
  digits_value sec = Some v -> is_fraction frac = true ->
  floor_parseFloat (sec ++ frac) = Int v.
Proof.
  intros Hv Hfrac. pose proof (digits_value_is_digits _ _ Hv) as Hd.
  unfold floor_parseFloat.
  assert (trimStart (sec ++ frac) = sec ++ frac) as ->.
  { destruct (is_digits_first sec Hd) as (c & t & -> & Hc & _).
    simpl. now rewrite (digit_not_space c Hc). }
  rewrite span_digits_run; auto using is_digits_all, fraction_stops.
  simpl. now rewrite Hv.
Qed.

(** What [parseClockComment] answers on a well-formed annotation: the hours
    and the minutes as they are written, then the seconds as an integer. *)
Lemma parseClockComment_annotation ws h m sec frac rest v :
  truthy ws = true -> all is_space ws = true ->
  is_digits h = true -> is_digits m = true ->
  digits_value sec = Some v -> is_fraction frac = true ->
  parseClockComment
    ("[%clk" ++ ws ++ h ++ ":" ++ m ++ ":" ++ sec ++ frac ++ "]" ++ rest)
  = Some (h ++ ":" ++ m ++ ":" ++ Z_toString v).
Proof.
  intros Hws1 Hws2 Hh Hm Hv Hfrac.
  pose proof (digits_value_is_digits _ _ Hv) as Hsec.
  unfold parseClockComment.
  rewrite (search_here _ _ _ _
             (clk_pattern_matches ws h m sec frac rest
                Hws1 Hws2 Hh Hm Hsec Hfrac)).
  unfold group_text, group. simpl.
  now rewrite (floor_parseFloat_fraction sec frac v Hv Hfrac).
Qed.
End ClockParsing.

(** ** Service A: time controls *)

Section TimeControl.
Import JS ChessCom Vocabulary.

Lemma digits_value_nonneg s v : digits_value s = Some v -> 0 <= v.
Proof.
  unfold digits_value. destruct (is_digits s); [|discriminate].
  destruct (DecimalString.NilEmpty.uint_of_string s); [|discriminate].
  simpl. intros [= <-]. unfold Z.of_uint. apply N2Z.is_nonneg.
Qed.

(** A text whose second character is not the slash is no day code. *)
Lemma second_not_slash c d t :
  Ascii.eqb d "/" = false -> is_day_code (String c (String d t)) = false.
Proof.
  intros Hd. unfold is_day_code. cbn [String.eqb]. rewrite Hd.
  now destruct (Ascii.eqb c "1").
Qed.

Lemma with_increment_not_day_code b inc :
  is_digits b = true -> is_day_code (with_increment b inc) = false.
Proof.
  intros Hb. destruct (is_digits_first b Hb) as (c & t & -> & Hc & Ht).
  destruct t as [|d t].
  - destruct inc as [i|]; simpl with_increment.
    + now apply second_not_slash.
    + unfold is_day_code. cbn [String.eqb]. now destruct (Ascii.eqb c "1").
  - assert (Hd : Ascii.eqb d "/" = false).
    { unfold all_digits in Ht. simpl in Ht.
      apply andb_true_iff in Ht as [Hd _]. now apply digit_differs. }
    destruct inc as [i|]; simpl with_increment; now apply second_not_slash.
Qed.

Lemma parseTimeControl_not_day_code tc :
  is_day_code tc = false ->
  parseTimeControl tc
  = let parts := numbers_of "+" tc in
    let baseTime := element 0 parts in
    let increment := element 1 parts in
    if negb (isNaN baseTime) then
      let minutes := floor_div baseTime 60 in
      let seconds := rem baseTime 60 in
      let timeStr :=
        if gt minutes (Int 0) then
          toString minutes ++
          (if gt seconds (Int 0)
           then ":" ++ padStart2 (toString seconds) else "")
        else toString seconds ++ "s" in
      timeStr ++ "+" ++
        (if negb (isNaN increment) then toString increment else "0")
    else "-".
Proof.
  unfold is_day_code, parseTimeControl. intros H.
  repeat (apply orb_false_iff in H as [H ?]).
  now repeat match goal with
             | E : String.eqb _ _ = false |- _ => rewrite E; clear E
             end.
Qed.

Lemma numbers_of_with_increment b inc :
  is_digits b = true ->
  (forall i, inc = Some i -> all (is_not "+") i = true) ->
  numbers_of "+" (with_increment b inc)
  = Number b :: match inc with Some i => [Number i] | None => [] end.
Proof.
  intros Hb Hinc.
  assert (Hplus : all (is_not "+") b = true)
    by (apply digits_without; [reflexivity|now apply is_digits_all]).
  unfold numbers_of. destruct inc as [i|]; simpl with_increment.
  - change (b ++ "+" ++ i) with (b ++ String "+" i).
    rewrite (split_at _ _ _ Hplus).
    now rewrite (split_without _ _ (Hinc i eq_refl)).
  - now rewrite (split_without _ _ Hplus).
Qed.

Lemma increment_shown_element (x : number) inc :
  (let increment :=
     element 1 (x :: match inc with Some i => [Number i] | None => [] end) in
   if negb (isNaN increment) then toString increment else "0")
  = increment_shown inc.
Proof.
  destruct inc as [i|]; simpl; [|reflexivity]. now destruct (Number i).
Qed.

(** [Number] is [NaN], as in JavaScript, on an ASCII text with a character
    that no numeric literal holds. *)
Lemma Number_foreign_text s : foreign_text s = true -> Number s = NaN.
Proof.
  unfold foreign_text. intros H. apply negb_true_iff in H.
  apply Number_foreign_char.
  destruct (all numeric_char s) eqn:E; [|reflexivity].
  rewrite <- H. symmetry. apply (all_impl numeric_char); [|exact E].
  intros c Hc. now rewrite Hc.
Qed.

(** The rendering of [base] or [base+increment] for a base of [n]
    seconds. *)
Lemma parseTimeControl_base b inc n :
  digits_value b = Some n ->
  (forall i, inc = Some i -> all (is_not "+") i = true) ->
  parseTimeControl (with_increment b inc)
  = (if 60 <=? n then
       Z_toString (n / 60) ++
       (if n mod 60 =? 0 then ""
        else ":" ++ padStart2 (Z_toString (n mod 60)))
     else Z_toString n ++ "s")
    ++ "+" ++ increment_shown inc.
Proof.
  intros Hn Hinc.
  pose proof (digits_value_is_digits _ _ Hn) as Hb.
  pose proof (digits_value_nonneg _ _ Hn) as H0.
  rewrite parseTimeControl_not_day_code
    by now apply with_increment_not_day_code.
  rewrite (numbers_of_with_increment b inc Hb Hinc).
  pose proof (increment_shown_element (Number b) inc) as Hshown.
  cbv zeta in *. rewrite Hshown.
  rewrite (Number_digits b n Hn). cbn [element nth isNaN negb floor_div rem].
  rewrite (Z.rem_mod_nonneg n 60) by lia.
  f_equal. unfold gt, toString.
  pose proof (Z.mod_pos_bound n 60 ltac:(lia)) as Hmod.
  destruct (Z.leb_spec 60 n) as [Hge|Hlt].
  - assert (0 < n / 60) by (apply Z.div_str_pos; lia).
    assert ((0 <? n / 60) = true) as -> by (apply Z.ltb_lt; lia).
    destruct (Z.eqb_spec (n mod 60) 0) as [Hz|Hz].
    + rewrite Hz. reflexivity.
    + assert ((0 <? n mod 60) = true) as -> by (apply Z.ltb_lt; lia).
      reflexivity.
  - rewrite (Z.div_small n 60) by lia. rewrite (Z.mod_small n 60) by lia.
    reflexivity.
Qed.

(** C9. The time-control formatter of service A maps the five day codes to
    their day labels; a text [base] or [base+increment] whose base is a run
    of digits worth [n] seconds, [n] at most [MAX_SAFE_INTEGER], is rendered
    as the whole minutes [n / 60], followed by [:SS] (two digits,
    zero-padded) only when the remainder is not zero, when [n >= 60], and as
    [Ns] when [n < 60]; the increment is always appended after [+]: its
    value when it is a run of digits (at most [MAX_SAFE_INTEGER]), 0 when it
    is absent, empty or a text that is no number; a text whose base holds a
    character that no numeric literal holds is rendered [-]. *)
Theorem parseTimeControl_labels :
  (parseTimeControl "1/86400" = "1 day"
   /\ parseTimeControl "1/259200" = "3 days"
   /\ parseTimeControl "1/432000" = "5 days"
   /\ parseTimeControl "1/604800" = "7 days"
   /\ parseTimeControl "1/1209600" = "14 days")
  /\ (forall b inc n,
        digits_value b = Some n -> n <= MAX_SAFE_INTEGER ->
        (forall i, inc = Some i -> plain_increment i = true) ->
        (60 <= n -> n mod 60 = 0 ->
         parseTimeControl (with_increment b inc)
         = Z_toString (n / 60) ++ "+" ++ increment_shown inc)
        /\ (60 <= n -> n mod 60 <> 0 ->
            parseTimeControl (with_increment b inc)
            = Z_toString (n / 60) ++ ":"
              ++ padStart2 (Z_toString (n mod 60))
              ++ "+" ++ increment_shown inc)
        /\ (n < 60 ->
            parseTimeControl (with_increment b inc)
            = Z_toString n ++ "s+" ++ increment_shown inc))
  /\ (forall tc,
        is_day_code tc = false ->
        foreign_text (hd "" (split "+" tc)) = true ->
        parseTimeControl tc = "-")
  /\ (parseTimeControl "180+2" = "3+2" /\ parseTimeControl "30" = "30s+0").
Proof.
  split; [repeat split; reflexivity|].
  split; [|split; [|split; reflexivity]].
  - intros b inc n Hn _ Hplain.
    assert (Hinc : forall i, inc = Some i -> all (is_not "+") i = true).
    { intros i Hi. apply Hplain in Hi. unfold plain_increment in Hi.
      now apply andb_true_iff in Hi as [Hi _]. }
    rewrite (parseTimeControl_base b inc n Hn Hinc).
    repeat split.
    + intros Hge Hz.
      assert ((60 <=? n) = true) as -> by (apply Z.leb_le; lia).
      rewrite Hz. simpl (0 =? 0). now rewrite append_assoc.
    + intros Hge Hz.
      assert ((60 <=? n) = true) as -> by (apply Z.leb_le; lia).
      assert ((n mod 60 =? 0) = false) as -> by (apply Z.eqb_neq; lia).
      now rewrite !append_assoc.
    + intros Hlt.
      assert ((60 <=? n) = false) as -> by (apply Z.leb_gt; lia).
      now rewrite !append_assoc.
  - intros tc Hday Hforeign.
    assert (Hnan : Number (hd "" (split "+" tc)) = NaN)
      by now apply Number_foreign_text.
    rewrite (parseTimeControl_not_day_code tc Hday). cbv zeta.
    assert (element 0 (numbers_of "+" tc) = NaN) as ->; [|reflexivity].
    unfold numbers_of, element. destruct (split "+" tc); simpl in *; auto.
Qed.

Lemma parseTimeControl_labels_witness :
  parseTimeControl "185+2" = "3:05+2"
  /\ parseTimeControl "1/172800" = "-".
Proof.
  split.
  - refine (proj1 (proj2 (proj1 (proj2 parseTimeControl_labels)
                            "185" (Some "2") 185 _ _ _)) _ _).
    + reflexivity.
    + unfold MAX_SAFE_INTEGER. lia.
    + intros i [= <-]. reflexivity.
    + lia.
    + vm_compute. discriminate.
  - apply (proj1 (proj2 (proj2 parseTimeControl_labels))); reflexivity.
Defined.
End TimeControl.

(** ** Service A: the clock parser on an annotation *)

Section ClockAnnotation.
Import JS ChessCom.

(** C5 (as stated, refuted).  The annotation [0:05:12.9] does not come out
    as [0:5:12]: the minutes keep their leading zero, and without the
    [[%clk ...]] wrapper nothing is parsed at all. *)
Lemma parseClockComment_keeps_minutes_zero :
  parseClockComment "[%clk 0:05:12.9]" = Some "0:05:12"
  /\ parseClockComment "[%clk 0:05:12.9]" <> Some "0:5:12"
  /\ parseClockComment "0:05:12.9" <> Some "0:5:12".
Proof.
  repeat split; vm_compute; discriminate.
Qed.

(** C5 (amended).  For every annotation [[%clk H:M:S]] or
    [[%clk H:M:S.frac]], with [H], [M], [S] and [frac] runs of digits, the
    clock parser yields [H] and [M] as they are written, leading zeros
    kept, and then the integer value of [S] in decimal: the fraction is
    truncated, not rounded, and leading zeros of the seconds are dropped.
    The seconds have at most fifteen digits in all (those of [S] and those
    of [frac], the dot not counted), which a double holds without
    rounding. *)
Theorem parseClockComment_truncates ws h m sec frac rest v :
  truthy ws = true -> all is_space ws = true ->
  is_digits h = true -> is_digits m = true ->
  digits_value sec = Some v -> is_fraction frac = true ->
  (String.length sec + (String.length frac - 1) <= 15)%nat ->
  parseClockComment
    ("[%clk" ++ ws ++ h ++ ":" ++ m ++ ":" ++ sec ++ frac ++ "]" ++ rest)
  = Some (h ++ ":" ++ m ++ ":" ++ Z_toString v).
Proof. intros. now apply parseClockComment_annotation. Qed.

Lemma parseClockComment_truncates_witness :
  parseClockComment "[%clk 0:05:12.9]" = Some "0:05:12".
Proof.
  apply (parseClockComment_truncates " " "0" "05" "12" ".9" "" 12);
    try reflexivity.
  simpl. lia.
Defined.
End ClockAnnotation.

(** ** Service A: think time *)

Section ThinkTimeA.
Import JS ChessCom Vocabulary.

Lemma calculateTimeSpent_seconds currentTime previousTime :
  calculateTimeSpent currentTime previousTime
  = let timeSpent :=
      sub (clock_seconds previousTime) (clock_seconds currentTime) in
    if gt timeSpent (Int 0) then Some (toString timeSpent) else None.
Proof. reflexivity. Qed.

(** A think time that is kept is the text of a positive integer. *)
Lemma calculateTimeSpent_positive currentTime previousTime t :
  calculateTimeSpent currentTime previousTime = Some t ->
  exists n, 0 < n /\ t = Z_toString n /\ Number t = Int n.
Proof.
  rewrite calculateTimeSpent_seconds. cbv zeta.
  destruct (sub (clock_seconds previousTime) (clock_seconds currentTime))
    as [d|]; simpl; [|discriminate].
  destruct (Z.ltb_spec 0 d) as [Hd|Hd]; [|discriminate].
  intros [= <-]. exists d. auto using Number_toString.
Qed.

(** A difference that is not positive, or is not a number, is dropped. *)
Lemma calculateTimeSpent_dropped currentTime previousTime :
  gt (sub (clock_seconds previousTime) (clock_seconds currentTime)) (Int 0)
  = false ->
  calculateTimeSpent currentTime previousTime = None.
Proof.
  intros H. rewrite calculateTimeSpent_seconds. cbv zeta. now rewrite H.
Qed.

Lemma step_positive st token :
  Forall positive_time (clocks st) ->
  Forall positive_time (clocks (step st token)).
Proof.
  intros Hst. unfold step.
  destruct (Regex.search clockPattern token) as [clockMatch|]; [|exact Hst].
  destruct (is_set (parseClockComment (group_text 1 clockMatch)));
    [|exact Hst].
  cbn [clocks]. apply Forall_app. split; [exact Hst|].
  constructor; [|constructor].
  intros t. cbn [timeSpent].
  destruct (isWhiteMove st && is_set (previousWhiteTime st)).
  - apply calculateTimeSpent_positive.
  - destruct (negb (isWhiteMove st) && is_set (previousBlackTime st)).
    + apply calculateTimeSpent_positive.
    + discriminate.
Qed.

Lemma fold_step_positive tokens :
  forall st,
    Forall positive_time (clocks st) ->
    Forall positive_time (clocks (fold_left step tokens st)).
Proof.
  induction tokens as [|tok tokens IH]; intros st Hst; simpl; auto.
  apply IH, step_positive, Hst.
Qed.

Lemma formatPGN_positive pgn :
  Forall positive_time (clocks_of (formatPGN pgn)).
Proof.
  unfold formatPGN, finish, run. cbn [clocks_of].
  apply fold_step_positive. constructor.
Qed.
End ThinkTimeA.

(** ** Service B: think time *)

Section ThinkTimeB.
Import JS Lichess Vocabulary.

Lemma formatClockTime_numbers c :
  map Number (split ":" (formatClockTime c))
  = [Int (c / 100 / 60); Int (Z.rem (c / 100) 60)].
Proof.
  unfold formatClockTime. cbv zeta.
  change (Z_toString (c / 100 / 60) ++ ":"
          ++ padStart2 (Z_toString (Z.rem (c / 100) 60)))
    with (Z_toString (c / 100 / 60)
          ++ String ":" (padStart2 (Z_toString (Z.rem (c / 100) 60)))).
  rewrite split_at by (apply Z_toString_without; reflexivity).
  rewrite split_without by (apply padStart2_without; reflexivity).
  simpl. now rewrite Number_toString, Number_padStart2.
Qed.

(** For a reading that is not negative these are its whole seconds. *)
Lemma reading_seconds_whole c : 0 <= c -> reading_seconds c = c / 100.
Proof.
  intros Hc. unfold reading_seconds.
  assert (0 <= c / 100) by (apply Z.div_pos; lia).
  rewrite Z.rem_mod_nonneg by lia.
  pose proof (Z.div_mod (c / 100) 60 ltac:(lia)). lia.
Qed.

Lemma formatClockTime_set c : is_set (Some (formatClockTime c)) = true.
Proof. unfold formatClockTime. cbv zeta. apply truthy_app_char. Qed.

(** The think time between two readings. *)
Lemma calculateTimeSpent_readings current previous inc :
  calculateTimeSpent (Some (formatClockTime current))
    (Some (formatClockTime previous)) inc
  = if reading_seconds previous - reading_seconds current + inc <=? 0
    then None
    else Some (Z_toString
                 (reading_seconds previous - reading_seconds current + inc)
               ++ "s").
Proof.
  unfold calculateTimeSpent. rewrite !formatClockTime_set.
  cbn [negb orb value]. rewrite !formatClockTime_numbers.
  reflexivity.
Qed.

Lemma calculateTimeSpent_absent current previous inc :
  is_set current = false \/ is_set previous = false ->
  calculateTimeSpent current previous inc = None.
Proof.
  unfold calculateTimeSpent. intros [-> | ->]; simpl; auto.
  now rewrite orb_true_r.
Qed.

(** Behind a text that does not start with [0x] the prefix read is the
    decimal one. *)
Lemma unsigned_prefix_decimal c t :
  (forall x t', t = String x t' ->
                Ascii.eqb x "x" || Ascii.eqb x "X" = false) ->
  unsigned_prefix (String c t)
  = digits_value (fst (span_digits (String c t))).
Proof.
  destruct t as [|x t']; [reflexivity|]. intros H. unfold unsigned_prefix.
  now rewrite (H x t' eq_refl), andb_false_r.
Qed.

(** [parseInt] reads the decimal text of [n] in front of anything that
    starts with neither a digit nor the letter of the base-16 prefix. *)
Lemma parseInt_digits n rest :
  0 <= n -> stops is_digit rest = true ->
  stops (fun c => Ascii.eqb c "x" || Ascii.eqb c "X") rest = true ->
  parseInt (Z_toString n ++ rest) = Int n.
Proof.
  intros Hn Hrest Hx. destruct (Z_toString_nonneg n Hn) as [Hd Hv].
  unfold parseInt.
  destruct (is_digits_first _ Hd) as (c & t & E & Hc & Ht).
  assert (trimStart (Z_toString n ++ rest) = Z_toString n ++ rest) as ->.
  { rewrite E. simpl. now rewrite (digit_not_space c Hc). }
  rewrite E at 1. cbn [append].
  rewrite (digit_differs c "-") by (auto; reflexivity).
  rewrite (digit_differs c "+") by (auto; reflexivity).
  rewrite unsigned_prefix_decimal.
  - change (String c (t ++ rest)) with (String c t ++ rest). rewrite <- E.
    rewrite span_digits_run by (auto using is_digits_all).
    simpl. now rewrite Hv.
  - intros x t' Ex. destruct t as [|d t0]; cbn [append] in Ex.
    + subst rest. cbn [stops] in Hx. now apply negb_true_iff in Hx.
    + injection Ex as <- _. unfold all_digits in Ht. cbn [all] in Ht.
      apply andb_true_iff in Ht as [Hdd _].
      rewrite (digit_differs d "x"), (digit_differs d "X");
        auto; reflexivity.
Qed.

Lemma parseInt_seconds n :
  0 < n -> parseInt (Z_toString n ++ "s") = Int n.
Proof. intros Hn. apply parseInt_digits; [lia|reflexivity|reflexivity]. Qed.

Lemma calculateTimeSpent_formatted current previous inc t :
  formatted current -> formatted previous ->
  calculateTimeSpent current previous inc = Some t ->
  exists n, 0 < n /\ t = Z_toString n ++ "s" /\ parseInt t = Int n.
Proof.
  intros [->|[c ->]] Hprev.
  - rewrite calculateTimeSpent_absent by (now left). discriminate.
  - destruct Hprev as [->|[p ->]].
    + rewrite calculateTimeSpent_absent by (now right). discriminate.
    + rewrite calculateTimeSpent_readings.
      destruct (Z.leb_spec (reading_seconds p - reading_seconds c + inc) 0)
        as [Hle|Hgt]; [discriminate|].
      intros [= <-]. eexists. split; [exact Hgt|].
      split; [reflexivity|]. now apply parseInt_seconds.
Qed.

Lemma clock_at_formatted game i : formatted (clock_at game i).
Proof.
  unfold clock_at, formatted. destruct (clocks game) as [cs|]; auto.
  destruct (i <? List.length cs)%nat; auto.
  destruct (nth_error cs i) as [c|]; simpl; eauto.
Qed.

Lemma loop_positive game tokens :
  forall i pw pb,
    formatted pw -> formatted pb ->
    Forall positive_move (loop game i tokens pw pb).
Proof.
  induction tokens as [|mv tokens IH]; intros i pw pb Hw Hb; simpl.
  - constructor.
  - pose proof (clock_at_formatted game i) as Hc.
    destruct (truthy (trim mv)); [|now apply IH].
    constructor.
    + destruct (Z.of_nat i mod 2 =? 0); intros t [Ht|Ht];
        cbn [timeSpentWhite timeSpentBlack] in Ht; try discriminate;
        refine (calculateTimeSpent_formatted _ _ _ _ _ _ Ht); assumption.
    + destruct (Z.of_nat i mod 2 =? 0); now apply IH.
Qed.

Lemma moves_of_positive game : Forall positive_move (moves_of game).
Proof. apply loop_positive; now left. Qed.
End ThinkTimeB.

(** ** Think time is positive when it is present *)

Section ThinkTime.
Import JS Vocabulary.

(** C2.  In the records of both adapters a think time that is present is the
    text of an integer strictly greater than 0 (followed by [s] for
    service B), and a raw think time (previous clock minus current clock of
    the same colour, plus the increment for service B only) that is 0 or
    less gives an absent think time. *)
Theorem timeSpent_present_is_positive :
  (forall pgn c t,
      In c (ChessCom.clocks_of (ChessCom.formatPGN pgn)) ->
      ChessCom.timeSpent c = Some t ->
      exists n, 0 < n /\ t = Z_toString n /\ Number t = Int n)
  /\ (forall currentTime previousTime a b,
        clock_seconds previousTime = Int a ->
        clock_seconds currentTime = Int b ->
        a - b <= 0 ->
        ChessCom.calculateTimeSpent currentTime previousTime = None)
  /\ (forall game m t,
        In m (Lichess.moves_of game) ->
        Lichess.timeSpentWhite m = Some t
        \/ Lichess.timeSpentBlack m = Some t ->
        exists n, 0 < n /\ t = Z_toString n ++ "s" /\ parseInt t = Int n)
  /\ (forall current previous inc,
        reading_seconds previous - reading_seconds current + inc <= 0 ->
        Lichess.calculateTimeSpent
          (Some (Lichess.formatClockTime current))
          (Some (Lichess.formatClockTime previous)) inc = None).
Proof.
  repeat split.
  - intros pgn c t Hin.
    pose proof (formatPGN_positive pgn) as H.
    rewrite Forall_forall in H. apply (H c Hin).
  - intros cur prev a b Ha Hb Hle.
    apply calculateTimeSpent_dropped. rewrite Ha, Hb. simpl.
    apply Z.ltb_ge. lia.
  - intros game m t Hin.
    pose proof (moves_of_positive game) as H.
    rewrite Forall_forall in H. apply (H m Hin).
  - intros current previous inc Hle.
    rewrite calculateTimeSpent_readings.
    now apply Z.leb_le in Hle as ->.
Qed.

Lemma timeSpent_present_is_positive_witness :
  ChessCom.calculateTimeSpent "0:09:50" "0:09:00" = None
  /\ Lichess.calculateTimeSpent
       (Some (Lichess.formatClockTime 17800))
       (Some (Lichess.formatClockTime 18000)) (-2) = None
  /\ exists n, 0 < n /\ "10" = Z_toString n /\ Number "10" = Int n.
Proof.
  split; [|split].
  - apply (proj1 (proj2 timeSpent_present_is_positive)
             "0:09:50" "0:09:00" 540 590); [reflexivity|reflexivity|lia].
  - apply (proj2 (proj2 (proj2 timeSpent_present_is_positive))).
    vm_compute. discriminate.
  - apply (proj1 timeSpent_present_is_positive
             "1. e4 {[%clk 0:10:00]} 1... e5 {[%clk 0:10:00]} 2. d4 {[%clk 0:09:50]}"
             {| ChessCom.time := "0:09:50"; ChessCom.moveText := "d4";
                ChessCom.moveNumber := 2; ChessCom.isWhite := true;
                ChessCom.timeSpent := Some "10" |}).
    + vm_compute. right. right. left. reflexivity.
    + reflexivity.
Defined.

(** The two examples of the specification. *)
Example think_time_examples :
  ChessCom.calculateTimeSpent "0:09:50" "0:10:00" = Some "10"
  /\ ChessCom.calculateTimeSpent "0:09:50" "0:09:00" = None.
Proof. split; reflexivity. Qed.
End ThinkTime.

(** ** Service B: one move object per ply *)

Section Plies.
Import JS Lichess Vocabulary.

Lemma loop_nth game tokens :
  forall i0 pw pb j mv,
    nth_error tokens j = Some mv ->
    truthy (trim mv) = true ->
    exists previous,
      nth_error (loop game i0 tokens pw pb)
                (List.length (nonblank (firstn j tokens)))
      = Some (move_object (i0 + j) mv (clock_at game (i0 + j))
                (calculateTimeSpent (clock_at game (i0 + j)) previous
                   (increment_of game))).
Proof.
  induction tokens as [|a tokens IH]; intros i0 pw pb j mv Hj Hmv.
  - destruct j; discriminate.
  - destruct j as [|j]; simpl in Hj.
    + injection Hj as ->. simpl. rewrite Hmv, Nat.add_0_r.
      unfold move_object.
      destruct (Z.of_nat i0 mod 2 =? 0); simpl; eauto.
    + replace (i0 + S j)%nat with (S i0 + j)%nat by lia.
      unfold nonblank in *. simpl.
      destruct (truthy (trim a)); simpl; apply IH; auto.
Qed.

Lemma clock_at_guard game i :
  (clocks game = None
   \/ exists cs, clocks game = Some cs /\ (List.length cs <= i)%nat) ->
  clock_at game i = None.
Proof.
  unfold clock_at. intros [->|(cs & -> & Hlen)]; auto.
  now apply Nat.ltb_ge in Hlen as ->.
Qed.

Lemma clock_at_reading game i cs c :
  clocks game = Some cs -> nth_error cs i = Some c ->
  clock_at game i = Some (formatClockTime c).
Proof.
  unfold clock_at. intros -> Hc.
  assert ((i <? List.length cs)%nat = true) as ->.
  { apply Nat.ltb_lt, nth_error_Some. congruence. }
  now rewrite Hc.
Qed.

(** C10.  In service B every non-blank ply token at index [i] of the move
    list gives a move object, at the place of the token among the non-blank
    ones, with that move, the move number [floor(i/2) + 1] and the white keys
    for an even [i], the black keys for an odd one.  The clock array is read
    only below its length: when it is missing or has no entry at [i] the
    clock and the think time of the object are absent; when it has one, the
    clock is the text of that entry. *)
Theorem every_ply_has_a_move game i mv :
  nth_error (split " " (moves game)) i = Some mv ->
  truthy (trim mv) = true ->
  exists clock spent,
    nth_error (moves_of game)
              (List.length (nonblank (firstn i (split " " (moves game)))))
    = Some (move_object i mv clock spent)
    /\ move (move_object i mv clock spent) = mv
    /\ moveNumber (move_object i mv clock spent) = Z.of_nat i / 2 + 1
    /\ (Z.of_nat i mod 2 = 0 ->
        move_object i mv clock spent
        = WhiteMove mv (Z.of_nat i / 2 + 1) clock spent)
    /\ (Z.of_nat i mod 2 <> 0 ->
        move_object i mv clock spent
        = BlackMove mv (Z.of_nat i / 2 + 1) clock spent)
    /\ (clocks game = None
        \/ (exists cs, clocks game = Some cs /\ (List.length cs <= i)%nat) ->
        clock = None /\ spent = None)
    /\ (forall cs c,
          clocks game = Some cs -> nth_error cs i = Some c ->
          clock = Some (formatClockTime c)).
Proof.
  intros Hi Hmv.
  destruct (loop_nth game (split " " (moves game)) 0 None None i mv Hi Hmv)
    as [previous Hnth].
  simpl Nat.add in Hnth.
  exists (clock_at game i),
         (calculateTimeSpent (clock_at game i) previous (increment_of game)).
  split; [exact Hnth|].
  unfold move_object.
  repeat split.
  - now destruct (Z.of_nat i mod 2 =? 0).
  - now destruct (Z.of_nat i mod 2 =? 0).
  - intros Heven. now apply Z.eqb_eq in Heven as ->.
  - intros Hodd. now apply Z.eqb_neq in Hodd as ->.
  - now apply clock_at_guard.
  - rewrite (clock_at_guard game i H). reflexivity.
  - intros cs c Hcs Hc. now apply clock_at_reading with cs.
Qed.

Lemma every_ply_has_a_move_witness :
  exists clock spent,
    nth_error (moves_of Samples.short_clock_array) 2
    = Some (WhiteMove "Nf3" 2 clock spent)
    /\ clock = None /\ spent = None.
Proof.
  destruct (every_ply_has_a_move Samples.short_clock_array 2 "Nf3"
              eq_refl eq_refl)
    as (clock & spent & Hnth & _ & _ & Hwhite & _ & Hnone & _).
  exists clock, spent. split.
  - change (WhiteMove "Nf3" 2 clock spent)
      with (WhiteMove "Nf3" (Z.of_nat 2 / 2 + 1) clock spent).
    rewrite <- (Hwhite eq_refl). exact Hnth.
  - apply Hnone. right. exists [18000]. split; [reflexivity|simpl; lia].
Defined.
End Plies.

(** ** Service A: the loop over the ply tokens *)

Section PlyLoop.
Import JS ChessCom Vocabulary.

(** A token with an annotation that holds no clock leaves every variable of
    the loop as it was: the ply is neither kept in the text nor counted. *)
Lemma step_unrecorded st token :
  recorded token = false -> step st token = st.
Proof.
  unfold recorded, step.
  destruct (Regex.search clockPattern token) as [m|]; [|discriminate].
  now intros ->.
Qed.

(** A recorded token is kept in the text, flips the colour, and moves the
    counter on after a black ply. *)
Lemma step_recorded st token :
  recorded token = true ->
  isWhiteMove (step st token) = negb (isWhiteMove st)
  /\ currentMoveNumber (step st token)
     = (if isWhiteMove st then currentMoveNumber st
        else currentMoveNumber st + 1)
  /\ List.length (formattedMoves (step st token))
     = S (List.length (formattedMoves st)).
Proof.
  unfold recorded, step.
  destruct (Regex.search clockPattern token) as [m|].
  - intros ->. cbn [isWhiteMove currentMoveNumber formattedMoves].
    rewrite List.length_app. simpl. repeat split. lia.
  - intros _. cbn [isWhiteMove currentMoveNumber formattedMoves].
    rewrite List.length_app. simpl. repeat split. lia.
Qed.

Lemma run_snoc tokens token : run (tokens ++ [token]) = step (run tokens) token.
Proof. unfold run. now rewrite fold_left_app. Qed.

Lemma half_succ n :
  0 <= n ->
  (if Z.even n then 1 + n / 2 else 1 + n / 2 + 1) = 1 + (n + 1) / 2.
Proof.
  intros Hn. destruct (Z.even n) eqn:E.
  - apply Z.even_spec in E as [k ->]. Z.div_mod_to_equations. lia.
  - assert (Z.odd n = true) as O by (rewrite <- Z.negb_even, E; reflexivity).
    apply Z.odd_spec in O as [k ->]. Z.div_mod_to_equations. lia.
Qed.

(** The tokens that are not recorded are invisible to the loop. *)
Lemma fold_step_skips tokens :
  forall st,
    fold_left step tokens st = fold_left step (filter recorded tokens) st.
Proof.
  induction tokens as [|token tokens IH]; intros st; simpl; [reflexivity|].
  destruct (recorded token) eqn:E; simpl.
  - apply IH.
  - rewrite (step_unrecorded st token E). apply IH.
Qed.

Lemma run_skips_unrecorded tokens : run tokens = run (filter recorded tokens).
Proof. apply fold_step_skips. Qed.

(** When every token is recorded, the colour alternates from white and the
    counter moves on once after each black ply. *)
Lemma run_recorded tokens :
  forallb recorded tokens = true ->
  isWhiteMove (run tokens) = Z.even (Z.of_nat (List.length tokens))
  /\ currentMoveNumber (run tokens)
     = 1 + Z.of_nat (List.length tokens) / 2
  /\ List.length (formattedMoves (run tokens)) = List.length tokens.
Proof.
  induction tokens as [|token tokens IH] using rev_ind; intros Hall.
  - repeat split.
  - rewrite forallb_app in Hall. apply andb_true_iff in Hall as [Hall Htok].
    simpl in Htok. rewrite andb_true_r in Htok.
    destruct (IH Hall) as (Hw & Hn & Hlen).
    destruct (step_recorded (run tokens) token Htok) as (Hw' & Hn' & Hlen').
    rewrite run_snoc, Hw', Hn', Hlen', Hw, Hn, Hlen.
    rewrite List.length_app. simpl List.length.
    replace (Z.of_nat (List.length tokens + 1))
      with (Z.of_nat (List.length tokens) + 1) by lia.
    repeat split.
    + rewrite Z.add_1_r, Z.even_succ, <- Z.negb_even. reflexivity.
    + apply half_succ. lia.
    + lia.
Qed.

(** The example of the specification: four plies with a clock each. *)
Example four_plies_with_clocks :
  let clocks :=
    clocks_of
      (formatPGN
         "1. e4 {[%clk 0:10:00]} 1... e5 {[%clk 0:09:58]} 2. Nf3 {[%clk 0:09:55]} 2... Nc6 {[%clk 0:09:50]}") in
  map moveNumber clocks = [1; 1; 2; 2]
  /\ map isWhite clocks = [true; false; true; false].
Proof. split; reflexivity. Qed.

(** C4 (code defect, evaluated).  The white ply [1. e4 {book}] carries an
    annotation without a clock: the loop passes over it without flipping the
    colour, and the black ply that follows is recorded as a white one. *)
Theorem annotation_without_clock_keeps_colour :
  let pgn := "1. e4 {book} 1... e5 {[%clk 0:09:58]} 2. Nf3 {[%clk 0:09:55]}" in
  ply_tokens (move_section pgn)
  = ["1. e4 {book}"; "1... e5 {[%clk 0:09:58]}"; "2. Nf3 {[%clk 0:09:55]}"]
  /\ map moveText (clocks_of (formatPGN pgn)) = ["e5"; "Nf3"]
  /\ map isWhite (clocks_of (formatPGN pgn)) = [true; false]
  /\ map moveNumber (clocks_of (formatPGN pgn)) = [1; 1].
Proof. repeat split; reflexivity. Qed.

(** C6 (code defect, evaluated).  The same ply is missing from the flattened
    move text. *)
Theorem annotation_without_clock_drops_ply :
  let pgn := "1. e4 {book} 1... e5 {[%clk 0:09:58]} 2. Nf3 {[%clk 0:09:55]}" in
  text (formatPGN pgn) = "1... e5 2. Nf3"
  /\ includes (text (formatPGN pgn)) "e4" = false
  /\ recorded "1. e4 {book}" = false.
Proof. repeat split; reflexivity. Qed.

(** A ply without any annotation is kept in the text and gives no record. *)
Example ply_without_annotation :
  let pgn := "1. e4 1... e5 {[%clk 0:09:58]}" in
  text (formatPGN pgn) = "1. e4 1... e5"
  /\ map moveText (clocks_of (formatPGN pgn)) = ["e5"]
  /\ map isWhite (clocks_of (formatPGN pgn)) = [false].
Proof. repeat split; reflexivity. Qed.
End PlyLoop.

(** ** Lists: traversal and sorting *)

Section Lists.
Import JS.
Context {A B : Type}.

Lemma insert_desc_length (key : A -> Z) x l :
  List.length (insert_desc key x l) = S (List.length l).
Proof.
  induction l as [|y l IH]; simpl; auto.
  destruct (key y <=? key x); simpl; auto.
Qed.

Lemma sort_desc_length (key : A -> Z) l :
  List.length (sort_desc key l) = List.length l.
Proof.
  induction l as [|x l IH]; simpl; auto.
  now rewrite insert_desc_length, IH.
Qed.

Lemma insert_desc_In (key : A -> Z) x l y :
  In y (insert_desc key x l) <-> y = x \/ In y l.
Proof.
  induction l as [|z l IH]; simpl.
  - intuition.
  - destruct (key z <=? key x); simpl; rewrite ?IH; intuition.
Qed.

Lemma sort_desc_In (key : A -> Z) l y : In y (sort_desc key l) <-> In y l.
Proof.
  induction l as [|x l IH]; simpl; [tauto|].
  rewrite insert_desc_In, IH. intuition.
Qed.

Lemma traverse_Return (f : A -> completion B) l ys :
  traverse f l = Return ys -> Forall2 (fun x y => f x = Return y) l ys.
Proof.
  revert ys. induction l as [|x l IH]; simpl; intros ys.
  - intros [= <-]. constructor.
  - destruct (f x) as [y|e] eqn:Hx; [|discriminate].
    destruct (traverse f l) as [ys'|e]; [|discriminate].
    intros [= <-]. constructor; auto.
Qed.

Lemma traverse_Throw_first (f : A -> completion B) x l e :
  f x = Throw e -> traverse f (x :: l) = Throw e.
Proof. simpl. now intros ->. Qed.
End Lists.

(** ** The adapters: what the caller receives *)

Section Adapters.
Import JS Vocabulary.

(** The [catch] block leaves an [Error] of any kind alone and replaces
    anything else. *)
Lemma surfaced_Error name message :
  surfaced (ErrorObject name message) = ErrorObject name message.
Proof. reflexivity. Qed.

Lemma surfaced_other description :
  surfaced (OtherValue description) = new_Error "No games found".
Proof. reflexivity. Qed.

Lemma chesscom_handler e : ChessCom.handler e = Throw (surfaced e).
Proof.
  unfold ChessCom.handler, surfaced. now destruct (instanceof_Error e).
Qed.

Lemma lichess_handler e : Lichess.handler e = Throw (surfaced e).
Proof. unfold Lichess.handler, surfaced. now destruct (instanceof_Error e). Qed.

Lemma not_found_surfaced :
  surfaced (new_Error "No games found") = new_Error "No games found".
Proof. reflexivity. Qed.

Lemma nonempty_of_length {A} (l : list A) :
  (List.length l =? 0)%nat = false -> l <> [].
Proof. destruct l; [discriminate|congruence]. Qed.

Lemma chesscom_attempt_nonempty fetch Date_getTime Date_local
    username startDate endDate gameType gs :
  ChessCom.attempt fetch Date_getTime Date_local
    username startDate endDate gameType = Return gs ->
  gs <> [].
Proof.
  unfold ChessCom.attempt, bind.
  destruct (fetch _) as [response|]; [|discriminate].
  destruct (negb (ChessCom.ok response)); [discriminate|].
  destruct (ChessCom.json response) as [data|]; [|discriminate].
  destruct (ChessCom.archives data) as [urls|]; [|discriminate].
  destruct (traverse _ _) as [mapped|]; [|discriminate].
  cbv zeta.
  destruct (List.length _ =? 0)%nat eqn:Hlen; [discriminate|].
  intros [= <-]. now apply nonempty_of_length.
Qed.

Lemma lichess_attempt_nonempty fetch JSON_parse Date_getTime Date_now
    minutes_text username gameType startDate endDate gs :
  Lichess.attempt fetch JSON_parse Date_getTime Date_now minutes_text
    username gameType startDate endDate = Return gs ->
  gs <> [].
Proof.
  unfold Lichess.attempt, bind.
  destruct (fetch _) as [response|]; [|discriminate].
  destruct (negb (Lichess.ok response)); [discriminate|].
  destruct (Lichess.text response) as [body|]; [|discriminate].
  destruct (negb (truthy (trim body))); [discriminate|].
  destruct (traverse JSON_parse _) as [games|]; [|discriminate].
  destruct (traverse _ _) as [mapped|]; [|discriminate].
  cbv zeta.
  destruct (List.length _ =? 0)%nat eqn:Hlen; [discriminate|].
  intros [= <-]. now apply nonempty_of_length.
Qed.

(** C8.  Both fetch operations never return an empty list: a successful
    return is a non-empty list, and when the [try] block gets as far as the
    filters and no game survives them, the caller receives the [Error]
    ['No games found']. *)
Theorem no_qualifying_game_fails :
  (forall fetch Date_getTime Date_local username startDate endDate gameType gs,
      ChessCom.fetchChessComGames fetch Date_getTime Date_local
        username startDate endDate gameType = Return gs ->
      gs <> [])
  /\ (forall fetch Date_getTime Date_local username startDate endDate gameType
             response data urls,
        fetch (ChessCom.archives_url username) = Return response ->
        ChessCom.ok response = true ->
        ChessCom.json response = Return data ->
        ChessCom.archives data = Some urls ->
        ChessCom.qualifying username gameType
          (ChessCom.startTimestamp_of Date_getTime startDate)
          (ChessCom.endTimestamp_of Date_getTime endDate)
          (ChessCom.allGames_of fetch Date_local
             (ChessCom.startTimestamp_of Date_getTime startDate)
             (ChessCom.endTimestamp_of Date_getTime endDate) urls) = [] ->
        ChessCom.fetchChessComGames fetch Date_getTime Date_local
          username startDate endDate gameType
        = Throw (new_Error "No games found"))
  /\ (forall fetch JSON_parse Date_getTime Date_now minutes_text
             username gameType startDate endDate gs,
        Lichess.fetchLichessGames fetch JSON_parse Date_getTime Date_now
          minutes_text username gameType startDate endDate = Return gs ->
        gs <> [])
  /\ (forall fetch JSON_parse Date_getTime Date_now minutes_text
             username gameType startDate endDate response body games,
        fetch (Lichess.games_url Date_getTime Date_now
                 username gameType startDate endDate) = Return response ->
        Lichess.ok response = true ->
        Lichess.text response = Return body ->
        truthy (trim body) = true ->
        traverse JSON_parse (split "010" (trim body)) = Return games ->
        Lichess.qualifying username games = [] ->
        Lichess.fetchLichessGames fetch JSON_parse Date_getTime Date_now
          minutes_text username gameType startDate endDate
        = Throw (new_Error "No games found")).
Proof.
  split; [|split; [|split]].
  - intros fetch Date_getTime Date_local username startDate endDate gameType gs.
    unfold ChessCom.fetchChessComGames, try_catch.
    destruct (ChessCom.attempt _ _ _ _ _ _ _) as [gs'|e] eqn:Hrun.
    + intros [= <-]. eapply chesscom_attempt_nonempty, Hrun.
    + rewrite chesscom_handler. discriminate.
  - intros fetch Date_getTime Date_local username startDate endDate gameType
           response data urls Hfetch Hok Hjson Harch Hnone.
    unfold ChessCom.fetchChessComGames, ChessCom.attempt, bind.
    rewrite Hfetch, Hok. cbn [negb]. rewrite Hjson, Harch, Hnone.
    reflexivity.
  - intros fetch JSON_parse Date_getTime Date_now minutes_text
           username gameType startDate endDate gs.
    unfold Lichess.fetchLichessGames, try_catch.
    destruct (Lichess.attempt _ _ _ _ _ _ _ _ _) as [gs'|e] eqn:Hrun.
    + intros [= <-]. eapply lichess_attempt_nonempty, Hrun.
    + rewrite lichess_handler. discriminate.
  - intros fetch JSON_parse Date_getTime Date_now minutes_text
           username gameType startDate endDate response body games
           Hfetch Hok Htext Hbody Hparse Hnone.
    unfold Lichess.fetchLichessGames, Lichess.attempt, bind.
    rewrite Hfetch, Hok. cbn [negb]. rewrite Htext, Hbody. cbn [negb].
    rewrite Hparse, Hnone. reflexivity.
Qed.

Lemma no_qualifying_game_fails_witness :
  Samples.chesscom_for [Samples.variant_game] "alice"
  = Throw (new_Error "No games found")
  /\ Samples.lichess_for Samples.alice_against_bot "alice"
     = Throw (new_Error "No games found").
Proof.
  split.
  - refine (proj1 (proj2 no_qualifying_game_fails) _ _ _ _ _ _ _ _ _ _
              _ _ _ _ _); reflexivity.
  - refine (proj2 (proj2 (proj2 no_qualifying_game_fails)) _ _ _ _ _ _ _ _ _
              _ _ _ _ _ _ _ _ _); reflexivity.
Defined.

(** C3 (as stated, refuted).  A JSON parse error and a network error reach
    the [catch] block as [Error] objects and come out of it as they went in,
    not as ['No games found']. *)
Lemma parse_and_network_errors_are_rethrown :
  Samples.lichess_malformed "alice" = Throw Samples.syntax_error
  /\ Samples.lichess_malformed "alice" <> Throw (new_Error "No games found")
  /\ Samples.chesscom_unreachable "alice" = Throw Samples.network_error
  /\ Samples.chesscom_unreachable "alice"
     <> Throw (new_Error "No games found").
Proof. repeat split; vm_compute; discriminate. Qed.

(** C3 (amended).  Whatever the [try] block of either adapter throws, the
    caller receives it unchanged when it is an [Error] object of any kind
    (the adapter's own ['No games found'], but also the [TypeError] of a
    failed request and the [SyntaxError] of the JSON decoder), and receives
    a new [Error] ['No games found'] only when the thrown value is not an
    [Error] object.  A failure of the one request of an adapter and a failure
    of the decoder on the first line of service B do reach the [catch]
    block. *)
Theorem catch_rethrows_errors :
  (forall name message, surfaced (ErrorObject name message)
                        = ErrorObject name message)
  /\ (forall description, surfaced (OtherValue description)
                          = new_Error "No games found")
  /\ (forall fetch Date_getTime Date_local
             username startDate endDate gameType e,
        ChessCom.attempt fetch Date_getTime Date_local
          username startDate endDate gameType = Throw e ->
        ChessCom.fetchChessComGames fetch Date_getTime Date_local
          username startDate endDate gameType = Throw (surfaced e))
  /\ (forall fetch Date_getTime Date_local
             username startDate endDate gameType e,
        fetch (ChessCom.archives_url username) = Throw e ->
        ChessCom.fetchChessComGames fetch Date_getTime Date_local
          username startDate endDate gameType = Throw (surfaced e))
  /\ (forall fetch JSON_parse Date_getTime Date_now minutes_text
             username gameType startDate endDate e,
        Lichess.attempt fetch JSON_parse Date_getTime Date_now minutes_text
          username gameType startDate endDate = Throw e ->
        Lichess.fetchLichessGames fetch JSON_parse Date_getTime Date_now
          minutes_text username gameType startDate endDate
        = Throw (surfaced e))
  /\ (forall fetch JSON_parse Date_getTime Date_now minutes_text
             username gameType startDate endDate e,
        fetch (Lichess.games_url Date_getTime Date_now
                 username gameType startDate endDate) = Throw e ->
        Lichess.fetchLichessGames fetch JSON_parse Date_getTime Date_now
          minutes_text username gameType startDate endDate
        = Throw (surfaced e))
  /\ (forall fetch JSON_parse Date_getTime Date_now minutes_text
             username gameType startDate endDate response body line rest e,
        fetch (Lichess.games_url Date_getTime Date_now
                 username gameType startDate endDate) = Return response ->
        Lichess.ok response = true ->
        Lichess.text response = Return body ->
        truthy (trim body) = true ->
        split "010" (trim body) = line :: rest ->
        JSON_parse line = Throw e ->
        Lichess.fetchLichessGames fetch JSON_parse Date_getTime Date_now
          minutes_text username gameType startDate endDate
        = Throw (surfaced e)).
Proof.
  split; [exact surfaced_Error|].
  split; [exact surfaced_other|].
  split; [|split; [|split; [|split]]].
  - intros fetch Date_getTime Date_local username startDate endDate gameType e
           Hrun.
    unfold ChessCom.fetchChessComGames. rewrite Hrun.
    apply chesscom_handler.
  - intros fetch Date_getTime Date_local username startDate endDate gameType e
           Hfetch.
    unfold ChessCom.fetchChessComGames, ChessCom.attempt, bind.
    rewrite Hfetch. apply chesscom_handler.
  - intros fetch JSON_parse Date_getTime Date_now minutes_text
           username gameType startDate endDate e Hrun.
    unfold Lichess.fetchLichessGames. rewrite Hrun. apply lichess_handler.
  - intros fetch JSON_parse Date_getTime Date_now minutes_text
           username gameType startDate endDate e Hfetch.
    unfold Lichess.fetchLichessGames, Lichess.attempt, bind.
    rewrite Hfetch. apply lichess_handler.
  - intros fetch JSON_parse Date_getTime Date_now minutes_text
           username gameType startDate endDate response body line rest e
           Hfetch Hok Htext Hbody Hsplit Hparse.
    unfold Lichess.fetchLichessGames, Lichess.attempt, bind.
    rewrite Hfetch, Hok. cbn [negb]. rewrite Htext, Hbody. cbn [negb].
    rewrite Hsplit, (traverse_Throw_first _ _ _ _ Hparse).
    apply lichess_handler.
Qed.

Lemma catch_rethrows_errors_witness :
  Samples.chesscom_unreachable "alice" = Throw Samples.network_error
  /\ Samples.lichess_malformed "alice" = Throw Samples.syntax_error.
Proof.
  split.
  - refine (proj1 (proj2 (proj2 (proj2 catch_rethrows_errors)))
              _ _ _ _ _ _ _ Samples.network_error _).
    reflexivity.
  - refine (proj2 (proj2 (proj2 (proj2 (proj2 (proj2 catch_rethrows_errors)))))
              _ _ _ _ _ _ _ _ _ _ _ _ _ Samples.syntax_error _ _ _ _ _ _);
      reflexivity.
Defined.

(** *** The outcome and the rating of a game *)

(** Service A: the outcome and the rating are those of the queried side,
    white when the queried name is white's up to letter case, black
    otherwise. *)
Lemma chesscom_normalize_relative username game g :
  ChessCom.normalize username game = Return g ->
  let isWhite :=
    String.eqb (toLowerCase (ChessCom.username (ChessCom.white game)))
               (toLowerCase username) in
  ChessCom.Normalized.result g
  = (if String.eqb (ChessCom.result (ChessCom.white game)) "win"
     then if isWhite then ChessCom.Normalized.win
          else ChessCom.Normalized.loss
     else if String.eqb (ChessCom.result (ChessCom.black game)) "win"
          then if isWhite then ChessCom.Normalized.loss
               else ChessCom.Normalized.win
          else ChessCom.Normalized.draw)
  /\ ChessCom.Normalized.rating g
     = (if isWhite then ChessCom.rating (ChessCom.white game)
        else ChessCom.rating (ChessCom.black game)).
Proof.
  unfold ChessCom.normalize, bind.
  destruct (toISOString _) as [date|]; [|discriminate].
  intros [= <-]. split; reflexivity.
Qed.

(** Every game service A returns is the normal form of a fetched game. *)
Lemma chesscom_games_normalized fetch Date_getTime Date_local
    username startDate endDate gameType gs g :
  ChessCom.fetchChessComGames fetch Date_getTime Date_local
    username startDate endDate gameType = Return gs ->
  In g gs ->
  exists game, ChessCom.normalize username game = Return g.
Proof.
  unfold ChessCom.fetchChessComGames, try_catch.
  destruct (ChessCom.attempt _ _ _ _ _ _ _) as [gs'|e] eqn:Hrun;
    [|rewrite chesscom_handler; discriminate].
  intros [= <-]. revert Hrun. unfold ChessCom.attempt, bind.
  destruct (fetch _) as [response|]; [|discriminate].
  destruct (negb (ChessCom.ok response)); [discriminate|].
  destruct (ChessCom.json response) as [data|]; [|discriminate].
  destruct (ChessCom.archives data) as [urls|]; [|discriminate].
  destruct (traverse _ _) as [mapped|] eqn:Hmap; [|discriminate].
  cbv zeta. destruct (List.length _ =? 0)%nat; [discriminate|].
  intros [= <-] Hin. apply sort_desc_In in Hin.
  apply traverse_Return in Hmap.
  clear -Hmap Hin. induction Hmap as [|x y l ys Hxy _ IH]; [contradiction|].
  destruct Hin as [<-|Hin]; eauto.
Qed.

(** Service B: the outcome is white's and the rating is white's, whoever
    is queried. *)
Lemma lichess_normalize_absolute minutes_text game g :
  Lichess.normalize minutes_text game = Return g ->
  Lichess.Normalized.result g
  = match Lichess.winner game with
    | Some Lichess.White => Lichess.Normalized.win
    | Some Lichess.Black => Lichess.Normalized.loss
    | None => Lichess.Normalized.draw
    end
  /\ Lichess.Normalized.rating g
     = Lichess.rating (Lichess.white (Lichess.players game)).
Proof.
  unfold Lichess.normalize, bind.
  destruct (toISOString _) as [date|]; [|discriminate].
  intros [= <-]. split; [|reflexivity].
  simpl. destruct (Lichess.winner game) as [[|]|]; reflexivity.
Qed.

(** C1 (code defect, evaluated).  alice, white, beats bob; queried as bob,
    the black side, service B still answers [win]. *)
Theorem lichess_result_is_whites :
  exists g,
    Samples.lichess_for Samples.alice_beats_bob "bob" = Return [g]
    /\ Lichess.Normalized.whitePlayer g = "alice"
    /\ Lichess.Normalized.blackPlayer g = "bob"
    /\ Lichess.Normalized.result g = Lichess.Normalized.win.
Proof. eexists. repeat split. Qed.

(** C7 (code defect, evaluated).  In the same query the rating is 1500,
    alice's, while bob's in that game is 1400. *)
Theorem lichess_rating_is_whites :
  exists g,
    Samples.lichess_for Samples.alice_beats_bob "bob" = Return [g]
    /\ Lichess.Normalized.blackPlayer g = "bob"
    /\ Lichess.rating (Lichess.black (Lichess.players Samples.alice_beats_bob))
       = 1400
    /\ Lichess.Normalized.rating g = 1500.
Proof. eexists. repeat split. Qed.
End Adapters.

(** ** Sorting: order and content *)

Section Sorting.
Import JS Further.
Context {A : Type} (key : A -> Z).

Lemma insert_desc_Permutation x l :
  Permutation (insert_desc key x l) (x :: l).
Proof.
  induction l as [|y l IH]; simpl; [reflexivity|].
  destruct (key y <=? key x); [reflexivity|].
  rewrite IH. apply perm_swap.
Qed.

Lemma sort_desc_Permutation l : Permutation (sort_desc key l) l.
Proof.
  induction l as [|x l IH]; simpl; [reflexivity|].
  rewrite insert_desc_Permutation. now constructor.
Qed.

Lemma insert_desc_sorted x l :
  StronglySorted (newer_first key) l ->
  StronglySorted (newer_first key) (insert_desc key x l).
Proof.
  induction 1 as [|y l Hl IH Hy]; simpl.
  - repeat constructor.
  - destruct (Z.leb_spec (key y) (key x)) as [Hle|Hgt].
    + constructor; [now constructor|].
      constructor; [exact Hle|].
      rewrite Forall_forall in *. intros z Hz.
      specialize (Hy z Hz). unfold newer_first in *. lia.
    + constructor; [exact IH|].
      rewrite Forall_forall in *. intros z Hz.
      apply insert_desc_In in Hz as [->|Hz].
      * unfold newer_first. lia.
      * now apply Hy.
Qed.

Lemma sort_desc_sorted l :
  StronglySorted (newer_first key) (sort_desc key l).
Proof.
  induction l as [|x l IH]; simpl; [constructor|].
  now apply insert_desc_sorted.
Qed.
End Sorting.

(** ** The adapters: which games are returned, and in which order *)

Section Returned.
Import JS Vocabulary Further.

(** A successful run of service A went through every step of the [try]
    block. *)
Lemma chesscom_Return_inv fetch Date_getTime Date_local
    username startDate endDate gameType gs :
  ChessCom.fetchChessComGames fetch Date_getTime Date_local
    username startDate endDate gameType = Return gs ->
  exists response data urls mapped,
    fetch (ChessCom.archives_url username) = Return response
    /\ ChessCom.ok response = true
    /\ ChessCom.json response = Return data
    /\ ChessCom.archives data = Some urls
    /\ traverse (ChessCom.normalize username)
         (ChessCom.qualifying username gameType
            (ChessCom.startTimestamp_of Date_getTime startDate)
            (ChessCom.endTimestamp_of Date_getTime endDate)
            (ChessCom.allGames_of fetch Date_local
               (ChessCom.startTimestamp_of Date_getTime startDate)
               (ChessCom.endTimestamp_of Date_getTime endDate) urls))
       = Return mapped
    /\ gs = sort_desc ChessCom.Normalized.date mapped.
Proof.
  unfold ChessCom.fetchChessComGames, try_catch.
  destruct (ChessCom.attempt _ _ _ _ _ _ _) as [gs'|e] eqn:Hrun;
    [|rewrite chesscom_handler; discriminate].
  intros [= <-]. revert Hrun. unfold ChessCom.attempt, bind.
  destruct (fetch _) as [response|]; [|discriminate].
  destruct (ChessCom.ok response) eqn:Hok; [|discriminate]. cbn [negb].
  destruct (ChessCom.json response) as [data|] eqn:Hjson; [|discriminate].
  destruct (ChessCom.archives data) as [urls|] eqn:Harch; [|discriminate].
  destruct (traverse _ _) as [mapped|] eqn:Hmap; [|discriminate].
  cbv zeta. destruct (List.length _ =? 0)%nat; [discriminate|].
  intros [= <-]. exists response, data, urls, mapped. auto 10.
Qed.

Lemma lichess_Return_inv fetch JSON_parse Date_getTime Date_now minutes_text
    username gameType startDate endDate gs :
  Lichess.fetchLichessGames fetch JSON_parse Date_getTime Date_now
    minutes_text username gameType startDate endDate = Return gs ->
  exists response body games mapped,
    fetch (Lichess.games_url Date_getTime Date_now
             username gameType startDate endDate) = Return response
    /\ Lichess.ok response = true
    /\ Lichess.text response = Return body
    /\ truthy (trim body) = true
    /\ traverse JSON_parse (split "010" (trim body)) = Return games
    /\ traverse (Lichess.normalize minutes_text)
         (Lichess.qualifying username games) = Return mapped
    /\ gs = sort_desc Lichess.Normalized.date mapped.
Proof.
  unfold Lichess.fetchLichessGames, try_catch.
  destruct (Lichess.attempt _ _ _ _ _ _ _ _ _) as [gs'|e] eqn:Hrun;
    [|rewrite lichess_handler; discriminate].
  intros [= <-]. revert Hrun. unfold Lichess.attempt, bind.
  destruct (fetch _) as [response|]; [|discriminate].
  destruct (Lichess.ok response) eqn:Hok; [|discriminate]. cbn [negb].
  destruct (Lichess.text response) as [body|] eqn:Htext; [|discriminate].
  destruct (truthy (trim body)) eqn:Hbody; [|discriminate]. cbn [negb].
  destruct (traverse JSON_parse _) as [games|] eqn:Hparse; [|discriminate].
  destruct (traverse (Lichess.normalize _) _) as [mapped|] eqn:Hmap;
    [|discriminate].
  cbv zeta. destruct (List.length _ =? 0)%nat; [discriminate|].
  intros [= <-]. exists response, body, games, mapped. auto 10.
Qed.

(** What [traverse] returns holds the normal form of each element, and
    nothing else. *)
Lemma traverse_In {A B} (f : A -> completion B) l ys y :
  traverse f l = Return ys ->
  (In y ys <-> exists x, In x l /\ f x = Return y).
Proof.
  intros H. apply traverse_Return in H.
  induction H as [|x y' l ys Hxy _ IH]; simpl.
  - split; [contradiction|]. now intros (x & [] & _).
  - rewrite IH. split.
    + intros [<-|(x0 & Hin & Hx0)]; eauto.
    + intros (x0 & [<-|Hin] & Hx0); [left; congruence|eauto].
Qed.

(** X1.  The games either adapter returns are ordered by date, the most
    recent first. *)
Theorem returned_games_newest_first :
  (forall fetch Date_getTime Date_local username startDate endDate gameType gs,
      ChessCom.fetchChessComGames fetch Date_getTime Date_local
        username startDate endDate gameType = Return gs ->
      StronglySorted
        (fun a b => ChessCom.Normalized.date b <= ChessCom.Normalized.date a)
        gs)
  /\ (forall fetch JSON_parse Date_getTime Date_now minutes_text
             username gameType startDate endDate gs,
        Lichess.fetchLichessGames fetch JSON_parse Date_getTime Date_now
          minutes_text username gameType startDate endDate = Return gs ->
        StronglySorted
          (fun a b => Lichess.Normalized.date b <= Lichess.Normalized.date a)
          gs).
Proof.
  split.
  - intros fetch Date_getTime Date_local username startDate endDate gameType
           gs H.
    apply chesscom_Return_inv in H as (_ & _ & _ & mapped & _ & _ & _ & _ & _
                                       & ->).
    apply (sort_desc_sorted ChessCom.Normalized.date).
  - intros fetch JSON_parse Date_getTime Date_now minutes_text
           username gameType startDate endDate gs H.
    apply lichess_Return_inv in H as (_ & _ & _ & mapped & _ & _ & _ & _ & _
                                      & _ & ->).
    apply (sort_desc_sorted Lichess.Normalized.date).
Qed.

Lemma returned_games_newest_first_witness :
  exists gs,
    Samples.chesscom_for three_games "alice" = Return gs
    /\ map ChessCom.Normalized.date gs = [1700003600000; 1700000000000]
    /\ StronglySorted
         (fun a b => ChessCom.Normalized.date b <= ChessCom.Normalized.date a)
         gs.
Proof.
  eexists. split; [vm_compute; reflexivity|]. split; [reflexivity|].
  apply (proj1 returned_games_newest_first
           (Samples.serves three_games) Samples.no_date Samples.calendar
           "alice" None None "all").
  vm_compute. reflexivity.
Defined.

Lemma qualifying_In Date_getTime username gameType startDate endDate all game :
  In game
    (ChessCom.qualifying username gameType
       (ChessCom.startTimestamp_of Date_getTime startDate)
       (ChessCom.endTimestamp_of Date_getTime endDate) all)
  <-> In game all
      /\ passes Date_getTime username gameType startDate endDate game = true.
Proof.
  unfold ChessCom.qualifying, passes. rewrite !filter_In, !andb_true_iff.
  tauto.
Qed.

(** X2.  Service A returns exactly the fetched games that pass its five
    filters, each in its normal form: nothing else is returned and no such
    game is left out. *)
Theorem chesscom_returns_the_qualifying_games
    fetch Date_getTime Date_local username startDate endDate gameType
    response data urls gs :
  fetch (ChessCom.archives_url username) = Return response ->
  ChessCom.json response = Return data ->
  ChessCom.archives data = Some urls ->
  ChessCom.fetchChessComGames fetch Date_getTime Date_local
    username startDate endDate gameType = Return gs ->
  forall g,
    In g gs
    <-> exists game,
          In game
            (ChessCom.allGames_of fetch Date_local
               (ChessCom.startTimestamp_of Date_getTime startDate)
               (ChessCom.endTimestamp_of Date_getTime endDate) urls)
          /\ passes Date_getTime username gameType startDate endDate game
             = true
          /\ ChessCom.normalize username game = Return g.
Proof.
  intros Hfetch Hjson Harch H g.
  apply chesscom_Return_inv in H
    as (response' & data' & urls' & mapped & Hfetch' & _ & Hjson' & Harch'
        & Hmap & ->).
  assert (response' = response) as -> by congruence.
  assert (data' = data) as -> by congruence.
  assert (urls' = urls) as -> by congruence.
  rewrite sort_desc_In, (traverse_In _ _ _ g Hmap).
  split.
  - intros (game & Hin & Hg). apply qualifying_In in Hin as [Hin Hpass].
    eauto.
  - intros (game & Hin & Hpass & Hg). exists game. split; [|exact Hg].
    apply qualifying_In. auto.
Qed.

Lemma chesscom_returns_the_qualifying_games_witness :
  In earlier_returned
     match Samples.chesscom_for three_games "alice" with
     | Return gs => gs
     | Throw _ => []
     end
  <-> exists game,
        In game three_games
        /\ passes Samples.no_date "alice" "all" None None game = true
        /\ ChessCom.normalize "alice" game = Return earlier_returned.
Proof.
  exact (chesscom_returns_the_qualifying_games
           (Samples.serves three_games) Samples.no_date Samples.calendar
           "alice" None None "all" _ _ _ _
           eq_refl eq_refl eq_refl eq_refl earlier_returned).
Defined.

Lemma lichess_qualifying_In username games game :
  In game (Lichess.qualifying username games)
  <-> In game games
      /\ Lichess.standard_start game = true
      /\ Lichess.human_opponent username game = true.
Proof. unfold Lichess.qualifying. rewrite !filter_In. tauto. Qed.

(** X3.  Service B returns exactly the decoded games that start from the
    standard position and are played against a human, each in its normal
    form. *)
Theorem lichess_returns_the_qualifying_games
    fetch JSON_parse Date_getTime Date_now minutes_text
    username gameType startDate endDate response body games gs :
  fetch (Lichess.games_url Date_getTime Date_now
           username gameType startDate endDate) = Return response ->
  Lichess.text response = Return body ->
  traverse JSON_parse (split "010" (trim body)) = Return games ->
  Lichess.fetchLichessGames fetch JSON_parse Date_getTime Date_now
    minutes_text username gameType startDate endDate = Return gs ->
  forall g,
    In g gs
    <-> exists game,
          In game games
          /\ Lichess.standard_start game = true
          /\ Lichess.human_opponent username game = true
          /\ Lichess.normalize minutes_text game = Return g.
Proof.
  intros Hfetch Htext Hparse H g.
  apply lichess_Return_inv in H
    as (response' & body' & games' & mapped & Hfetch' & _ & Htext' & _
        & Hparse' & Hmap & ->).
  assert (response' = response) as -> by congruence.
  assert (body' = body) as -> by congruence.
  assert (games' = games) as -> by congruence.
  rewrite sort_desc_In, (traverse_In _ _ _ g Hmap).
  split.
  - intros (game & Hin & Hg).
    apply lichess_qualifying_In in Hin as (Hin & Hs & Hh). eauto 6.
  - intros (game & Hin & Hs & Hh & Hg). exists game. split; [|exact Hg].
    apply lichess_qualifying_In. auto.
Qed.

Lemma lichess_returns_the_qualifying_games_witness :
  In alice_beats_bob_returned
     match Samples.lichess_for Samples.alice_beats_bob "bob" with
     | Return gs => gs
     | Throw _ => []
     end
  <-> exists game,
        In game [Samples.alice_beats_bob]
        /\ Lichess.standard_start game = true
        /\ Lichess.human_opponent "bob" game = true
        /\ Lichess.normalize Samples.minutes_text game
           = Return alice_beats_bob_returned.
Proof.
  exact (lichess_returns_the_qualifying_games
           Samples.one_line (Samples.decodes_to Samples.alice_beats_bob)
           Samples.no_date 1700000200000 Samples.minutes_text
           "bob" "all" None None _ _ _ _
           eq_refl eq_refl eq_refl eq_refl alice_beats_bob_returned).
Defined.

(** The fields of a normal form of service A. *)
Lemma chesscom_normalize_fields username game g :
  ChessCom.normalize username game = Return g ->
  ChessCom.Normalized.id g = ChessCom.url game
  /\ ChessCom.Normalized.date g = ChessCom.end_time game * 1000
  /\ ChessCom.Normalized.whitePlayer g
     = ChessCom.username (ChessCom.white game)
  /\ ChessCom.Normalized.blackPlayer g
     = ChessCom.username (ChessCom.black game)
  /\ ChessCom.Normalized.gameType g
     = ChessCom.time_class game
       ++ (if ChessCom.rated game then " rated" else " casual")
  /\ ChessCom.Normalized.timeControl g
     = ChessCom.parseTimeControl (ChessCom.time_control game)
  /\ ChessCom.Normalized.pgn g
     = ChessCom.text (ChessCom.formatPGN (ChessCom.pgn game))
  /\ ChessCom.Normalized.clocks g
     = ChessCom.clocks_of (ChessCom.formatPGN (ChessCom.pgn game)).
Proof.
  unfold ChessCom.normalize, bind, toISOString.
  destruct (Z.abs _ <=? _); [|discriminate].
  intros [= <-]. repeat split.
Qed.

Lemma lichess_normalize_fields minutes_text game g :
  Lichess.normalize minutes_text game = Return g ->
  Lichess.Normalized.id g = Lichess.id game
  /\ Lichess.Normalized.date g = Lichess.createdAt game
  /\ Lichess.Normalized.whitePlayer g
     = Lichess.name (Lichess.user (Lichess.white (Lichess.players game)))
  /\ Lichess.Normalized.blackPlayer g
     = Lichess.name (Lichess.user (Lichess.black (Lichess.players game)))
  /\ Lichess.Normalized.moves g = Lichess.moves_of game.
Proof.
  unfold Lichess.normalize, bind, toISOString.
  destruct (Z.abs _ <=? _); [|discriminate].
  intros [= <-]. repeat split.
Qed.

Lemma chesscom_returned_from fetch Date_getTime Date_local
    username startDate endDate gameType gs g :
  ChessCom.fetchChessComGames fetch Date_getTime Date_local
    username startDate endDate gameType = Return gs ->
  In g gs ->
  exists game,
    passes Date_getTime username gameType startDate endDate game = true
    /\ ChessCom.normalize username game = Return g.
Proof.
  intros H Hin.
  apply chesscom_Return_inv in H
    as (response & data & urls & mapped & _ & _ & _ & _ & Hmap & ->).
  apply sort_desc_In in Hin.
  apply (traverse_In _ _ _ g Hmap) in Hin as (game & Hq & Hg).
  apply qualifying_In in Hq as [_ Hpass]. eauto.
Qed.

Lemma lichess_returned_from fetch JSON_parse Date_getTime Date_now
    minutes_text username gameType startDate endDate gs g :
  Lichess.fetchLichessGames fetch JSON_parse Date_getTime Date_now
    minutes_text username gameType startDate endDate = Return gs ->
  In g gs ->
  exists game,
    Lichess.standard_start game = true
    /\ Lichess.human_opponent username game = true
    /\ Lichess.normalize minutes_text game = Return g.
Proof.
  intros H Hin.
  apply lichess_Return_inv in H
    as (response & body & games & mapped & _ & _ & _ & _ & _ & Hmap & ->).
  apply sort_desc_In in Hin.
  apply (traverse_In _ _ _ g Hmap) in Hin as (game & Hq & Hg).
  apply lichess_qualifying_In in Hq as (_ & Hs & Hh). eauto.
Qed.

(** X4.  No game that either adapter returns is against a bot: the name of
    the queried player's opponent, in lower case, holds neither [bot] nor
    [computer] for service A, and none of [bot], [stockfish] and [engine]
    for service B. *)
Theorem returned_games_have_no_bot_opponent :
  (forall fetch Date_getTime Date_local username startDate endDate gameType
          gs g,
      ChessCom.fetchChessComGames fetch Date_getTime Date_local
        username startDate endDate gameType = Return gs ->
      In g gs ->
      let name :=
        opponent username (ChessCom.Normalized.whitePlayer g)
          (ChessCom.Normalized.blackPlayer g) in
      includes name "bot" = false /\ includes name "computer" = false)
  /\ (forall fetch JSON_parse Date_getTime Date_now minutes_text
             username gameType startDate endDate gs g,
        Lichess.fetchLichessGames fetch JSON_parse Date_getTime Date_now
          minutes_text username gameType startDate endDate = Return gs ->
        In g gs ->
        let name :=
          opponent username (Lichess.Normalized.whitePlayer g)
            (Lichess.Normalized.blackPlayer g) in
        includes name "bot" = false /\ includes name "stockfish" = false
        /\ includes name "engine" = false).
Proof.
  split.
  - intros fetch Date_getTime Date_local username startDate endDate gameType
           gs g H Hin.
    destruct (chesscom_returned_from _ _ _ _ _ _ _ _ _ H Hin)
      as (game & Hpass & Hg).
    apply chesscom_normalize_fields in Hg as (_ & _ & -> & -> & _).
    unfold passes in Hpass. apply andb_true_iff in Hpass as [_ Hh].
    unfold ChessCom.human_opponent in Hh. unfold opponent. cbv zeta.
    apply andb_true_iff in Hh as [H1 H2].
    now apply negb_true_iff in H1, H2.
  - intros fetch JSON_parse Date_getTime Date_now minutes_text
           username gameType startDate endDate gs g H Hin.
    destruct (lichess_returned_from _ _ _ _ _ _ _ _ _ _ _ H Hin)
      as (game & _ & Hh & Hg).
    apply lichess_normalize_fields in Hg as (_ & _ & -> & -> & _).
    unfold Lichess.human_opponent in Hh. unfold opponent. cbv zeta.
    destruct (Lichess.aiLevel _); [discriminate|].
    destruct (Lichess.aiLevel _); [discriminate|].
    destruct (includes _ "bot"); [discriminate|].
    destruct (includes _ "stockfish"); [discriminate|].
    destruct (includes _ "engine"); [discriminate|].
    auto.
Qed.

Lemma returned_games_have_no_bot_opponent_witness :
  exists gs,
    Samples.chesscom_for three_games "alice" = Return gs
    /\ map ChessCom.Normalized.blackPlayer gs = ["alice"; "carol"]
    /\ forall g, In g gs ->
         includes (opponent "alice" (ChessCom.Normalized.whitePlayer g)
                     (ChessCom.Normalized.blackPlayer g)) "bot" = false.
Proof.
  eexists. split; [vm_compute; reflexivity|]. split; [reflexivity|].
  intros g Hin.
  apply (proj1 returned_games_have_no_bot_opponent
           (Samples.serves three_games) Samples.no_date Samples.calendar
           "alice" None None "all" _ g eq_refl Hin).
Defined.

(** X5.  Every game service A returns ended inside the requested window
    and has the requested speed: [blitz] or [rapid] for the filter [all], the
    filter itself otherwise. *)
Theorem chesscom_returned_games_match_the_request
    fetch Date_getTime Date_local username startDate endDate gameType gs g :
  ChessCom.fetchChessComGames fetch Date_getTime Date_local
    username startDate endDate gameType = Return gs ->
  In g gs ->
  ChessCom.leq (ChessCom.startTimestamp_of Date_getTime startDate)
    (ChessCom.Millis (ChessCom.Normalized.date g)) = true
  /\ ChessCom.leq (ChessCom.Millis (ChessCom.Normalized.date g))
       (ChessCom.endTimestamp_of Date_getTime endDate) = true
  /\ exists speed,
       (ChessCom.Normalized.gameType g = speed ++ " rated"
        \/ ChessCom.Normalized.gameType g = speed ++ " casual")
       /\ (if String.eqb gameType "all"
           then speed = "blitz" \/ speed = "rapid"
           else speed = gameType).
Proof.
  intros H Hin.
  destruct (chesscom_returned_from _ _ _ _ _ _ _ _ _ H Hin)
    as (game & Hpass & Hg).
  apply chesscom_normalize_fields in Hg as (_ & -> & _ & _ & -> & _).
  unfold passes in Hpass. rewrite !andb_true_iff in Hpass.
  destruct Hpass as ((((Hwin & Htype) & _) & _) & _).
  unfold ChessCom.in_window in Hwin.
  destruct (ChessCom.end_time game =? 0); [discriminate|].
  apply andb_true_iff in Hwin as [Hs He].
  split; [exact Hs|]. split; [exact He|].
  exists (ChessCom.time_class game). split.
  - destruct (ChessCom.rated game); auto.
  - unfold ChessCom.of_type in Htype.
    destruct (String.eqb gameType "all").
    + apply orb_true_iff in Htype as [Ht|Ht]; apply String.eqb_eq in Ht; auto.
    + now apply String.eqb_eq in Htype.
Qed.

Lemma chesscom_returned_games_match_the_request_witness :
  In earlier_returned
     match Samples.chesscom_for three_games "alice" with
     | Return gs => gs
     | Throw _ => []
     end
  /\ exists speed,
       (ChessCom.Normalized.gameType earlier_returned = speed ++ " rated"
        \/ ChessCom.Normalized.gameType earlier_returned
           = speed ++ " casual")
       /\ (speed = "blitz" \/ speed = "rapid").
Proof.
  assert (Hin : In earlier_returned
                  match Samples.chesscom_for three_games "alice" with
                  | Return gs => gs
                  | Throw _ => []
                  end).
  { vm_compute. right. left. reflexivity. }
  split; [exact Hin|].
  exact (proj2 (proj2 (chesscom_returned_games_match_the_request
                         (Samples.serves three_games) Samples.no_date
                         Samples.calendar "alice" None None "all" _
                         earlier_returned eq_refl Hin))).
Defined.
End Returned.

(** ** The adapters: failures *)

Section Failures.
Import JS Vocabulary Further.

Lemma surfaced_is_Error e : instanceof_Error (surfaced e) = true.
Proof. now destruct e. Qed.

(** X6.  Whatever goes wrong, the caller of either adapter catches an
    [Error] object, never a value of another kind. *)
Theorem adapters_throw_only_errors :
  (forall fetch Date_getTime Date_local username startDate endDate gameType e,
      ChessCom.fetchChessComGames fetch Date_getTime Date_local
        username startDate endDate gameType = Throw e ->
      instanceof_Error e = true)
  /\ (forall fetch JSON_parse Date_getTime Date_now minutes_text
             username gameType startDate endDate e,
        Lichess.fetchLichessGames fetch JSON_parse Date_getTime Date_now
          minutes_text username gameType startDate endDate = Throw e ->
        instanceof_Error e = true).
Proof.
  split.
  - intros fetch Date_getTime Date_local username startDate endDate gameType e.
    unfold ChessCom.fetchChessComGames, try_catch.
    destruct (ChessCom.attempt _ _ _ _ _ _ _) as [gs|e']; [discriminate|].
    rewrite chesscom_handler. intros [= <-]. apply surfaced_is_Error.
  - intros fetch JSON_parse Date_getTime Date_now minutes_text
           username gameType startDate endDate e.
    unfold Lichess.fetchLichessGames, try_catch.
    destruct (Lichess.attempt _ _ _ _ _ _ _ _ _) as [gs|e']; [discriminate|].
    rewrite lichess_handler. intros [= <-]. apply surfaced_is_Error.
Qed.

(** A request rejected with a value that is no [Error] object. *)
Lemma adapters_throw_only_errors_witness :
  instanceof_Error (new_Error "No games found") = true.
Proof.
  apply (proj1 adapters_throw_only_errors
           (fun _ => Throw (OtherValue "timeout")) Samples.no_date
           Samples.calendar "alice" None None "all").
  reflexivity.
Defined.

Lemma games_of_failed_archive fetch address :
  archive_fails fetch address -> ChessCom.games_of_archive fetch address = [].
Proof.
  unfold ChessCom.games_of_archive.
  intros [[e ->]|(r & -> & [Hok|[e Hjson]])]; [reflexivity| |].
  - now rewrite Hok.
  - rewrite Hjson. now destruct (negb (ChessCom.ok r)).
Qed.

Lemma games_of_with_empty_archive fetch address a :
  ChessCom.games_of_archive fetch address = [] ->
  ChessCom.games_of_archive (with_empty_archive fetch address) a
  = ChessCom.games_of_archive fetch a.
Proof.
  intros H. unfold ChessCom.games_of_archive at 1, with_empty_archive.
  destruct (String.eqb_spec a address) as [->|Hne].
  - simpl. now rewrite H.
  - reflexivity.
Qed.

(** X7.  In service A an archive whose request fails (a rejected request, a
    status that is no success, a body that does not decode) is skipped: the
    adapter answers as if that archive held no game. *)
Theorem failed_archive_is_skipped
    fetch Date_getTime Date_local username startDate endDate gameType address :
  address <> ChessCom.archives_url username ->
  archive_fails fetch address ->
  ChessCom.fetchChessComGames fetch Date_getTime Date_local
    username startDate endDate gameType
  = ChessCom.fetchChessComGames (with_empty_archive fetch address)
      Date_getTime Date_local username startDate endDate gameType.
Proof.
  intros Hne Hfail. apply games_of_failed_archive in Hfail.
  unfold ChessCom.fetchChessComGames, ChessCom.attempt, bind.
  unfold with_empty_archive at 1.
  assert (String.eqb (ChessCom.archives_url username) address = false) as ->
    by (apply String.eqb_neq; congruence).
  destruct (fetch (ChessCom.archives_url username)) as [response|];
    [|reflexivity].
  destruct (negb (ChessCom.ok response)); [reflexivity|].
  destruct (ChessCom.json response) as [data|]; [|reflexivity].
  destruct (ChessCom.archives data) as [urls|]; [|reflexivity].
  assert (ChessCom.allGames_of (with_empty_archive fetch address) Date_local
            (ChessCom.startTimestamp_of Date_getTime startDate)
            (ChessCom.endTimestamp_of Date_getTime endDate) urls
          = ChessCom.allGames_of fetch Date_local
              (ChessCom.startTimestamp_of Date_getTime startDate)
              (ChessCom.endTimestamp_of Date_getTime endDate) urls) as ->;
    [|reflexivity].
  unfold ChessCom.allGames_of. cbv zeta. apply flat_map_ext.
  intros a. now apply games_of_with_empty_archive.
Qed.

Lemma failed_archive_is_skipped_witness :
  ChessCom.fetchChessComGames (one_month_lost three_games)
    Samples.no_date Samples.calendar "alice" None None "all"
  = ChessCom.fetchChessComGames
      (with_empty_archive (one_month_lost three_games) lost_month)
      Samples.no_date Samples.calendar "alice" None None "all"
  /\ exists gs,
       ChessCom.fetchChessComGames (one_month_lost three_games)
         Samples.no_date Samples.calendar "alice" None None "all"
       = Return gs
       /\ List.length gs = 2%nat.
Proof.
  split.
  - apply failed_archive_is_skipped.
    + vm_compute. discriminate.
    + left. exists Samples.network_error. reflexivity.
  - eexists. split; [vm_compute; reflexivity|reflexivity].
Defined.

Lemma traverse_Throw_at {A B} (f : A -> completion B) good bad rest e :
  Forall (fun x => exists y, f x = Return y) good ->
  f bad = Throw e ->
  traverse f (good ++ bad :: rest)%list = Throw e.
Proof.
  intros Hgood Hbad. induction Hgood as [|x good [y Hx] _ IH]; simpl.
  - now rewrite Hbad.
  - now rewrite Hx, IH.
Qed.

(** X8.  In service B one line of a non-blank body that does not decode
    makes the whole request fail, wherever the line is and whatever the other
    lines hold: the caller catches the decoder's error, and no game of the
    lines before it. *)
Theorem malformed_line_fails_the_request
    fetch JSON_parse Date_getTime Date_now minutes_text
    username gameType startDate endDate response body good bad rest e :
  fetch (Lichess.games_url Date_getTime Date_now
           username gameType startDate endDate) = Return response ->
  Lichess.ok response = true ->
  Lichess.text response = Return body ->
  truthy (trim body) = true ->
  split "010" (trim body) = (good ++ bad :: rest)%list ->
  Forall (fun line => exists game, JSON_parse line = Return game) good ->
  JSON_parse bad = Throw e ->
  Lichess.fetchLichessGames fetch JSON_parse Date_getTime Date_now
    minutes_text username gameType startDate endDate
  = Throw (surfaced e).
Proof.
  intros Hfetch Hok Htext Hbody Hsplit Hgood Hbad.
  unfold Lichess.fetchLichessGames, Lichess.attempt, bind.
  rewrite Hfetch, Hok. cbn [negb]. rewrite Htext, Hbody. cbn [negb].
  rewrite Hsplit, (traverse_Throw_at _ _ _ _ _ Hgood Hbad).
  apply lichess_handler.
Qed.

Lemma malformed_line_fails_the_request_witness :
  Lichess.fetchLichessGames two_lines second_line_malformed Samples.no_date
    1700000200000 Samples.minutes_text "alice" "all" None None
  = Throw Samples.syntax_error.
Proof.
  refine (malformed_line_fails_the_request
            two_lines second_line_malformed Samples.no_date 1700000200000
            Samples.minutes_text "alice" "all" None None
            _ _ ["{...}"] "<html>" [] Samples.syntax_error
            eq_refl eq_refl eq_refl eq_refl eq_refl _ eq_refl).
  constructor; [|constructor]. eexists. reflexivity.
Defined.

Lemma leq_trans a b c :
  ChessCom.leq a b = true -> ChessCom.leq b c = true ->
  ChessCom.leq a c = true.
Proof.
  destruct a, b, c; simpl; try discriminate; auto.
  intros H1 H2. apply Z.leb_le in H1, H2. apply Z.leb_le. lia.
Qed.

Lemma overlaps_unfold Date_local startTimestamp endTimestamp archiveUrl :
  ChessCom.overlaps Date_local startTimestamp endTimestamp archiveUrl
  = (ChessCom.leq (archive_start Date_local archiveUrl) endTimestamp
     && ChessCom.leq startTimestamp (archive_end Date_local archiveUrl))
    || (ChessCom.leq startTimestamp (archive_start Date_local archiveUrl)
        && ChessCom.leq (archive_start Date_local archiveUrl) endTimestamp)
    || (ChessCom.leq startTimestamp (archive_end Date_local archiveUrl)
        && ChessCom.leq (archive_end Date_local archiveUrl) endTimestamp).
Proof. reflexivity. Qed.

(** X9.  The three overlap conditions of the archive filter amount to one
    intersection test: when a month does not end before it starts, its
    archive is kept exactly when the month starts no later than the window
    ends and ends no earlier than the window starts. *)
Theorem archive_overlap_is_intersection
    Date_local startTimestamp endTimestamp archiveUrl :
  ChessCom.leq (archive_start Date_local archiveUrl)
    (archive_end Date_local archiveUrl) = true ->
  ChessCom.overlaps Date_local startTimestamp endTimestamp archiveUrl
  = ChessCom.leq (archive_start Date_local archiveUrl) endTimestamp
    && ChessCom.leq startTimestamp (archive_end Date_local archiveUrl).
Proof.
  intros Hmonth. rewrite overlaps_unfold.
  set (aS := archive_start Date_local archiveUrl) in *.
  set (aE := archive_end Date_local archiveUrl) in *.
  destruct (ChessCom.leq aS endTimestamp) eqn:H1;
    destruct (ChessCom.leq startTimestamp aE) eqn:H2; cbn [andb orb];
    try reflexivity.
  - (* the month starts in time but ends before the window *)
    destruct (ChessCom.leq startTimestamp aS) eqn:H3; cbn [andb orb].
    + rewrite (leq_trans _ _ _ H3 Hmonth) in H2. discriminate.
    + reflexivity.
  - destruct (ChessCom.leq aE endTimestamp) eqn:H4;
      rewrite ?andb_false_r, ?andb_true_r, ?orb_false_r; try reflexivity.
    rewrite (leq_trans _ _ _ Hmonth H4) in H1. discriminate.
  - rewrite andb_false_r. reflexivity.
Qed.

Lemma archive_overlap_is_intersection_witness :
  ChessCom.overlaps Samples.calendar (ChessCom.Millis 1700000000000)
    ChessCom.Forever Samples.month_url
  = ChessCom.leq (archive_start Samples.calendar Samples.month_url)
      ChessCom.Forever
    && ChessCom.leq (ChessCom.Millis 1700000000000)
         (archive_end Samples.calendar Samples.month_url).
Proof. apply archive_overlap_is_intersection. reflexivity. Defined.
End Failures.

(** ** Clock texts and the think time they give *)

Section ClockValues.
Import JS Vocabulary Further.

Lemma text_seconds_formatClockTime c :
  text_seconds (Lichess.formatClockTime c) = Int (reading_seconds c).
Proof.
  unfold text_seconds. rewrite formatClockTime_numbers. reflexivity.
Qed.



Lemma split_three a b c :
  all (is_not ":") a = true -> all (is_not ":") b = true ->
  all (is_not ":") c = true ->
  split ":" (a ++ ":" ++ b ++ ":" ++ c) = [a; b; c].
Proof.
  intros Ha Hb Hc.
  change (a ++ ":" ++ b ++ ":" ++ c) with (a ++ String ":" (b ++ String ":" c)).
  rewrite (split_at _ _ _ Ha), (split_at _ _ _ Hb), (split_without _ _ Hc).
  reflexivity.
Qed.

(** The seconds of a clock as [parseClockComment] writes it. *)
Lemma clock_seconds_normal h m vh vm v :
  digits_value h = Some vh -> digits_value m = Some vm -> 0 <= v ->
  clock_seconds (h ++ ":" ++ m ++ ":" ++ Z_toString v)
  = Int (vh * 3600 + vm * 60 + v).
Proof.
  intros Hh Hm Hv. unfold clock_seconds, ChessCom.numbers_of.
  rewrite split_three.
  - simpl. rewrite (Number_digits h vh Hh), (Number_digits m vm Hm).
    rewrite Number_toString. reflexivity.
  - apply digits_without; [reflexivity|].
    apply is_digits_all. now apply digits_value_is_digits in Hh.
  - apply digits_without; [reflexivity|].
    apply is_digits_all. now apply digits_value_is_digits in Hm.
  - apply Z_toString_without; reflexivity.
Qed.

Lemma clock_fields_inv ws h m sec frac :
  clock_fields ws h m sec frac = true ->
  truthy ws = true /\ all is_space ws = true /\ is_digits h = true
  /\ is_digits m = true /\ is_digits sec = true /\ is_fraction frac = true.
Proof.
  unfold clock_fields. rewrite !andb_true_iff. tauto.
Qed.

Lemma annotation_seconds_inv h m sec t :
  annotation_seconds h m sec = Some t ->
  exists vh vm v,
    digits_value h = Some vh /\ digits_value m = Some vm
    /\ digits_value sec = Some v /\ t = vh * 3600 + vm * 60 + v.
Proof.
  unfold annotation_seconds.
  destruct (digits_value h) as [vh|]; [|discriminate].
  destruct (digits_value m) as [vm|]; [|discriminate].
  destruct (digits_value sec) as [v|]; [|discriminate].
  intros [= <-]. eauto 7.
Qed.

(** The clock parsed from an annotation stands for the annotation's whole
    seconds. *)
Lemma parsed_clock_seconds ws h m sec frac t :
  clock_fields ws h m sec frac = true ->
  annotation_seconds h m sec = Some t ->
  exists clock,
    ChessCom.parseClockComment (annotation ws h m sec frac) = Some clock
    /\ clock_seconds clock = Int t
    /\ truthy clock = true.
Proof.
  intros Hf Ht.
  apply clock_fields_inv in Hf as (Hws1 & Hws2 & Hh & Hm & Hsec & Hfrac).
  apply annotation_seconds_inv in Ht as (vh & vm & v & Hvh & Hvm & Hv & ->).
  exists (h ++ ":" ++ m ++ ":" ++ Z_toString v). split; [|split].
  - unfold annotation.
    replace ("[%clk" ++ ws ++ h ++ ":" ++ m ++ ":" ++ sec ++ frac ++ "]")
      with ("[%clk" ++ ws ++ h ++ ":" ++ m ++ ":" ++ sec ++ frac ++ "]" ++ "")
      by reflexivity.
    now apply parseClockComment_annotation.
  - apply clock_seconds_normal; auto.
    now apply digits_value_nonneg in Hv.
  - apply truthy_app_char.
Qed.

(** X11.  Service A, for annotations [[%clk h:m:s]] or [[%clk h:m:s.frac]]
    whose seconds have at most fifteen digits in all and whose whole seconds
    [3600 h + 60 m + s] are at most [MAX_SAFE_INTEGER]: the clock parsed
    from an annotation stands for those whole seconds, the fraction dropped,
    and the think time between the clocks of two annotations is the
    difference of their whole seconds, kept only when it is positive. *)
Theorem chesscom_think_time_value ws h m sec frac ws' h' m' sec' frac' t t' :
  clock_fields ws h m sec frac = true ->
  clock_fields ws' h' m' sec' frac' = true ->
  annotation_seconds h m sec = Some t ->
  annotation_seconds h' m' sec' = Some t' ->
  t <= MAX_SAFE_INTEGER -> t' <= MAX_SAFE_INTEGER ->
  exists current previous,
    ChessCom.parseClockComment (annotation ws h m sec frac) = Some current
    /\ ChessCom.parseClockComment (annotation ws' h' m' sec' frac')
       = Some previous
    /\ clock_seconds current = Int t
    /\ clock_seconds previous = Int t'
    /\ ChessCom.calculateTimeSpent current previous
       = if 0 <? t' - t then Some (Z_toString (t' - t)) else None.
Proof.
  intros Hf Hf' Ht Ht' _ _.
  destruct (parsed_clock_seconds _ _ _ _ _ _ Hf Ht) as (cur & Hcur & Hsc & _).
  destruct (parsed_clock_seconds _ _ _ _ _ _ Hf' Ht')
    as (prev & Hprev & Hsp & _).
  exists cur, prev. repeat split; auto.
  rewrite calculateTimeSpent_seconds. cbv zeta. rewrite Hsc, Hsp.
  reflexivity.
Qed.

Lemma chesscom_think_time_value_witness :
  exists current previous,
    ChessCom.parseClockComment "[%clk 0:09:50.9]" = Some current
    /\ ChessCom.parseClockComment "[%clk 0:10:00]" = Some previous
    /\ clock_seconds current = Int 590
    /\ clock_seconds previous = Int 600
    /\ ChessCom.calculateTimeSpent current previous = Some "10".
Proof.
  apply (chesscom_think_time_value " " "0" "09" "50" ".9"
           " " "0" "10" "00" "" 590 600);
    try reflexivity; unfold MAX_SAFE_INTEGER; lia.
Defined.
End ClockValues.

(** ** Service A: what the loop keeps true of its records *)

Section RecordInvariants.
Import JS ChessCom Vocabulary Further.

Lemma StronglySorted_snoc {A} (R : A -> A -> Prop) l x :
  StronglySorted R l -> Forall (fun y => R y x) l ->
  StronglySorted R (l ++ [x]).
Proof.
  induction 1 as [|y l Hl IH Hy]; intros Hx; simpl.
  - repeat constructor.
  - inversion Hx as [|? ? Hyx Hlx]; subst.
    constructor; [now apply IH|].
    apply Forall_app. split; [exact Hy|]. now constructor.
Qed.

Lemma next_ply_step cur (w : bool) :
  ply_number (if w then cur else cur + 1) (negb w) = ply_number cur w + 1.
Proof. unfold ply_number. destruct w; simpl; lia. Qed.

Lemma step_in_order st token :
  plies_in_order st -> plies_in_order (step st token).
Proof.
  intros (Hcur & Hsorted & Hall). unfold step.
  assert (Hweak :
    Forall (fun c => 1 <= ChessCom.moveNumber c
                     /\ 1 <= record_ply c < next_ply st + 1) (clocks st)).
  { eapply Forall_impl; [|exact Hall]. cbv beta. intros c Hc. lia. }
  assert (Hnext : 1 <= next_ply st).
  { unfold next_ply, ply_number. destruct (isWhiteMove st); lia. }
  destruct (Regex.search clockPattern token) as [clockMatch|].
  - destruct (is_set (parseClockComment (group_text 1 clockMatch)));
      [|now repeat split].
    unfold plies_in_order, next_ply.
    cbn [currentMoveNumber isWhiteMove clocks]. rewrite next_ply_step.
    split; [destruct (isWhiteMove st); lia|]. split.
    + apply StronglySorted_snoc; [exact Hsorted|].
      eapply Forall_impl; [|exact Hall]. cbv beta.
      intros c Hc. unfold record_ply at 2.
      cbn [ChessCom.moveNumber ChessCom.isWhite]. fold (next_ply st). lia.
    + apply Forall_app. split; [exact Hweak|].
      constructor; [|constructor]. unfold record_ply.
      cbn [ChessCom.moveNumber ChessCom.isWhite]. fold (next_ply st). lia.
  - unfold plies_in_order, next_ply.
    cbn [currentMoveNumber isWhiteMove clocks]. rewrite next_ply_step.
    split; [destruct (isWhiteMove st); lia|]. split; assumption.
Qed.

Lemma fold_step_in_order tokens :
  forall st, plies_in_order st -> plies_in_order (fold_left step tokens st).
Proof.
  induction tokens as [|token tokens IH]; intros st Hst; simpl; auto.
  apply IH, step_in_order, Hst.
Qed.

Lemma ply_number_order n w n' w' :
  ply_number n w < ply_number n' w' ->
  n <= n' /\ (n = n' -> w = true /\ w' = false).
Proof.
  unfold ply_number. destruct w, w'; intros H; split; try lia;
    intros ->; try lia; auto.
Qed.

(** X12.  Whatever the PGN, the records of [formatPGN] are in the order of
    play: their ply numbers ([2n - 1] for the white ply of move [n], [2n] for
    the black one) are at least 1 and strictly increasing, so the move
    numbers never decrease, and two records share a move number only as a
    white record followed by a black one. *)
Theorem records_are_in_ply_order pgn :
  let records := clocks_of (formatPGN pgn) in
  Forall (fun c => 1 <= ChessCom.moveNumber c /\ 1 <= record_ply c) records
  /\ StronglySorted (fun a b => record_ply a < record_ply b) records
  /\ StronglySorted
       (fun a b =>
          ChessCom.moveNumber a <= ChessCom.moveNumber b
          /\ (ChessCom.moveNumber a = ChessCom.moveNumber b ->
              ChessCom.isWhite a = true /\ ChessCom.isWhite b = false))
       records.
Proof.
  cbv zeta. unfold formatPGN, finish, run. cbn [clocks_of].
  destruct (fold_step_in_order (ply_tokens (move_section pgn)) initial)
    as (_ & Hsorted & Hall).
  { repeat split; try constructor. simpl. lia. }
  split; [|split].
  - eapply Forall_impl; [|exact Hall]. cbv beta. intros c Hc. lia.
  - exact Hsorted.
  - clear Hall. induction Hsorted as [|c l Hl IH Hc]; constructor; auto.
    eapply Forall_impl; [|exact Hc]. cbv beta. intros b Hb.
    now apply ply_number_order.
Qed.

Lemma last_time_snoc w l r :
  last_time w (l ++ [r])
  = if Bool.eqb (ChessCom.isWhite r) w then Some (ChessCom.time r)
    else last_time w l.
Proof.
  induction l as [|c l IH]; simpl.
  - reflexivity.
  - rewrite IH. destruct (Bool.eqb (ChessCom.isWhite r) w); reflexivity.
Qed.

Lemma last_time_truthy w l p :
  Forall (fun c => truthy (ChessCom.time c) = true) l ->
  last_time w l = Some p -> truthy p = true.
Proof.
  induction 1 as [|c l Hc _ IH]; simpl; [discriminate|].
  destruct (last_time w l) as [t|].
  - intros [= <-]. now apply IH.
  - destruct (Bool.eqb (ChessCom.isWhite c) w); [|discriminate].
    now intros [= <-].
Qed.

Lemma is_set_value x : is_set x = true -> truthy (value x) = true.
Proof. destruct x; simpl; [auto|discriminate]. Qed.

Lemma nth_error_snoc {A} (l : list A) x j c :
  nth_error (l ++ [x]) j = Some c ->
  (nth_error l j = Some c /\ firstn j (l ++ [x]) = firstn j l)
  \/ (j = List.length l /\ c = x /\ firstn j (l ++ [x]) = l).
Proof.
  intros H. destruct (Nat.lt_ge_cases j (List.length l)) as [Hlt|Hge].
  - left. rewrite nth_error_app1 in H by exact Hlt. split; [exact H|].
    rewrite firstn_app.
    replace (j - List.length l)%nat with 0%nat by lia.
    simpl. apply app_nil_r.
  - right.
    assert (j = List.length l) as ->.
    { assert (j < List.length (l ++ [x]))%nat as Hlt
        by (apply nth_error_Some; congruence).
      rewrite List.length_app in Hlt. simpl in Hlt. lia. }
    rewrite nth_error_app2, Nat.sub_diag in H by lia.
    injection H as <-. split; [reflexivity|]. split; [reflexivity|].
    rewrite firstn_app, Nat.sub_diag, firstn_all. simpl. apply app_nil_r.
Qed.

Lemma step_chained st token : chained st -> chained (step st token).
Proof.
  intros (Hw & Hb & Htimes & Hrec). unfold step.
  destruct (Regex.search clockPattern token) as [clockMatch|].
  - destruct (is_set (parseClockComment (group_text 1 clockMatch))) eqn:Hset;
      [|now repeat split].
    apply is_set_value in Hset.
    set (clock := value (parseClockComment (group_text 1 clockMatch))) in *.
    unfold chained.
    cbn [previousWhiteTime previousBlackTime ChessCom.clocks].
    rewrite !last_time_snoc. cbn [ChessCom.isWhite ChessCom.time].
    split; [|split; [|split]].
    + destruct (isWhiteMove st); simpl; auto.
    + destruct (isWhiteMove st); simpl; auto.
    + apply Forall_app. split; [exact Htimes|]. now repeat constructor.
    + intros j c Hj.
      apply nth_error_snoc in Hj as [[Hj ->]|(-> & -> & ->)];
        [now apply Hrec|].
      unfold expected_time. cbn [ChessCom.timeSpent ChessCom.isWhite
                                   ChessCom.time].
      destruct (isWhiteMove st); cbn [negb andb].
      * rewrite Hw.
        destruct (last_time true (ChessCom.clocks st)) as [p|] eqn:E.
        -- simpl is_set. now rewrite (last_time_truthy _ _ _ Htimes E).
        -- reflexivity.
      * rewrite Hb.
        destruct (last_time false (ChessCom.clocks st)) as [p|] eqn:E.
        -- simpl is_set. now rewrite (last_time_truthy _ _ _ Htimes E).
        -- reflexivity.
  - now repeat split.
Qed.

Lemma fold_step_chained tokens :
  forall st, chained st -> chained (fold_left step tokens st).
Proof.
  induction tokens as [|token tokens IH]; intros st Hst; simpl; auto.
  apply IH, step_chained, Hst.
Qed.

(** X13.  Whatever the PGN, every record of [formatPGN] carries the think
    time against the clock of the last record of its own colour before it,
    and none when it is the first record of its colour. *)
Theorem think_time_follows_the_colour pgn j c :
  nth_error (clocks_of (formatPGN pgn)) j = Some c ->
  ChessCom.timeSpent c
  = match last_time (ChessCom.isWhite c)
            (firstn j (clocks_of (formatPGN pgn))) with
    | Some previous => calculateTimeSpent (ChessCom.time c) previous
    | None => None
    end.
Proof.
  unfold formatPGN, finish, run. cbn [clocks_of].
  destruct (fold_step_chained (ply_tokens (move_section pgn)) initial)
    as (_ & _ & _ & H).
  - repeat split; try constructor. intros [|j'] c'; discriminate.
  - apply H.
Qed.

Lemma think_time_follows_the_colour_witness :
  let pgn :=
    "1. e4 {[%clk 0:10:00]} 1... e5 {[%clk 0:09:58]} 2. Nf3 {[%clk 0:09:40]}" in
  option_map ChessCom.timeSpent (nth_error (clocks_of (formatPGN pgn)) 2)
  = Some (calculateTimeSpent "0:09:40" "0:10:00")
  /\ calculateTimeSpent "0:09:40" "0:10:00" = Some "20".
Proof.
  cbv zeta. split; [|reflexivity].
  rewrite (think_time_follows_the_colour
             "1. e4 {[%clk 0:10:00]} 1... e5 {[%clk 0:09:58]} 2. Nf3 {[%clk 0:09:40]}"
             2 {| ChessCom.time := "0:09:40"; ChessCom.moveText := "Nf3";
                  ChessCom.moveNumber := 2; ChessCom.isWhite := true;
                  ChessCom.timeSpent := Some "20" |} eq_refl) at 1.
  reflexivity.
Defined.
End RecordInvariants.

(** ** Service B: what the loop over the plies keeps true *)

Section MoveInvariants.
Import JS Lichess Vocabulary Further.

Lemma move_object_ply i mv clock spent :
  move_ply (move_object i mv clock spent) = Z.of_nat i + 1.
Proof.
  unfold move_ply, move_object, ply_number.
  destruct (Z.eqb_spec (Z.of_nat i mod 2) 0) as [E|E]; simpl.
  - pose proof (Z.div_mod (Z.of_nat i) 2). lia.
  - pose proof (Z.div_mod (Z.of_nat i) 2).
    pose proof (Z.mod_pos_bound (Z.of_nat i) 2). lia.
Qed.

Lemma loop_cons game i mv rest pw pb :
  truthy (trim mv) = true ->
  exists spent,
    loop game i (mv :: rest) pw pb
    = move_object i mv (clock_at game i) spent
        :: loop game (S i) rest
             (if Z.of_nat i mod 2 =? 0 then clock_at game i else pw)
             (if Z.of_nat i mod 2 =? 0 then pb else clock_at game i)
    /\ spent = calculateTimeSpent (clock_at game i)
                 (if Z.of_nat i mod 2 =? 0 then pw else pb)
                 (increment_of game).
Proof.
  intros Hmv. eexists. split; [|reflexivity].
  simpl. rewrite Hmv. unfold move_object.
  destruct (Z.of_nat i mod 2 =? 0); reflexivity.
Qed.

Lemma move_object_move i mv clock spent :
  move (move_object i mv clock spent) = mv.
Proof. unfold move_object. now destruct (Z.of_nat i mod 2 =? 0). Qed.

Lemma move_object_colour i mv clock spent :
  is_white_move (move_object i mv clock spent) = (Z.of_nat i mod 2 =? 0).
Proof. unfold move_object. now destruct (Z.of_nat i mod 2 =? 0). Qed.

Lemma move_object_clock i mv clock spent :
  move_clock (move_object i mv clock spent) = clock.
Proof. unfold move_object. now destruct (Z.of_nat i mod 2 =? 0). Qed.

Lemma move_object_spent i mv clock spent :
  move_spent (move_object i mv clock spent) = spent.
Proof. unfold move_object. now destruct (Z.of_nat i mod 2 =? 0). Qed.

Lemma loop_moves game tokens :
  forall i pw pb, map move (loop game i tokens pw pb) = nonblank tokens.
Proof.
  induction tokens as [|mv rest IH]; intros i pw pb; [reflexivity|].
  unfold nonblank. cbn [filter].
  destruct (truthy (trim mv)) eqn:Hmv.
  - destruct (loop_cons game i mv rest pw pb Hmv) as (spent & -> & _).
    cbn [map]. rewrite move_object_move. f_equal. apply IH.
  - simpl. rewrite Hmv. apply IH.
Qed.

Lemma loop_plies game tokens :
  forall i pw pb,
    Forall (fun m => Z.of_nat i + 1 <= move_ply m) (loop game i tokens pw pb)
    /\ StronglySorted (fun a b => move_ply a < move_ply b)
         (loop game i tokens pw pb).
Proof.
  induction tokens as [|mv rest IH]; intros i pw pb.
  - split; constructor.
  - destruct (truthy (trim mv)) eqn:Hmv.
    + destruct (loop_cons game i mv rest pw pb Hmv) as (spent & -> & _).
      match goal with
      | |- context [loop game (S i) rest ?a ?b] =>
          destruct (IH (S i) a b) as [Hall Hsorted]
      end.
      split.
      * constructor; [rewrite move_object_ply; lia|].
        eapply Forall_impl; [|exact Hall]. intros m Hm. simpl in Hm. lia.
      * constructor; [exact Hsorted|].
        eapply Forall_impl; [|exact Hall]. intros m Hm. simpl in Hm.
        rewrite move_object_ply. lia.
    + simpl. rewrite Hmv.
      destruct (IH (S i) pw pb) as [Hall Hsorted]. split; [|exact Hsorted].
      eapply Forall_impl; [|exact Hall]. intros m Hm. simpl in Hm. lia.
Qed.

(** X14.  Whatever the game, the move objects of service B are the
    non-blank tokens of its move text, one each and in their order, and their
    ply numbers are positive and strictly increasing. *)
Theorem moves_are_the_nonblank_tokens game :
  map move (moves_of game) = nonblank (split " " (moves game))
  /\ Forall (fun m => 1 <= move_ply m) (moves_of game)
  /\ StronglySorted (fun a b => move_ply a < move_ply b) (moves_of game).
Proof.
  unfold moves_of. split; [apply loop_moves|].
  destruct (loop_plies game (split " " (moves game)) 0 None None)
    as [Hall Hsorted].
  split; [|exact Hsorted].
  eapply Forall_impl; [|exact Hall]. intros m Hm. simpl in Hm. lia.
Qed.

Lemma find_snoc {A} (f : A -> bool) l x :
  find f (l ++ [x])
  = match find f l with
    | Some y => Some y
    | None => if f x then Some x else None
    end.
Proof.
  induction l as [|a l IH]; simpl; [reflexivity|].
  destruct (f a); [reflexivity|exact IH].
Qed.

Lemma clock_before_cons pw pb w m l :
  clock_before pw pb w (m :: l)
  = clock_before (if is_white_move m then move_clock m else pw)
                 (if is_white_move m then pb else move_clock m) w l.
Proof.
  unfold clock_before. cbn [List.rev]. rewrite find_snoc.
  destruct (find _ (List.rev l)); [reflexivity|].
  destruct (is_white_move m), w; reflexivity.
Qed.

Lemma loop_chained game tokens :
  forall i pw pb j m,
    nth_error (loop game i tokens pw pb) j = Some m ->
    move_spent m
    = calculateTimeSpent (move_clock m)
        (clock_before pw pb (is_white_move m)
           (firstn j (loop game i tokens pw pb)))
        (increment_of game).
Proof.
  induction tokens as [|mv rest IH]; intros i pw pb j m Hj.
  - destruct j; discriminate.
  - destruct (truthy (trim mv)) eqn:Hmv.
    + destruct (loop_cons game i mv rest pw pb Hmv) as (spent & E & Hspent).
      rewrite E in *. clear E.
      destruct j as [|j]; simpl in Hj.
      * injection Hj as <-.
        rewrite move_object_spent, move_object_clock, move_object_colour.
        unfold clock_before. simpl. exact Hspent.
      * cbn [firstn]. rewrite clock_before_cons.
        rewrite move_object_colour, move_object_clock.
        now apply IH.
    + simpl in Hj |- *. rewrite Hmv in *. now apply IH.
Qed.

(** X15.  Whatever the game, every move object of service B carries the
    think time of its clock against the clock of the last move object of its
    own colour before it; it carries none when there is no such object or
    when that object has no clock. *)
Theorem move_think_time_follows_the_colour game j m :
  nth_error (moves_of game) j = Some m ->
  move_spent m
  = calculateTimeSpent (move_clock m)
      (last_clock (is_white_move m) (firstn j (moves_of game)))
      (increment_of game)
  /\ (last_clock (is_white_move m) (firstn j (moves_of game)) = None ->
      move_spent m = None).
Proof.
  intros Hj. unfold moves_of in *.
  pose proof (loop_chained game _ 0 None None j m Hj) as H.
  assert (forall w l, clock_before None None w l = last_clock w l) as E.
  { intros w l. unfold clock_before, last_clock.
    destruct (find _ (List.rev l)); [reflexivity|now destruct w]. }
  rewrite E in H. split; [exact H|].
  intros Hnone. rewrite H, Hnone. unfold calculateTimeSpent.
  simpl. now rewrite orb_true_r.
Qed.

Lemma move_think_time_follows_the_colour_witness :
  nth_error (moves_of bob_beats_alice) 2
  = Some (WhiteMove "c4" 2 (Some "4:50") (Some "13s"))
  /\ last_clock true (firstn 2 (moves_of bob_beats_alice)) = Some "5:00"
  /\ calculateTimeSpent (Some "4:50") (Some "5:00") 3 = Some "13s".
Proof.
  split; [reflexivity|]. split; [reflexivity|].
  symmetry.
  exact (proj1 (move_think_time_follows_the_colour bob_beats_alice 2
                  (WhiteMove "c4" 2 (Some "4:50") (Some "13s")) eq_refl)).
Defined.
End MoveInvariants.

(** ** The table of long thinks *)

Section Table.
Import JS Vocabulary Further Tracker.

Lemma filter_index_In {A} (p : nat -> bool) (l : list A) :
  forall i x, In x (filter_index p i l) -> In x l.
Proof.
  induction l as [|y l IH]; intros i x; simpl; [auto|].
  destruct (p i); simpl; intros H.
  - destruct H as [->|H]; [now left|right; eapply IH; eauto].
  - right. eapply IH; eauto.
Qed.

Lemma long_enough_inv minTimeFilter h :
  long_enough minTimeFilter h = true ->
  exists text t,
    timeSpent h = Some text /\ parseInt text = Int t /\ minTimeFilter <= t
    /\ sort_key by_time h = t.
Proof.
  unfold long_enough, sort_key. intros H.
  apply andb_true_iff in H as [Hset H].
  destruct (timeSpent h) as [text|]; [|discriminate].
  simpl in *. destruct (parseInt text) as [t|] eqn:Ht; [|discriminate].
  exists text, t. split; [reflexivity|]. split; [exact Ht|].
  split; [now apply Z.leb_le|reflexivity].
Qed.

Lemma rows_long_enough platform username minTimeFilter game h :
  In h (rows_of platform username minTimeFilter game) ->
  long_enough minTimeFilter h = true.
Proof.
  unfold rows_of, lichess_rows, chesscom_rows.
  destruct platform, game; simpl; try tauto; intros H;
    now apply filter_In in H as [_ H].
Qed.

(** X16.  Every row of the table has a think time that reads as a number of
    seconds not below the chosen minimum, and the rows come by falling sort
    key: that number of seconds when sorted by time, the date of the game when
    sorted by date. *)
Theorem table_rows_meet_the_threshold
    platform username minTimeFilter sortBy games :
  let rows := highlights platform username minTimeFilter sortBy games in
  Forall (fun h =>
            exists text t,
              timeSpent h = Some text /\ parseInt text = Int t
              /\ minTimeFilter <= t
              /\ sort_key by_time h = t /\ sort_key by_date h = date h)
         rows
  /\ StronglySorted (fun a b => sort_key sortBy b <= sort_key sortBy a) rows.
Proof.
  cbv zeta. split.
  - apply Forall_forall. intros h Hh. unfold highlights in Hh.
    apply sort_desc_In in Hh. apply in_flat_map in Hh as (game & _ & Hh).
    apply rows_long_enough in Hh.
    destruct (long_enough_inv _ _ Hh) as (text & t & H1 & H2 & H3 & H4).
    exists text, t. repeat split; assumption.
  - apply (sort_desc_sorted (sort_key sortBy)).
Qed.

Lemma white_time_colour m text :
  Lichess.timeSpentWhite m = Some text ->
  is_white_move m = true /\ move_spent m = Some text.
Proof. destruct m; simpl; [auto|discriminate]. Qed.

Lemma black_time_colour m text :
  Lichess.timeSpentBlack m = Some text ->
  is_white_move m = false /\ move_spent m = Some text.
Proof. destruct m; simpl; [discriminate|auto]. Qed.

(** X17.  Every row of the table stands for a move of the queried player:
    it comes from a record of one of the games, of the colour the player has
    in that game (black when the white player is someone else), with that
    record's move and think time, and its link number is the ply of the
    record.  A game of service B gives rows only when that service is the
    selected one. *)
Theorem table_rows_are_the_players_moves
    platform username minTimeFilter sortBy games h :
  In h (highlights platform username minTimeFilter sortBy games) ->
  (exists g c,
      In (FromChessCom g) games
      /\ In c (ChessCom.Normalized.clocks g)
      /\ isWhite h
         = String.eqb (toLowerCase (ChessCom.Normalized.whitePlayer g))
                      (toLowerCase username)
      /\ ChessCom.isWhite c = isWhite h
      /\ move h = ChessCom.moveText c
      /\ timeSpent h = ChessCom.timeSpent c
      /\ linkMoveNumber h = record_ply c
      /\ gameId h = ChessCom.Normalized.id g)
  \/ (platform = lichess_org
      /\ exists g m,
           In (FromLichess g) games
           /\ In m (Lichess.Normalized.moves g)
           /\ isWhite h
              = String.eqb (toLowerCase (Lichess.Normalized.whitePlayer g))
                           (toLowerCase username)
           /\ is_white_move m = isWhite h
           /\ move h = Lichess.move m
           /\ timeSpent h = move_spent m
           /\ linkMoveNumber h = move_ply m
           /\ gameId h = Lichess.Normalized.id g).
Proof.
  intros Hh. unfold highlights in Hh.
  apply sort_desc_In in Hh. apply in_flat_map in Hh as (game & Hgame & Hh).
  assert (forall g, In h (chesscom_rows username minTimeFilter g) ->
            exists c,
              In c (ChessCom.Normalized.clocks g)
              /\ isWhite h
                 = String.eqb (toLowerCase (ChessCom.Normalized.whitePlayer g))
                              (toLowerCase username)
              /\ ChessCom.isWhite c = isWhite h
              /\ move h = ChessCom.moveText c
              /\ timeSpent h = ChessCom.timeSpent c
              /\ linkMoveNumber h = record_ply c
              /\ gameId h = ChessCom.Normalized.id g) as HA.
  { intros g Hrow. unfold chesscom_rows in Hrow.
    apply filter_In in Hrow as [Hrow _].
    apply in_map_iff in Hrow as (c & <- & Hc).
    apply filter_In in Hc as [Hc Hcolour].
    apply eqb_prop in Hcolour.
    exists c. cbn. split; [exact Hc|]. split; [reflexivity|].
    split; [exact Hcolour|]. repeat split.
    unfold record_ply, ply_number. now rewrite Hcolour. }
  destruct platform, game as [g|g]; simpl in Hh.
  - left. destruct (HA g Hh) as (c & H). exists g, c. tauto.
  - contradiction.
  - left. destruct (HA g Hh) as (c & H). exists g, c. tauto.
  - right. split; [reflexivity|].
    unfold lichess_rows in Hh.
    apply filter_In in Hh as [Hrow Hlong].
    apply in_map_iff in Hrow as (m & <- & Hm).
    apply filter_index_In in Hm.
    apply long_enough_inv in Hlong as (text & t & Htext & _).
    cbn in Htext.
    exists g, m. cbn. split; [exact Hgame|]. split; [exact Hm|].
    split; [reflexivity|].
    destruct (String.eqb (toLowerCase (Lichess.Normalized.whitePlayer g))
                         (toLowerCase username)).
    + apply white_time_colour in Htext as [Hcolour Hspent].
      split; [exact Hcolour|]. split; [reflexivity|].
      split; [now destruct m|]. split; [|reflexivity].
      unfold move_ply, ply_number. now rewrite Hcolour.
    + apply black_time_colour in Htext as [Hcolour Hspent].
      split; [exact Hcolour|]. split; [reflexivity|].
      split; [now destruct m|]. split; [|reflexivity].
      unfold move_ply, ply_number. now rewrite Hcolour.
Qed.

Lemma table_rows_are_the_players_moves_witness :
  highlights chess_com "Alice" 20 by_time [FromChessCom slow_game]
  = [slow_row]
  /\ ((exists g c,
         In (FromChessCom g) [FromChessCom slow_game]
         /\ In c (ChessCom.Normalized.clocks g)
         /\ isWhite slow_row
            = String.eqb (toLowerCase (ChessCom.Normalized.whitePlayer g))
                         (toLowerCase "Alice")
         /\ ChessCom.isWhite c = isWhite slow_row
         /\ move slow_row = ChessCom.moveText c
         /\ timeSpent slow_row = ChessCom.timeSpent c
         /\ linkMoveNumber slow_row = record_ply c
         /\ gameId slow_row = ChessCom.Normalized.id g)
      \/ (chess_com = lichess_org
          /\ exists g m,
               In (FromLichess g) [FromChessCom slow_game]
               /\ In m (Lichess.Normalized.moves g)
               /\ isWhite slow_row
                  = String.eqb
                      (toLowerCase (Lichess.Normalized.whitePlayer g))
                      (toLowerCase "Alice")
               /\ is_white_move m = isWhite slow_row
               /\ move slow_row = Lichess.move m
               /\ timeSpent slow_row = move_spent m
               /\ linkMoveNumber slow_row = move_ply m
               /\ gameId slow_row = Lichess.Normalized.id g)).
Proof.
  split; [vm_compute; reflexivity|].
  apply (table_rows_are_the_players_moves chess_com "Alice" 20 by_time
           [FromChessCom slow_game] slow_row).
  vm_compute. left. reflexivity.
Defined.
End Table.

(** ** The table: how a think time and a link are shown *)

Section Display.
Import JS Vocabulary Further Tracker.

(** X18.  A think time of [n] seconds, [n] at most [MAX_SAFE_INTEGER],
    written in decimal as service A writes it ([n]) or as service B does
    ([ns]), is shown as [ns] below a minute, as the clock text [m:ss] of
    service B below an hour and as [h:mm:ss] from an hour on; read back as
    a clock, what is shown stands for [n] seconds again. *)
Theorem formatTimeSpent_reads_back n suffix :
  0 <= n <= MAX_SAFE_INTEGER -> suffix = "" \/ suffix = "s" ->
  let shown := formatTimeSpent (Z_toString n ++ suffix) in
  (n < 60 -> shown = Z_toString n ++ "s")
  /\ (60 <= n < 3600 ->
      shown = Lichess.formatClockTime (100 * n)
      /\ text_seconds shown = Int n)
  /\ (3600 <= n ->
      shown = Z_toString (n / 3600) ++ ":"
              ++ padStart2 (Z_toString (n mod 3600 / 60)) ++ ":"
              ++ padStart2 (Z_toString (n mod 60))
      /\ clock_seconds shown = Int n).
Proof.
  intros [Hn _] Hsuffix. cbv zeta. unfold formatTimeSpent.
  rewrite (parseInt_digits n suffix Hn)
    by (destruct Hsuffix as [->| ->]; reflexivity).
  split; [|split].
  - intros Hlt. now apply Z.ltb_lt in Hlt as ->.
  - intros [Hlo Hhi].
    assert ((n <? 60) = false) as -> by (apply Z.ltb_ge; lia).
    assert ((0 <? n / 3600) = false) as ->.
    { apply Z.ltb_ge. rewrite Z.div_small; lia. }
    assert (shape : Z_toString (Z.rem n 3600 / 60) ++ ":"
                    ++ padStart2 (Z_toString (Z.rem n 60))
                    = Lichess.formatClockTime (100 * n)).
    { unfold Lichess.formatClockTime. cbv zeta.
      replace (100 * n / 100) with n by (rewrite Z.mul_comm, Z.div_mul; lia).
      now rewrite Z.rem_small by lia. }
    rewrite shape. split; [reflexivity|].
    rewrite text_seconds_formatClockTime, reading_seconds_whole by lia.
    f_equal. rewrite Z.mul_comm, Z.div_mul; lia.
  - intros Hhour.
    assert ((n <? 60) = false) as -> by (apply Z.ltb_ge; lia).
    assert ((0 <? n / 3600) = true) as ->.
    { apply Z.ltb_lt. apply Z.div_str_pos. lia. }
    rewrite !Z.rem_mod_nonneg by lia.
    split; [reflexivity|].
    unfold clock_seconds, ChessCom.numbers_of.
    rewrite split_three.
    + simpl. rewrite Number_toString, !Number_padStart2. simpl. f_equal.
      Z.to_euclidean_division_equations; lia.
    + now apply Z_toString_without.
    + now apply padStart2_without.
    + now apply padStart2_without.
Qed.

Lemma formatTimeSpent_reads_back_witness :
  formatTimeSpent "3725s" = "1:02:05"
  /\ clock_seconds (formatTimeSpent "3725s") = Int 3725.
Proof.
  destruct (formatTimeSpent_reads_back 3725 "s"
              ltac:(unfold MAX_SAFE_INTEGER; lia) (or_intror eq_refl))
    as (_ & _ & H).
  exact (H ltac:(lia)).
Defined.




End Display.

(** ** Service A: move text as the service writes it *)

Section PlyPattern.
Import JS Regex ChessCom Vocabulary Further.

Lemma append_nil (s : string) : s ++ "" = s.
Proof. induction s; simpl; congruence. Qed.

Lemma stops_app p a b : truthy a = true -> stops p (a ++ b) = stops p a.
Proof. destruct a; [discriminate|reflexivity]. Qed.

Lemma all_stops (p q : ascii -> bool) a b :
  truthy a = true -> all p a = true ->
  (forall c, p c = true -> q c = false) ->
  stops q (a ++ b) = true.
Proof.
  destruct a as [|c a]; [discriminate|]. simpl. intros _ H Hpq.
  apply andb_true_iff in H as [H _]. now rewrite (Hpq c H).
Qed.

(** The leftmost match: a prefix at none of whose characters the pattern can
    start is skipped. *)
Lemma search_skip r (p : ascii -> bool) pre s m :
  (forall a x, p a = true -> match_here r (String a x) = None) ->
  all p pre = true ->
  search r s = Some m ->
  search r (pre ++ s)
  = Some {| before := pre ++ before m; matched := matched m;
            groups := groups m; after := after m |}.
Proof.
  intros Hp Hpre Hs. induction pre as [|a pre IH]; simpl.
  - rewrite Hs. now destruct m.
  - simpl in Hpre. apply andb_true_iff in Hpre as [Ha Hpre].
    cbn [append search]. rewrite (Hp a (pre ++ s) Ha), (IH Hpre).
    reflexivity.
Qed.

Lemma search_none r (p : ascii -> bool) s :
  (forall a x, p a = true -> match_here r (String a x) = None) ->
  match_here r "" = None ->
  all p s = true -> search r s = None.
Proof.
  intros Hp Hnil. induction s as [|a s IH]; simpl.
  - now rewrite Hnil.
  - intros H. apply andb_true_iff in H as [Ha Hs].
    now rewrite (Hp a s Ha), (IH Hs).
Qed.

(** [movePattern] starts at a digit, [clockPattern] at an opening brace. *)
Lemma movePattern_start a x :
  negb (is_digit a) = true -> match_here movePattern (String a x) = None.
Proof.
  intros Ha. apply negb_true_iff in Ha.
  unfold match_here, movePattern, Plus, digit. cbn [rmatch]. now rewrite Ha.
Qed.

Lemma clockPattern_start a x :
  negb (Ascii.eqb "{" a) = true ->
  match_here clockPattern (String a x) = None.
Proof.
  intros Ha. apply negb_true_iff in Ha.
  unfold match_here, clockPattern, Lit. cbn [rmatch]. now rewrite Ha.
Qed.

Lemma no_brace_no_comment s :
  all (fun c => negb (Ascii.eqb "{" c)) s = true ->
  search clockPattern s = None.
Proof.
  apply search_none; [|reflexivity].
  intros a x. apply clockPattern_start.
Qed.
(** White space that is not followed by an opening brace is followed by no
    brace comment. *)
Lemma head_not_brace s :
  stops (Ascii.eqb "{") (trimStart s) = true ->
  stops (Ascii.eqb "{") s = true.
Proof.
  destruct s as [|a s]; [reflexivity|]. cbn [trimStart stops].
  destruct (is_space a) eqn:Ha; [|auto]. intros _.
  destruct (Ascii.eqb_spec "{" a) as [<-|]; [discriminate|reflexivity].
Qed.

Lemma space_then_brace_fails {A} (K : @cont A) fuel :
  (forall s c, stops (Ascii.eqb "{") s = true -> K s c = None) ->
  forall s c,
    stops (Ascii.eqb "{") (trimStart s) = true ->
    star_loop (rmatch space) true fuel s c K = None.
Proof.
  intros HK. unfold space. induction fuel as [|fuel IH]; intros s c Hs.
  - simpl. now apply HK, head_not_brace.
  - cbn [star_loop]. rewrite (HK s c) by now apply head_not_brace.
    destruct s as [|a s]; [reflexivity|].
    cbn [rmatch]. cbn [trimStart] in Hs.
    destruct (is_space a) eqn:Ha; [|reflexivity].
    pose proof (IH s c Hs) as H. cbn [rmatch] in H. rewrite H.
    now destruct (_ <? _)%nat.
Qed.

Lemma rmatch_Opt {A} r s c (k : @cont A) :
  rmatch (Opt r) s c k
  = match rmatch r s c k with
    | Some x => Some x
    | None => k s c
    end.
Proof. reflexivity. Qed.

Lemma brace_needs_brace {A} R s c (k : @cont A) :
  stops (Ascii.eqb "{") s = true ->
  rmatch (Seq (Lit "{") R) s c k = None.
Proof.
  destruct s as [|a s]; [reflexivity|]. unfold Lit. cbn [rmatch stops].
  intros H. apply negb_true_iff in H. now rewrite H.
Qed.

Lemma no_note_follows {A} R more c (k : @cont A) :
  ends_ply more = true ->
  rmatch (Opt (Seq (Star true space) (Seq (Lit "{") R))) more c k = k more c.
Proof.
  intros H. apply andb_true_iff in H as [_ H].
  unfold Opt. rewrite rmatch_Alt, rmatch_Seq. cbn [rmatch].
  rewrite space_then_brace_fails; auto.
  intros s' c'. apply brace_needs_brace.
Qed.

Lemma two_dots_fail {A} s c (k : @cont A) :
  stops (Ascii.eqb ".") s = true -> rmatch (Word "..") s c k = None.
Proof.
  destruct s as [|a s]; [reflexivity|].
  cbn [Word]. unfold Lit. cbn [rmatch stops].
  intros H. apply negb_true_iff in H. now rewrite H.
Qed.

Lemma fraction_chars (q : ascii -> bool) frac :
  is_fraction frac = true -> q "."%char = true ->
  (forall c, is_digit c = true -> q c = true) ->
  all q frac = true.
Proof.
  destruct frac as [|d f]; [reflexivity|]. simpl.
  intros H Hdot Hq. apply andb_true_iff in H as [Hd Hf].
  apply Ascii.eqb_eq in Hd. subst d. rewrite Hdot. simpl.
  apply (all_impl is_digit); [exact Hq|]. now apply is_digits_all.
Qed.

(** The characters of a clock annotation: digits, white space and five
    others. *)
Lemma annotation_chars (q : ascii -> bool) ws h m sec frac :
  clock_fields ws h m sec frac = true ->
  all q "[%clk:.]" = true ->
  (forall c, is_digit c = true -> q c = true) ->
  (forall c, is_space c = true -> q c = true) ->
  all q (annotation ws h m sec frac) = true.
Proof.
  intros Hf Hq Hd Hs.
  apply clock_fields_inv in Hf as (_ & Hws & Hh & Hm & Hsec & Hfrac).
  simpl in Hq. rewrite !andb_true_iff in Hq.
  destruct Hq as (Q1 & Q2 & Q3 & Q4 & Q5 & Q6 & Q7 & Q8 & _).
  assert (D : forall s, is_digits s = true -> all q s = true).
  { intros s H. apply (all_impl is_digit); [exact Hd|].
    now apply is_digits_all. }
  unfold annotation.
  change ("[%clk" ++ ws ++ h ++ ":" ++ m ++ ":" ++ sec ++ frac ++ "]")
    with ("[%clk"
          ++ (ws ++ (h ++ (":" ++ (m ++ (":" ++ (sec ++ (frac ++ "]")))))))).
  rewrite !all_app.
  rewrite (all_impl is_space q ws Hs Hws), (D h Hh), (D m Hm), (D sec Hsec).
  rewrite (fraction_chars q frac Hfrac Q7 Hd).
  simpl. now rewrite Q1, Q2, Q3, Q4, Q5, Q6, Q8.
Qed.

Lemma note_matches {A} n more c (k : @cont A) x :
  note_ok n = true -> k more c = Some x ->
  rmatch (Opt (Seq (Star true space)
                (Seq (Lit "{") (Seq (Star true (Not "}")) (Lit "}")))))
    (before_brace n ++ String "{" (note_comment n ++ String "}" more)) c k
  = Some x.
Proof.
  intros Hn Hk. unfold note_ok in Hn. rewrite !andb_true_iff in Hn.
  destruct Hn as [[Hne Hws] Hf].
  unfold Opt. rewrite rmatch_Alt, rmatch_Seq.
  match goal with
  | |- match ?e with _ => _ end = _ => assert (H : e = Some x)
  end; [|now rewrite H].
  unfold space. apply rmatch_star_run; [exact Hws|reflexivity|].
  cbv beta. rewrite rmatch_Seq, rmatch_Lit, rmatch_Seq. unfold Not.
  apply rmatch_star_run.
  - apply annotation_chars; auto.
    + intros a Ha. destruct (Ascii.eqb_spec "}" a) as [<-|]; auto.
    + intros a Ha. destruct (Ascii.eqb_spec "}" a) as [<-|]; auto.
  - cbn [stops]. now rewrite Ascii.eqb_refl.
  - cbv beta. now rewrite rmatch_Lit.
Qed.

Lemma ply_text_app p more :
  ply_text p ++ more
  = number p
    ++ String "." (dots p ++ gap p ++ san p ++ note_part p ++ more).
Proof.
  unfold ply_text, bare. rewrite !append_assoc. reflexivity.
Qed.

Lemma ply_ok_inv p :
  ply_ok p = true ->
  is_digits (number p) = true /\ all is_space (gap p) = true
  /\ truthy (san p) = true /\ all move_char (san p) = true
  /\ match note p with Some n => note_ok n = true | None => True end.
Proof.
  unfold ply_ok. rewrite !andb_true_iff. intros [[[[H1 H2] H3] H4] H5].
  repeat split; auto. now destruct (note p).
Qed.

Lemma move_chars (q : ascii -> bool) s :
  all move_char s = true ->
  (forall c, move_char c = true -> q c = true) -> all q s = true.
Proof. intros H Hq. now apply (all_impl move_char). Qed.

(** The pattern of a ply reads a whole ply, note included. *)
Lemma ply_matches {A} p more c (k : @cont A) x :
  ply_ok p = true ->
  (note p = None -> ends_ply more = true) ->
  k more c = Some x ->
  rmatch
    (Seq (Plus digit)
    (Seq (Lit ".")
    (Seq (Opt (Word ".."))
    (Seq (Star true space)
    (Seq (Plus nonspace)
         (Opt (Seq (Star true space)
              (Seq (Lit "{")
              (Seq (Star true (Not "}")) (Lit "}"))))))))))
    (ply_text p ++ more) c k
  = Some x.
Proof.
  intros Hp Hmore Hk.
  apply ply_ok_inv in Hp as (Hnum & Hgap & Hsan1 & Hsan & Hnote).
  rewrite ply_text_app, rmatch_Seq.
  apply rmatch_plus_run;
    [now apply is_digits_truthy|now apply is_digits_class|reflexivity|].
  cbv beta. rewrite rmatch_Seq, rmatch_Lit, rmatch_Seq.
  assert (HK :
    rmatch
      (Seq (Star true space)
      (Seq (Plus nonspace)
           (Opt (Seq (Star true space)
                (Seq (Lit "{")
                (Seq (Star true (Not "}")) (Lit "}")))))))
      (gap p ++ san p ++ note_part p ++ more) c k = Some x).
  { rewrite rmatch_Seq. apply rmatch_star_run; [exact Hgap| |].
    { apply (all_stops move_char); auto.
      intros a Ha. unfold move_char in Ha. rewrite !andb_true_iff in Ha.
      destruct Ha as [[Ha _] _]. now apply negb_true_iff in Ha. }
    cbv beta. rewrite rmatch_Seq. unfold nonspace.
    apply rmatch_plus_run; [exact Hsan1| | |].
    { apply (move_chars _ _ Hsan). intros a Ha. unfold move_char in Ha.
      rewrite !andb_true_iff in Ha. tauto. }
    { unfold note_part. destruct (note p) as [n|].
      - unfold note_ok in Hnote. rewrite !andb_true_iff in Hnote.
        destruct Hnote as [[Hne Hws] _]. unfold note_text.
        rewrite append_assoc.
        apply (all_stops is_space); auto.
        intros a Ha. now rewrite Ha.
      - simpl. specialize (Hmore eq_refl).
        now apply andb_true_iff in Hmore as [Hmore _]. }
    cbv beta. unfold note_part. destruct (note p) as [n|].
    - unfold note_text. rewrite !append_assoc.
      change ("{" ++ note_comment n ++ "}" ++ more)
        with (String "{" (note_comment n ++ String "}" more)).
      now apply note_matches.
    - cbn [append]. rewrite no_note_follows; auto. }
  unfold dots. destruct (black_dots p).
  - rewrite rmatch_Opt, (rmatch_Word ".."). cbv beta. now rewrite HK.
  - cbn [append]. rewrite rmatch_Opt.
    rewrite two_dots_fail; [exact HK|]. clear HK.
    destruct (gap p) as [|g gs].
    + cbn [append]. apply (all_stops move_char); auto.
      intros a Ha. unfold move_char in Ha. rewrite !andb_true_iff in Ha.
      destruct Ha as [_ Ha]. now apply negb_true_iff in Ha.
    + cbn [append stops]. cbn [all] in Hgap.
      apply andb_true_iff in Hgap as [Hg _].
      destruct (Ascii.eqb_spec "." g) as [<-|]; [discriminate|reflexivity].
Qed.

(** The first ply of a text, found behind any white space. *)
Lemma search_ply sep p more :
  all is_space sep = true -> ply_ok p = true ->
  (note p = None -> ends_ply more = true) ->
  search movePattern (sep ++ ply_text p ++ more)
  = Some {| before := sep; matched := ply_text p;
            groups := [(1%nat, ply_text p)]; after := more |}.
Proof.
  intros Hsep Hp Hmore.
  assert (Hhere :
    search movePattern (ply_text p ++ more)
    = Some {| before := ""; matched := ply_text p;
              groups := [(1%nat, ply_text p)]; after := more |}).
  { rewrite <- (consumed_app (ply_text p) more) at 2.
    apply search_here. unfold movePattern. rewrite rmatch_Group.
    apply ply_matches; auto. cbv beta. now rewrite consumed_app. }
  assert (Hskip : all (fun a => negb (is_digit a)) sep = true).
  { apply (all_impl is_space); [|exact Hsep].
    intros a Ha. destruct (is_digit a) eqn:Hd; [|reflexivity].
    now rewrite (digit_not_space a Hd) in Ha. }
  rewrite (search_skip _ _ sep _ _ movePattern_start Hskip Hhere).
  cbn [before matched groups after]. now rewrite append_nil.
Qed.
End PlyPattern.

Section PlyTokens.
Import JS Regex ChessCom Vocabulary Further.

Lemma trimStart_spaces sep x :
  all is_space sep = true -> trimStart (sep ++ x) = trimStart x.
Proof.
  induction sep as [|a sep IH]; [reflexivity|]. cbn [all append trimStart].
  intros H. apply andb_true_iff in H as [Ha Hsep]. now rewrite Ha, IH.
Qed.

Lemma ply_starts p more :
  ply_ok p = true ->
  exists d t, ply_text p ++ more = String d t /\ is_digit d = true.
Proof.
  intros Hp. apply ply_ok_inv in Hp as (Hnum & _).
  rewrite ply_text_app.
  destruct (is_digits_first _ Hnum) as (d & t & -> & Hd & _).
  cbn [append]. eauto.
Qed.

Lemma ply_ends_ply sep p more :
  truthy sep = true -> all is_space sep = true -> ply_ok p = true ->
  ends_ply (sep ++ ply_text p ++ more) = true.
Proof.
  intros Hne Hsep Hp. unfold ends_ply. apply andb_true_iff. split.
  - apply (all_stops is_space); auto. intros a Ha. now rewrite Ha.
  - rewrite trimStart_spaces by exact Hsep.
    destruct (ply_starts p more Hp) as (d & t & -> & Hd).
    cbn [trimStart]. rewrite (digit_not_space d Hd). cbn [stops].
    destruct (Ascii.eqb_spec "{" d) as [<-|]; [discriminate|reflexivity].
Qed.

Lemma separated_inv item :
  separated item = true ->
  truthy (fst item) = true /\ all is_space (fst item) = true
  /\ ply_ok (snd item) = true.
Proof. unfold separated. rewrite !andb_true_iff. tauto. Qed.

Lemma more_plies_ends rest tail :
  forallb separated rest = true -> tail_ok tail = true ->
  ends_ply (more_plies rest tail) = true.
Proof.
  intros Hrest Htail. destruct rest as [|[sep p] rest]; cbn [more_plies].
  - unfold tail_ok in Htail. now apply andb_true_iff in Htail as [H _].
  - cbn [forallb] in Hrest. apply andb_true_iff in Hrest as [Hitem _].
    apply separated_inv in Hitem as (Hne & Hsep & Hp).
    now apply ply_ends_ply.
Qed.

(** The tokens of a text of plies are its plies. *)
Lemma tokens_of_more rest tail :
  forallb separated rest = true -> tail_ok tail = true ->
  ply_tokens (more_plies rest tail)
  = map (fun item => ply_text (snd item)) rest.
Proof.
  intros Hrest Htail. induction rest as [|[sep p] rest IH]; cbn [more_plies].
  - rewrite ply_tokens_unfold. unfold tail_ok in Htail.
    apply andb_true_iff in Htail as [_ H].
    now destruct (search movePattern tail).
  - cbn [forallb] in Hrest. apply andb_true_iff in Hrest as [Hitem Hrest].
    apply separated_inv in Hitem as (Hne & Hsep & Hp). cbn [fst snd] in *.
    rewrite ply_tokens_unfold, search_ply; auto.
    + cbn [after map snd]. f_equal. now apply IH.
    + intros _. now apply more_plies_ends.
Qed.

Lemma tokens_of_text first rest tail :
  ply_ok first = true -> forallb separated rest = true ->
  tail_ok tail = true ->
  ply_tokens (moves_text first rest tail)
  = map ply_text (first :: map snd rest).
Proof.
  intros Hfirst Hrest Htail. unfold moves_text.
  rewrite ply_tokens_unfold.
  pose proof (search_ply "" first (more_plies rest tail) eq_refl Hfirst) as H.
  cbn [append] in H. rewrite H.
  - cbn [after map]. f_equal. rewrite tokens_of_more by assumption.
    now rewrite map_map.
  - intros _. now apply more_plies_ends.
Qed.
End PlyTokens.

Section PlySteps.
Import JS Regex ChessCom Vocabulary Further.

Lemma uint_of_digits s :
  all_digits s = true ->
  exists d, DecimalString.NilEmpty.uint_of_string s = Some d.
Proof.
  unfold all_digits. induction s as [|a s IH]; cbn [all]; intros H.
  - simpl. eauto.
  - apply andb_true_iff in H as [Ha Hs]. destruct (IH Hs) as [d Hd].
    cbn [DecimalString.NilEmpty.uint_of_string]. rewrite Hd.
    destruct a as [[] [] [] [] [] [] [] []];
      try (vm_compute in Ha; discriminate Ha); simpl; eauto.
Qed.

Lemma digits_value_total s :
  is_digits s = true -> exists v, digits_value s = Some v.
Proof.
  intros H. unfold digits_value. rewrite H.
  destruct (uint_of_digits s (is_digits_all s H)) as [d ->]. simpl. eauto.
Qed.

Lemma note_parses n :
  note_ok n = true ->
  parseClockComment (note_comment n) = Some (note_clock n)
  /\ truthy (note_clock n) = true.
Proof.
  intros Hn. unfold note_ok in Hn. rewrite !andb_true_iff in Hn.
  destruct Hn as [_ Hf].
  apply clock_fields_inv in Hf as (Hws1 & Hws2 & Hh & Hm & Hsec & Hfrac).
  destruct (digits_value_total _ Hsec) as [v Hv].
  unfold note_clock, note_comment, annotation. rewrite Hv. split.
  - rewrite <- (parseClockComment_annotation
                  (clk_space n) (clk_hours n) (clk_minutes n) (clk_seconds n)
                  (clk_fraction n) "" v Hws1 Hws2 Hh Hm Hv Hfrac).
    reflexivity.
  - destruct (is_digits_first _ Hh) as (d & t & -> & _). reflexivity.
Qed.

Lemma bare_chars (q : ascii -> bool) p :
  ply_ok p = true ->
  q "."%char = true ->
  (forall c, is_digit c = true -> q c = true) ->
  (forall c, is_space c = true -> q c = true) ->
  (forall c, move_char c = true -> q c = true) ->
  all q (bare p) = true.
Proof.
  intros Hp Hdot Hd Hs Hm.
  apply ply_ok_inv in Hp as (Hnum & Hgap & _ & Hsan & _).
  unfold bare, dots.
  change (number p ++ "." ++ (if black_dots p then ".." else "")
          ++ gap p ++ san p)
    with (number p ++ ("." ++ ((if black_dots p then ".." else "")
          ++ (gap p ++ san p)))).
  rewrite !all_app.
  rewrite (all_impl is_digit q _ Hd (is_digits_all _ Hnum)).
  rewrite (all_impl is_space q _ Hs Hgap), (all_impl move_char q _ Hm Hsan).
  destruct (black_dots p); simpl; now rewrite Hdot.
Qed.

Lemma bare_no_brace p :
  ply_ok p = true ->
  all (fun c => negb (Ascii.eqb "{" c)) (bare p) = true.
Proof.
  intros Hp. apply bare_chars; auto.
  - intros c Hc. destruct (Ascii.eqb_spec "{" c) as [<-|]; auto.
  - intros c Hc. destruct (Ascii.eqb_spec "{" c) as [<-|]; auto.
  - intros c Hc. unfold move_char in Hc. rewrite !andb_true_iff in Hc. tauto.
Qed.

(** A ply without a note has no brace comment. *)
Lemma bare_search p :
  ply_ok p = true -> search clockPattern (bare p) = None.
Proof. intros Hp. now apply no_brace_no_comment, bare_no_brace. Qed.

(** The brace comment of a ply with a note is the note's. *)
Lemma noted_search p n :
  ply_ok p = true -> note p = Some n ->
  exists m,
    search clockPattern (ply_text p) = Some m
    /\ before m = bare p ++ before_brace n
    /\ after m = ""
    /\ groups m = [(1%nat, note_comment n)].
Proof.
  intros Hp Hn. pose proof (bare_no_brace p Hp) as Hbare.
  apply ply_ok_inv in Hp as (_ & _ & _ & _ & Hnote). rewrite Hn in Hnote.
  unfold note_ok in Hnote. rewrite !andb_true_iff in Hnote.
  destruct Hnote as [[Hne Hws] Hf].
  assert (Hhere :
    rmatch clockPattern (String "{" (note_comment n ++ String "}" "")) []
      (fun s' c => Some (s', c))
    = Some ("", [(1%nat, note_comment n)])).
  { unfold clockPattern.
    rewrite rmatch_Seq, rmatch_Lit, rmatch_Seq, rmatch_Group. unfold Not.
    apply rmatch_star_run.
    - apply annotation_chars; auto.
      + intros a Ha. destruct (Ascii.eqb_spec "}" a) as [<-|]; auto.
      + intros a Ha. destruct (Ascii.eqb_spec "}" a) as [<-|]; auto.
    - cbn [stops]. now rewrite Ascii.eqb_refl.
    - cbv beta. now rewrite consumed_app, rmatch_Lit. }
  apply search_here in Hhere.
  assert (Hpre : all (fun c => negb (Ascii.eqb "{" c))
                   (bare p ++ before_brace n) = true).
  { rewrite all_app, Hbare. cbn [andb].
    apply (all_impl is_space); [|exact Hws].
    intros a Ha. destruct (Ascii.eqb_spec "{" a) as [<-|]; auto. }
  pose proof (search_skip _ _ _ _ _ clockPattern_start Hpre Hhere) as H.
  eexists. split; [|split; [|split]].
  - unfold ply_text, note_part, note_text. rewrite Hn.
    rewrite <- append_assoc. exact H.
  - cbn [before]. apply append_nil.
  - reflexivity.
  - reflexivity.
Qed.

Lemma trimEnd_spaces ws : all is_space ws = true -> trimEnd ws = "".
Proof.
  induction ws as [|a ws IH]; [reflexivity|]. cbn [all trimEnd].
  intros H. apply andb_true_iff in H as [Ha Hws]. now rewrite (IH Hws), Ha.
Qed.

Lemma trimEnd_run a ws :
  all is_space ws = true -> trimEnd (a ++ ws) = trimEnd a.
Proof.
  intros Hws. induction a as [|c a IH]; cbn [append trimEnd].
  - now apply trimEnd_spaces.
  - now rewrite IH.
Qed.

Lemma trimEnd_keeps a b :
  truthy b = true -> all (fun c => negb (is_space c)) b = true ->
  trimEnd (a ++ b) = a ++ b.
Proof.
  intros Hne Hb. induction a as [|c a IH]; cbn [append trimEnd].
  - now apply trimEnd_id.
  - rewrite IH. destruct a; [destruct b; [discriminate|]|]; reflexivity.
Qed.

Lemma san_nonspace p :
  ply_ok p = true -> all (fun c => negb (is_space c)) (san p) = true.
Proof.
  intros Hp. apply ply_ok_inv in Hp as (_ & _ & _ & Hsan & _).
  apply (all_impl move_char); [|exact Hsan].
  intros c Hc. unfold move_char in Hc. rewrite !andb_true_iff in Hc. tauto.
Qed.

(** The ply without its note is what the trimming leaves. *)
Lemma trim_bare p ws :
  ply_ok p = true -> all is_space ws = true ->
  trim (bare p ++ ws) = bare p.
Proof.
  intros Hp Hws. unfold trim.
  assert (trimStart (bare p ++ ws) = bare p ++ ws) as ->.
  { unfold bare. rewrite !append_assoc.
    pose proof Hp as Hq. apply ply_ok_inv in Hq as (Hnum & _).
    destruct (is_digits_first _ Hnum) as (d & t & -> & Hd & _).
    cbn [append trimStart]. now rewrite (digit_not_space d Hd). }
  rewrite trimEnd_run by exact Hws.
  unfold bare.
  replace (number p ++ "." ++ dots p ++ gap p ++ san p)
    with ((number p ++ "." ++ dots p ++ gap p) ++ san p)
    by (rewrite !append_assoc; reflexivity).
  apply trimEnd_keeps; [|now apply san_nonspace].
  now apply ply_ok_inv in Hp as (_ & _ & H & _).
Qed.

Lemma lit_fails {A} a s c (k : @cont A) :
  stops (Ascii.eqb a) s = true -> rmatch (Lit a) s c k = None.
Proof.
  destruct s as [|b s]; [reflexivity|]. unfold Lit. cbn [rmatch stops].
  intros H. apply negb_true_iff in H. now rewrite H.
Qed.

Lemma gap_san_no_dot p :
  ply_ok p = true -> stops (Ascii.eqb ".") (gap p ++ san p) = true.
Proof.
  intros Hp. apply ply_ok_inv in Hp as (_ & Hgap & Hsan1 & Hsan & _).
  destruct (gap p) as [|g gs].
  - cbn [append]. rewrite <- (append_nil (san p)).
    apply (all_stops move_char); auto.
    intros a Ha. unfold move_char in Ha. rewrite !andb_true_iff in Ha.
    destruct Ha as [_ Ha]. now apply negb_true_iff in Ha.
  - cbn [append stops]. cbn [all] in Hgap.
    apply andb_true_iff in Hgap as [Hg _].
    destruct (Ascii.eqb_spec "." g) as [<-|]; [discriminate|reflexivity].
Qed.

(** Behind its number, dots and white space a ply holds its move. *)
Lemma number_prefix_bare p :
  ply_ok p = true -> replace_here number_prefix "" (bare p) = san p.
Proof.
  intros Hp.
  assert (H : rmatch number_prefix (bare p) [] (fun s' c => Some (s', c))
              = Some (san p, [])).
  { pose proof (gap_san_no_dot p Hp) as Hdot.
    pose proof (san_nonspace p Hp) as Hsan.
    pose proof Hp as Hq.
    apply ply_ok_inv in Hq as (Hnum & Hgap & Hsan1 & _ & _).
    assert (HK : rmatch (Star true space) (gap p ++ san p) []
                   (fun s' c => Some (s', c)) = Some (san p, [])).
    { unfold space. apply rmatch_star_run; auto.
      destruct (san p) as [|a s]; [discriminate|]. cbn [all stops] in *.
      apply andb_true_iff in Hsan as [Ha _].
      apply negb_true_iff in Ha. now rewrite Ha. }
    unfold number_prefix, bare. rewrite rmatch_Seq.
    apply rmatch_plus_run;
      [now apply is_digits_truthy|now apply is_digits_class|reflexivity|].
    cbv beta.
    change ("." ++ dots p ++ gap p ++ san p)
      with (String "." (dots p ++ gap p ++ san p)).
    rewrite rmatch_Seq, rmatch_Lit, rmatch_Seq.
    unfold dots. destruct (black_dots p).
    - change (".." ++ gap p ++ san p)
        with (String "." (String "." (gap p ++ san p))).
      rewrite rmatch_Opt, rmatch_Lit. cbv beta.
      rewrite rmatch_Seq, rmatch_Opt, rmatch_Lit. cbv beta.
      now rewrite HK.
    - cbn [append]. rewrite rmatch_Opt, lit_fails by exact Hdot.
      rewrite rmatch_Seq, rmatch_Opt, lit_fails by exact Hdot.
      exact HK. }
  unfold replace_here, match_here. now rewrite H.
Qed.

(** One turn of the loop on a ply without a note. *)
Lemma step_bare st p :
  ply_ok p = true -> note p = None ->
  formattedMoves (step st (ply_text p)) = (formattedMoves st ++ [bare p])%list
  /\ clocks (step st (ply_text p)) = clocks st
  /\ isWhiteMove (step st (ply_text p)) = negb (isWhiteMove st)
  /\ currentMoveNumber (step st (ply_text p))
     = (if isWhiteMove st then currentMoveNumber st
        else currentMoveNumber st + 1).
Proof.
  intros Hp Hn. unfold ply_text, note_part. rewrite Hn, append_nil.
  unfold step. rewrite (bare_search p Hp). repeat split.
Qed.

(** One turn of the loop on a ply with a note. *)
Lemma step_noted st p n :
  ply_ok p = true -> note p = Some n ->
  formattedMoves (step st (ply_text p)) = (formattedMoves st ++ [bare p])%list
  /\ (exists c,
        clocks (step st (ply_text p)) = (clocks st ++ [c])%list
        /\ facts c
           = (note_clock n, san p, currentMoveNumber st, isWhiteMove st))
  /\ isWhiteMove (step st (ply_text p)) = negb (isWhiteMove st)
  /\ currentMoveNumber (step st (ply_text p))
     = (if isWhiteMove st then currentMoveNumber st
        else currentMoveNumber st + 1).
Proof.
  intros Hp Hn.
  destruct (noted_search p n Hp Hn) as (m & Hm & Hbefore & Hafter & Hgroups).
  pose proof Hp as Hq. apply ply_ok_inv in Hq as (_ & _ & _ & _ & Hnote).
  rewrite Hn in Hnote.
  destruct (note_parses n Hnote) as [Hparse Hclock].
  assert (Hws : all is_space (before_brace n) = true).
  { unfold note_ok in Hnote. rewrite !andb_true_iff in Hnote. tauto. }
  assert (Hclean : trim (replace clockPattern "" (ply_text p)) = bare p).
  { unfold replace. rewrite Hm, Hbefore, Hafter. cbn [append].
    rewrite append_nil. now apply trim_bare. }
  unfold step. rewrite Hm.
  assert (group_text 1 m = note_comment n) as ->.
  { unfold group_text, group. rewrite Hgroups. reflexivity. }
  rewrite Hparse. cbn [is_set value]. rewrite Hclock, Hclean.
  cbn [formattedMoves clocks isWhiteMove currentMoveNumber].
  split; [reflexivity|]. split; [|split; reflexivity].
  eexists. split; [reflexivity|].
  unfold facts. cbn [time moveText moveNumber isWhite].
  now rewrite number_prefix_bare.
Qed.
End PlySteps.

(** ** Service A: [formatPGN] on move text as the service writes it *)

Section WrittenMoves.
Import JS Regex ChessCom Vocabulary Further.

Lemma next_number j :
  (if Nat.even j then Z.of_nat j / 2 + 1 else Z.of_nat j / 2 + 1 + 1)
  = Z.of_nat (S j) / 2 + 1.
Proof.
  destruct (Nat.even j) eqn:E.
  - apply Nat.even_spec in E as [k ->].
    rewrite Nat2Z.inj_succ, Nat2Z.inj_mul. Z.div_mod_to_equations. lia.
  - assert (O : Nat.odd j = true) by (now rewrite <- Nat.negb_even, E).
    apply Nat.odd_spec in O as [k ->].
    rewrite Nat2Z.inj_succ, Nat2Z.inj_add, Nat2Z.inj_mul.
    Z.div_mod_to_equations. lia.
Qed.

Lemma fold_step_plies plies :
  forall j st,
    forallb ply_ok plies = true ->
    isWhiteMove st = Nat.even j ->
    currentMoveNumber st = Z.of_nat j / 2 + 1 ->
    formattedMoves (fold_left step (map ply_text plies) st)
    = (formattedMoves st ++ map bare plies)%list
    /\ map facts (clocks (fold_left step (map ply_text plies) st))
       = (map facts (clocks st) ++ noted j plies)%list.
Proof.
  induction plies as [|p plies IH]; intros j st Hall Hw Hnum.
  - simpl. now rewrite !app_nil_r.
  - cbn [forallb] in Hall. apply andb_true_iff in Hall as [Hp Hall].
    cbn [map fold_left noted].
    assert (Hnext :
      isWhiteMove (step st (ply_text p)) = negb (isWhiteMove st)
      /\ currentMoveNumber (step st (ply_text p))
         = (if isWhiteMove st then currentMoveNumber st
            else currentMoveNumber st + 1)).
    { destruct (note p) as [n|] eqn:Hn.
      - now destruct (step_noted st p n Hp Hn) as (_ & _ & H1 & H2).
      - now destruct (step_bare st p Hp Hn) as (_ & _ & H1 & H2). }
    destruct Hnext as [Hw' Hnum'].
    destruct (IH (S j) (step st (ply_text p)) Hall) as [Htext Hclocks].
    { rewrite Hw', Hw, Nat.even_succ. apply Nat.negb_even. }
    { rewrite Hnum', Hw, Hnum. apply next_number. }
    rewrite Htext, Hclocks.
    destruct (note p) as [n|] eqn:Hn.
    + destruct (step_noted st p n Hp Hn) as (Hf & (c & Hc & Hfacts) & _).
      rewrite Hf, Hc, map_app, <- !app_assoc. cbn [map app].
      now rewrite Hfacts, Hw, Hnum.
    + destruct (step_bare st p Hp Hn) as (Hf & Hc & _).
      rewrite Hf, Hc, <- !app_assoc. split; reflexivity.
Qed.

Lemma separated_plies rest :
  forallb separated rest = true -> forallb ply_ok (map snd rest) = true.
Proof.
  induction rest as [|item rest IH]; [reflexivity|]. cbn [forallb map].
  intros H. apply andb_true_iff in H as [Hitem Hrest].
  apply separated_inv in Hitem as (_ & _ & Hp). now rewrite Hp, IH.
Qed.

(** X20.  When the move text (the PGN without its header lines, trimmed)
    is a sequence of plies as the service writes them, each [N.] or [N...],
    a move and possibly a note [{[%clk h:m:s]}] or [{[%clk h:m:s.frac]}]
    whose seconds have at most fifteen digits in all, followed by a result
    or nothing, then the flattened text of [formatPGN] is the plies without
    their notes, joined by single blanks, and the records are those of the
    plies with a note, in their order: the clock of the note with whole
    seconds, the move alone, the number of the move counted over all plies
    (not the number written in the text) and the colour by the parity of the
    ply. *)
Theorem formatPGN_of_written_moves pgn first rest tail :
  move_section pgn = moves_text first rest tail ->
  ply_ok first = true -> forallb separated rest = true ->
  tail_ok tail = true ->
  text (formatPGN pgn) = join " " (map bare (first :: map snd rest))
  /\ map facts (clocks_of (formatPGN pgn))
     = noted 0 (first :: map snd rest).
Proof.
  intros Hpgn Hfirst Hrest Htail.
  unfold formatPGN, finish, run. cbn [text clocks_of].
  rewrite Hpgn, tokens_of_text by assumption.
  destruct (fold_step_plies (first :: map snd rest) 0 initial)
    as [Htext Hclocks]; try reflexivity.
  { cbn [forallb]. now rewrite Hfirst, separated_plies. }
  rewrite Htext, Hclocks. split; reflexivity.
Qed.

Lemma formatPGN_of_written_moves_witness :
  text (formatPGN written_pgn) = "1. e4 1... c5 2. Nf3 2... d6"
  /\ map facts (clocks_of (formatPGN written_pgn))
     = [("0:10:0", "e4", 1, true); ("0:09:55", "c5", 1, false);
        ("0:09:50", "d6", 2, false)].
Proof.
  exact (formatPGN_of_written_moves written_pgn written_first written_rest
           " 1-0" eq_refl eq_refl eq_refl eq_refl).
Defined.
End WrittenMoves.

(** ** Service A: the header lines of a PGN *)

Section Headers.
Import JS Regex ChessCom Vocabulary Further.

(** The continuation of a match is called on an end of the input. *)
Lemma star_loop_suffix {A}
    (body : string -> captures -> @cont A -> option A) g :
  (forall s c k x,
      body s c k = Some x ->
      exists pre s' c', k s' c' = Some x /\ s = pre ++ s') ->
  forall fuel s c k x,
    star_loop body g fuel s c k = Some x ->
    exists pre s' c', k s' c' = Some x /\ s = pre ++ s'.
Proof.
  intros Hbody. induction fuel as [|fuel IH]; intros s c k x; simpl.
  - intros Hk. exists "", s, c. auto.
  - assert (Hmore :
      body s c (fun s' c' =>
        if (String.length s' <? String.length s)%nat
        then star_loop body g fuel s' c' k else None) = Some x ->
      exists pre s' c', k s' c' = Some x /\ s = pre ++ s').
    { intros H. apply Hbody in H as (pre1 & s1 & c1 & H & ->).
      destruct (String.length s1 <? _)%nat; [|discriminate].
      apply IH in H as (pre2 & s' & c' & H & ->).
      exists (pre1 ++ pre2), s', c'. split; [exact H|].
      now rewrite append_assoc. }
    destruct g.
    + destruct (body s c _) as [y|] eqn:E.
      * intros [= <-]. apply (Hmore eq_refl).
      * intros Hk. exists "", s, c. auto.
    + destruct (k s c) as [y|] eqn:E.
      * intros [= <-]. exists "", s, c. auto.
      * exact Hmore.
Qed.

Lemma rmatch_suffix {A} r :
  forall s c (k : @cont A) x,
    rmatch r s c k = Some x ->
    exists pre s' c', k s' c' = Some x /\ s = pre ++ s'.
Proof.
  induction r as [|p|r1 IH1 r2 IH2|r1 IH1 r2 IH2|g r1 IH1|i r1 IH1];
    intros s c k x; cbn [rmatch].
  - intros H. exists "", s, c. auto.
  - destruct s as [|a s]; [discriminate|].
    destruct (p a); [|discriminate].
    intros H. exists (String a ""), s, c. auto.
  - intros H. apply IH1 in H as (pre1 & s1 & c1 & H & ->).
    apply IH2 in H as (pre2 & s' & c' & H & ->).
    exists (pre1 ++ pre2), s', c'. split; [exact H|].
    now rewrite append_assoc.
  - destruct (rmatch r1 s c k) as [y|] eqn:E.
    + intros [= <-]. apply (IH1 _ _ _ _ E).
    + apply IH2.
  - now apply star_loop_suffix.
  - intros H. apply IH1 in H as (pre & s' & c' & H & ->). eauto.
Qed.

Lemma has_header_end_suffix pre s :
  has_header_end s = true -> has_header_end (pre ++ s) = true.
Proof.
  intros H. induction pre as [|a pre IH]; [exact H|].
  cbn [append has_header_end]. rewrite IH. apply orb_true_r.
Qed.

(** White space and a line feed can only be read at the end of a line. *)
Lemma space_then_feed {A} fuel :
  forall s c (k : @cont A) x,
    star_loop (rmatch space) true fuel s c
      (fun s' c' => rmatch (Lit "010") s' c' k) = Some x ->
    line_ends s = true.
Proof.
  unfold space, Lit.
  induction fuel as [|fuel IH]; intros s c k x; cbn [star_loop rmatch].
  - destruct s as [|a s]; [discriminate|]. cbn [line_ends].
    destruct (Ascii.eqb "010" a); [reflexivity|discriminate].
  - destruct s as [|a s]; [discriminate|]. cbn [line_ends].
    destruct (Ascii.eqb "010" a); [reflexivity|].
    destruct (is_space a); [|discriminate].
    destruct (_ <? _)%nat; [|discriminate]. cbn [orb andb].
    destruct (star_loop _ true fuel s c _) as [y|] eqn:E; [|discriminate].
    intros _. pose proof (IH s c k y) as H. cbn [rmatch] in H. now apply H.
Qed.

Lemma lit_inv {A} a s c (k : @cont A) x :
  rmatch (Lit a) s c k = Some x ->
  exists s', s = String a s' /\ k s' c = Some x.
Proof.
  unfold Lit. cbn [rmatch]. destruct s as [|b s]; [discriminate|].
  destruct (Ascii.eqb_spec a b) as [<-|]; [|discriminate]. eauto.
Qed.

(** The header pattern matches only where a closing bracket ends a line. *)
Lemma header_match_end s x :
  rmatch header_pattern s [] (fun s' c => Some (s', c)) = Some x ->
  has_header_end s = true.
Proof.
  unfold header_pattern. rewrite rmatch_Seq. intros H.
  apply rmatch_suffix in H as (pre1 & s1 & c1 & H & ->).
  cbv beta in H. rewrite rmatch_Seq in H.
  apply rmatch_suffix in H as (pre2 & s2 & c2 & H & ->).
  apply has_header_end_suffix, has_header_end_suffix.
  cbv beta in H. rewrite rmatch_Seq in H.
  apply lit_inv in H as (s3 & -> & H). cbv beta in H.
  rewrite rmatch_Seq in H.
  rewrite (rmatch_Star_fuel true space (S (String.length s3))) in H by lia.
  apply space_then_feed in H.
  cbn [has_header_end]. now rewrite Ascii.eqb_refl, H.
Qed.

Lemma no_header_end_no_match s :
  has_header_end s = false -> search header_pattern s = None.
Proof.
  induction s as [|a s IH]; intros H.
  - reflexivity.
  - cbn [search]. unfold match_here.
    destruct (rmatch header_pattern (String a s) [] _) as [[s' c]|] eqn:E.
    + apply header_match_end in E. congruence.
    + rewrite IH; [reflexivity|].
      cbn [has_header_end] in H. now apply orb_false_iff in H as [_ H].
Qed.

(** A lazy star over a class reads a run up to the first place where the
    continuation accepts. *)
Lemma lazy_class_run {A} (p q : ascii -> bool) run :
  forall rest c (K : @cont A) x fuel,
    all p run = true -> all q run = true ->
    (forall a s c, q a = true -> K (String a s) c = None) ->
    K rest c = Some x -> (String.length run < fuel)%nat ->
    star_loop (rmatch (Class p)) false fuel (run ++ rest) c K = Some x.
Proof.
  induction run as [|a run IH]; intros rest c K x fuel Hp Hq HK Hk Hfuel.
  - destruct fuel as [|fuel]; [simpl in Hfuel; lia|].
    cbn [append star_loop]. now rewrite Hk.
  - destruct fuel as [|fuel]; [simpl in Hfuel; lia|].
    cbn [all] in Hp, Hq.
    apply andb_true_iff in Hp as [Ha Hp].
    apply andb_true_iff in Hq as [Hqa Hq].
    cbn [append star_loop rmatch]. rewrite (HK a _ c Hqa), Ha.
    assert ((String.length (run ++ rest)
             <? String.length (String a (run ++ rest)))%nat = true) as ->
      by (apply Nat.ltb_lt; simpl; lia).
    assert (Hlt : (String.length run < fuel)%nat) by (simpl in Hfuel; lia).
    specialize (IH rest c K x fuel Hp Hq HK Hk Hlt).
    cbn [rmatch] in IH. exact IH.
Qed.

Lemma star_stops_none {A} (p : ascii -> bool) fuel rest c (K : @cont A) :
  stops p rest = true -> K rest c = None ->
  star_loop (rmatch (Class p)) true fuel rest c K = None.
Proof.
  intros Hstop HK. destruct fuel as [|fuel]; cbn [star_loop rmatch].
  - exact HK.
  - destruct rest as [|b rest]; [exact HK|]. cbn [stops] in Hstop.
    apply negb_true_iff in Hstop. now rewrite Hstop.
Qed.

(** A greedy star over a class, followed by a character of the class,
    gives that character back when the run ends with it. *)
Lemma star_gives_back {A} (p : ascii -> bool) a run :
  forall rest c (k : @cont A) x fuel,
    all p run = true -> p a = true -> stops p rest = true ->
    k rest c = Some x -> (String.length run < fuel)%nat ->
    star_loop (rmatch (Class p)) true fuel (run ++ String a rest) c
      (fun s' c' => rmatch (Lit a) s' c' k) = Some x.
Proof.
  induction run as [|b run IH]; intros rest c k x fuel Hrun Ha Hstop Hk Hfuel.
  - destruct fuel as [|fuel]; [simpl in Hfuel; lia|].
    cbn [append star_loop rmatch]. rewrite Ha.
    assert ((String.length rest <? String.length (String a rest))%nat = true)
      as -> by (apply Nat.ltb_lt; simpl; lia).
    pose proof (star_stops_none p fuel rest c
                  (fun s' c' => rmatch (Lit a) s' c' k) Hstop) as H.
    cbn [rmatch] in H. rewrite H.
    + unfold Lit. cbn [rmatch]. now rewrite Ascii.eqb_refl.
    + destruct rest as [|b rest]; [reflexivity|].
      unfold Lit. cbn [rmatch]. cbn [stops] in Hstop.
      destruct (Ascii.eqb_spec a b) as [<-|]; [|reflexivity].
      now rewrite Ha in Hstop.
  - destruct fuel as [|fuel]; [simpl in Hfuel; lia|].
    cbn [all] in Hrun. apply andb_true_iff in Hrun as [Hb Hrun].
    cbn [append star_loop rmatch]. rewrite Hb.
    assert ((String.length (run ++ String a rest)
             <? String.length (String b (run ++ String a rest)))%nat = true)
      as -> by (apply Nat.ltb_lt; simpl; lia).
    assert (Hlt : (String.length run < fuel)%nat) by (simpl in Hfuel; lia).
    specialize (IH rest c k x fuel Hrun Ha Hstop Hk Hlt).
    cbn [rmatch] in IH. now rewrite IH.
Qed.

(** The header pattern reads a whole header line. *)
Lemma header_line_matches h rest :
  header_ok h = true -> stops is_space rest = true ->
  search header_pattern (header_line h ++ rest)
  = Some {| before := ""; matched := header_line h; groups := [];
            after := rest |}.
Proof.
  intros Hh Hrest. unfold header_ok in Hh.
  apply andb_true_iff in Hh as [Hcontent Hws].
  rewrite <- (consumed_app (header_line h) rest) at 2.
  apply search_here. unfold header_line, header_pattern.
  rewrite !append_assoc. cbn [append].
  rewrite rmatch_Seq, rmatch_Lit, rmatch_Seq.
  rewrite (rmatch_Star_fuel false dot
             (S (String.length
                   (fst h ++ String "]" (snd h ++ String "010" rest)))))
    by lia.
  unfold dot. apply (lazy_class_run _ (fun c => negb (Ascii.eqb "]" c))).
  - apply (all_impl header_char); [|exact Hcontent].
    intros a Ha. unfold header_char in Ha.
    now apply andb_true_iff in Ha as [Ha _].
  - apply (all_impl header_char); [|exact Hcontent].
    intros a Ha. unfold header_char in Ha.
    now apply andb_true_iff in Ha as [_ Ha].
  - intros a s c Ha. rewrite rmatch_Seq. unfold Lit at 1. cbn [rmatch].
    apply negb_true_iff in Ha. now rewrite Ha.
  - rewrite rmatch_Seq, rmatch_Lit, rmatch_Seq.
    rewrite (rmatch_Star_fuel true space
               (S (String.length (snd h ++ String "010" rest)))) by lia.
    unfold space. apply star_gives_back; auto.
    rewrite append_length. simpl. lia.
  - rewrite append_length. simpl. lia.
Qed.

Lemma with_headers_starts hs body :
  stops is_space body = true -> stops is_space (with_headers hs body) = true.
Proof. destruct hs as [|h hs]; [auto|reflexivity]. Qed.

Lemma headers_removed hs body :
  forallb header_ok hs = true -> stops is_space body = true ->
  replace_all header_pattern "" (with_headers hs body)
  = replace_all header_pattern "" body.
Proof.
  intros Hhs Hbody. induction hs as [|h hs IH]; [reflexivity|].
  cbn [forallb] in Hhs. apply andb_true_iff in Hhs as [Hh Hhs].
  cbn [with_headers].
  rewrite header_removal_unfold, header_line_matches
    by auto using with_headers_starts.
  cbn [before after append]. now apply IH.
Qed.

(** X21.  Header lines [[...]] at the start of a PGN, each ended by a line
    feed (after any white space, blank lines included), are dropped whatever
    they hold: when the text after them starts with no white space and has no
    closing bracket at the end of a line, [formatPGN] reads that text alone,
    trimmed. *)
Theorem header_lines_are_dropped hs body :
  forallb header_ok hs = true -> stops is_space body = true ->
  has_header_end body = false ->
  move_section (with_headers hs body) = trim body
  /\ formatPGN (with_headers hs body) = formatPGN body.
Proof.
  intros Hhs Hstart Hbody.
  assert (Hclean : replace_all header_pattern "" body = body).
  { rewrite header_removal_unfold.
    now rewrite (no_header_end_no_match body Hbody). }
  assert (Hsection : move_section (with_headers hs body) = trim body).
  { unfold move_section. now rewrite headers_removed, Hclean. }
  split; [exact Hsection|].
  unfold formatPGN. rewrite Hsection. unfold move_section.
  now rewrite Hclean.
Qed.

Lemma header_lines_are_dropped_witness :
  written_pgn
  = with_headers written_headers
      ("1. e4 {[%clk 0:10:00]} 1... c5 {[%clk 0:09:55.3]} 2. Nf3 "
       ++ "2... d6 {[%clk 0:09:50]} 1-0" ++ String "010" "")
  /\ move_section written_pgn
     = "1. e4 {[%clk 0:10:00]} 1... c5 {[%clk 0:09:55.3]} 2. Nf3 "
       ++ "2... d6 {[%clk 0:09:50]} 1-0".
Proof.
  split; [reflexivity|].
  exact (proj1 (header_lines_are_dropped written_headers
                  ("1. e4 {[%clk 0:10:00]} 1... c5 {[%clk 0:09:55.3]} 2. Nf3 "
                   ++ "2... d6 {[%clk 0:09:50]} 1-0" ++ String "010" "")
                  eq_refl eq_refl eq_refl)).
Defined.
End Headers.

(** ** The table and the move list of service B *)

Section TableOfMoves.
Import JS Vocabulary Further Tracker.



End TableOfMoves.
